(** * Radial sweep-line visibility engine: shallow embedding and checked properties

    Source: [NearshoreWaveFunctions_cython_3p0.pyx], functions
    [list_extreme_cell_angles], [compute_distances],
    [update_visible_pixels_fast], [_active_pixel_index],
    [active_pixel_index] and [sweep_through_angles], with the two
    valuation functions [polynomial] and [logarithmic] that consume the
    distances, and the finite-difference helper [gradient2].

    C [double]s are IEEE binary64 values: Rocq's primitive [float].
    C and numpy integers are [Z], with the wrap-around of their width
    where the source computes on them: 32 bits for a C [int] and a numpy
    [int32], 64 bits for a C [long] and a numpy [int64].  An integer
    literal of the source is a C [long], so that [x**2] on a C [int] is
    computed in 64 bits.  A Python integer that is assigned to a C [int]
    is converted, and the conversion raises when the value does not fit.
    numpy arrays are lists; an index goes through the wrap-around of
    negative indices and the bounds check that Cython emits by default
    (the [boundscheck(False)] decorator is commented out in the source).
    Integer division is that of Python 2.  Python exceptions and C
    undefined behaviour are explicit [fault]s; running out of memory is
    not modelled.

    The file has four parts: the embedding of the source, the data of the
    scenarios, the vocabulary of the properties, and the properties. *)

From Stdlib Require Import ZArith Bool Lia Floats.
From stdpp Require Import base list sorting.

Local Open Scope Z_scope.

(** * Part I: the embedding *)

(** ** Faults and the error monad *)

Inductive fault : Set :=
| AssertionError      (* a failed [assert] *)
| IndexError          (* numpy index out of bounds *)
| ZeroDivisionError   (* Cython's checked division by zero *)
| OverflowError       (* a Python number out of the range of its C type *)
| ValueError          (* numpy: an array of negative size *)
| UndefinedBehaviour. (* C: out-of-bounds pointer access, double->int out of range *)

Inductive result (A : Type) : Type :=
| Ok (a : A)
| Raise (e : fault).
Arguments Ok {A} a.
Arguments Raise {A} e.

Definition rbind {A B} (k : A → result B) (m : result A) : result B :=
  match m with
  | Ok a => k a
  | Raise e => Raise e
  end.

#[global] Instance result_bind : MBind result := @rbind.

Definition assert (b : bool) : result unit :=
  if b then Ok tt else Raise AssertionError.

(** ** Doubles *)

(** [<double>z]: conversion of an integer, rounded to nearest even. *)
Definition of_Z (z : Z) : float :=
  SF2Prim (binary_normalize 53 1024 z 0 false).

(** Truncation toward zero of a finite double, as an unbounded integer. *)
Definition trunc (f : float) : option Z :=
  match Prim2SF f with
  | S754_zero _ => Some 0
  | S754_finite s m e =>
      let v := if 0 <=? e then Z.pos m * 2 ^ e else Z.pos m / 2 ^ (- e) in
      Some (if s then - v else v)
  | S754_infinity _ | S754_nan => None
  end.

Definition INT_MIN : Z := - 2 ^ 31.
Definition INT_MAX : Z := 2 ^ 31 - 1.

(** [<int>f]: C conversion of a double to [int]; undefined when the
    truncated value does not fit. *)
Definition to_int (f : float) : result Z :=
  match trunc f with
  | Some z => if (INT_MIN <=? z) && (z <=? INT_MAX) then Ok z
              else Raise UndefinedBehaviour
  | None => Raise UndefinedBehaviour
  end.

(** Truth value of a C double: non-zero (a NaN is true). *)
Definition truthy (f : float) : bool := negb (PrimFloat.eqb f 0%float).

(** The exact value of a finite double [f] is [SF_num s m * 2 ^ e] when
    [Prim2SF f = S754_finite s m e]. *)
Definition SF_num (s : bool) (m : positive) : Z :=
  if s then Z.neg m else Z.pos m.

(** Python's [%] on doubles: the exact remainder with the sign of the
    divisor, rounded to a double. *)
Definition py_mod (x y : float) : result float :=
  match Prim2SF x, Prim2SF y with
  | _, S754_zero _ => Raise ZeroDivisionError
  | S754_nan, _ | _, S754_nan | S754_infinity _, _ => Ok nan
  | S754_zero _, _ => Ok (if PrimFloat.ltb y 0 then (-0)%float else 0%float)
  | S754_finite sx _ _, S754_infinity sy => Ok (if eqb sx sy then x else y)
  | S754_finite sx mx ex, S754_finite sy my ey =>
      let e := Z.min ex ey in
      let X := SF_num sx mx * 2 ^ (ex - e) in
      let Y := SF_num sy my * 2 ^ (ey - e) in
      let R := X mod Y in
      Ok (if R =? 0 then (if sy then (-0)%float else 0%float)
          else SF2Prim (binary_normalize 53 1024 R e false))
  end.

Definition pi : float := 0x1.921fb54442d18p+1%float.
Definition two_pi : float := (2 * pi)%float.

(** C double division under Cython's default [cdivision=False]. *)
Definition checked_div (x y : float) : result float :=
  if PrimFloat.eqb y 0 then Raise ZeroDivisionError else Ok (x / y)%float.

(** ** C integers *)

(** Signed wrap-around to [w] bits. *)
Definition wrap (w : Z) (z : Z) : Z := (z + 2 ^ (w - 1)) mod 2 ^ w - 2 ^ (w - 1).
Definition int32 : Z → Z := wrap 32.
Definition int64 : Z → Z := wrap 64.

(** [int x = obj]: conversion of a Python integer to a C [int]. *)
Definition to_c_int (z : Z) : result Z :=
  if (INT_MIN <=? z) && (z <=? INT_MAX) then Ok z else Raise OverflowError.

(** ** numpy arrays *)

(** Index normalisation of Cython's buffer access: a negative index counts
    from the end, then the bounds check. *)
Definition norm_index (n : nat) (i : Z) : result nat :=
  let i' := if i <? 0 then i + Z.of_nat n else i in
  if (0 <=? i') && (i' <? Z.of_nat n) then Ok (Z.to_nat i') else Raise IndexError.

Definition getitem {A} (arr : list A) (i : Z) : result A :=
  k ← norm_index (length arr) i;
  match arr !! k with
  | Some x => Ok x
  | None => Raise IndexError
  end.

Definition setitem {A} (arr : list A) (i : Z) (x : A) : result (list A) :=
  k ← norm_index (length arr) i;
  Ok (<[k:=x]> arr).

(** A two-dimensional numpy array is a list of rows. *)

Definition getitem2 {A} (m : list (list A)) (r c : Z) : result A :=
  row ← getitem m r;
  getitem row c.

Definition setitem2 {A} (m : list (list A)) (r c : Z) (x : A)
    : result (list (list A)) :=
  row ← getitem m r;
  row' ← setitem row c x;
  setitem m r row'.

(** [for i in range(start, start + count)] over a state, stopping at the
    first fault. *)

Fixpoint for_range {St} (body : St → Z → result St) (start : Z) (count : nat)
    (st : St) : result St :=
  match count with
  | O => Ok st
  | S n => st' ← body st start; for_range body (start + 1) n st'
  end.

(** ** [gradient2] *)

(** Lines 112-119, for [U] and [z] one-dimensional numpy arrays of
    doubles, as the caller passes them.  numpy's division of doubles does
    not raise: a zero divisor gives an infinity or a NaN.  [dU = U*0] is a
    fresh array. *)

(** [dU[uu] = 0.5*(U[uu+1]-U[uu])/(z[uu+1]-z[uu])
             + 0.5*(U[uu]-U[uu-1])/(z[uu]-z[uu-1])]. *)
Definition gradient2_body (U z : list float) (dU : list float) (uu : Z)
    : result (list float) :=
  u_next ← getitem U (uu + 1);
  u ← getitem U uu;
  z_next ← getitem z (uu + 1);
  z_here ← getitem z uu;
  u_prev ← getitem U (uu - 1);
  z_prev ← getitem z (uu - 1);
  setitem dU uu (0.5 * (u_next - u) / (z_next - z_here)
                 + 0.5 * (u - u_prev) / (z_here - z_prev))%float.

Definition gradient2 (U z : list float) : result (list float) :=
  let lz := Z.of_nat (length z) in
  let dU := map (λ u, (u * 0)%float) U in
  u1 ← getitem U 1;
  u0 ← getitem U 0;
  z1 ← getitem z 1;
  z0 ← getitem z 0;
  dU ← setitem dU 0 ((u1 - u0) / (z1 - z0))%float;
  dU ← for_range (gradient2_body U z) 1 (Z.to_nat (lz - 1 - 1)) dU;
  u_last ← getitem U (lz - 1);
  u_prev ← getitem U (lz - 2);
  z_last ← getitem z (lz - 1);
  z_prev ← getitem z (lz - 2);
  setitem dU (lz - 1) ((u_last - u_prev) / (z_last - z_prev))%float.

(** ** [list_extreme_cell_angles] *)

(** A Python number passed as [max_dist]. *)
Inductive pynum : Set :=
| PyInt (z : Z)
| PyFloat (f : float).

(** Python's [x ** 2] for a float [x] that is not negative: an infinity,
    a zero and 1.0 are answered by the interpreter itself; any other
    value goes to the C library's [pow], and a result that is infinite
    raises OverflowError. *)
Definition float_square (pow : float → float → float) (x : float)
    : result float :=
  if PrimFloat.is_infinity x then Ok infinity
  else if PrimFloat.eqb x 0 then Ok 0%float
  else if PrimFloat.eqb x 1 then Ok 1%float
  else
    let r := pow x 2%float in
    if PrimFloat.is_infinity r then Raise OverflowError else Ok r.

(** [max_dist**2 if max_dist >= 0 else 1000000000], as the C double
    [max_dist_sq].  The square of a Python integer is exact, and its
    conversion to a double raises OverflowError when it is too large. *)
Definition max_dist_sq_of (pow : float → float → float) (max_dist : pynum)
    : result float :=
  match max_dist with
  | PyInt z =>
      if 0 <=? z then
        let f := of_Z (z ^ 2) in
        if PrimFloat.is_infinity f then Raise OverflowError else Ok f
      else Ok 1000000000%float
  | PyFloat f =>
      if PrimFloat.leb 0 f then float_square pow f else Ok 1000000000%float
  end.

Section corner_table.
Local Open Scope float_scope.

(** Lines 666-674: per sector, the offsets [row, col] of the first and of
    the last corner met by the sweep line. *)
Definition extreme_cell_points : list float :=
  [ 0.5; -0.5; -0.5; -0.5;
    0.5;  0.5; -0.5; -0.5;
    0.5;  0.5;  0.5; -0.5;
   -0.5;  0.5;  0.5; -0.5;
   -0.5;  0.5;  0.5;  0.5;
   -0.5; -0.5;  0.5;  0.5;
   -0.5; -0.5; -0.5;  0.5;
    0.5; -0.5; -0.5;  0.5].

End corner_table.

Definition SECTOR_SIZE : Z := 4.
Definition POINT_SIZE : Z := 2.

(** A read in the C array of 32 doubles. *)
Definition table_at (k : Z) : result float :=
  if (0 <=? k) && (k <? 32) then
    match extreme_cell_points !! Z.to_nat k with
    | Some x => Ok x
    | None => Raise UndefinedBehaviour
    end
  else Raise UndefinedBehaviour.

(** Lines 729-735: the two tests that skip a cell.  The two offsets are C
    [int]s; their squares and [d] are C [long]s, and [d] is converted to
    a double for the comparison. *)
Definition cell_skipped (max_dist_sq : float) (viewpoint_row viewpoint_col : Z)
    (row col : Z) : bool :=
  let viewpoint_to_cell_row := int32 (row - viewpoint_row) in
  let viewpoint_to_cell_col := int32 (col - viewpoint_col) in
  let d := int64 (int64 (viewpoint_to_cell_row ^ 2)
                  + int64 (viewpoint_to_cell_col ^ 2)) in
  PrimFloat.ltb max_dist_sq (of_Z d)
  || ((row =? viewpoint_row) && (col =? viewpoint_col)).

(** The cells that both passes over the grid keep, in row-major order. *)
Definition visited_cells (array_rows array_cols : Z) (max_dist_sq : float)
    (viewpoint_row viewpoint_col : Z) : list (Z * Z) :=
  row ← seqZ 0 array_rows;
  col ← seqZ 0 array_cols;
  if cell_skipped max_dist_sq viewpoint_row viewpoint_col row col
  then [] else [(row, col)].

Section classifier.
(** The C library's [atan2] and [pow]. *)
Variable atan2 : float → float → float.
Variable pow : float → float → float.

(** Lines 741-770: center, minimum and maximum angle of one cell. *)
Definition cell_angles (viewpoint_row viewpoint_col row col : Z)
    : result (float * float * float) :=
  let viewpoint_to_cell_row := int32 (row - viewpoint_row) in
  let viewpoint_to_cell_col := int32 (col - viewpoint_col) in
  angle ← py_mod (atan2 (of_Z (int32 (- int32 (row - viewpoint_row))))
                        (of_Z (int32 (col - viewpoint_col))) + two_pi)%float
                 two_pi;
  q ← checked_div (4 * angle) two_pi;
  k ← to_int q;
  let sector := int32 (k * 2) in
  let sector :=
    if 0 <? Z.abs (int32 (viewpoint_to_cell_row * viewpoint_to_cell_col))
    then int32 (sector + 1) else sector in
  let min_point_id := sector * SECTOR_SIZE in
  let max_point_id := min_point_id + POINT_SIZE in
  min_corner_offset_row ← table_at min_point_id;
  min_corner_offset_col ← table_at (min_point_id + 1);
  max_corner_offset_row ← table_at max_point_id;
  max_corner_offset_col ← table_at (max_point_id + 1);
  let min_corner_row := (of_Z viewpoint_to_cell_row + min_corner_offset_row)%float in
  let min_corner_col := (of_Z viewpoint_to_cell_col + min_corner_offset_col)%float in
  let max_corner_row := (of_Z viewpoint_to_cell_row + max_corner_offset_row)%float in
  let max_corner_col := (of_Z viewpoint_to_cell_col + max_corner_offset_col)%float in
  let min_angle := atan2 (- min_corner_row)%float min_corner_col in
  let max_angle := atan2 (- max_corner_row)%float max_corner_col in
  min_angle ← py_mod (min_angle + two_pi)%float two_pi;
  max_angle ← py_mod (max_angle + two_pi)%float two_pi;
  Ok (min_angle, angle, max_angle).

Fixpoint fill_arrays (viewpoint_row viewpoint_col : Z) (cells : list (Z * Z))
    : result (list float * list float * list float * list Z * list Z) :=
  match cells with
  | [] => Ok ([], [], [], [], [])
  | (row, col) :: rest =>
      '(min_angle, angle, max_angle) ←
        cell_angles viewpoint_row viewpoint_col row col;
      '(min_angles, angles, max_angles, Is, Js) ←
        fill_arrays viewpoint_row viewpoint_col rest;
      Ok (min_angle :: min_angles, angle :: angles, max_angle :: max_angles,
          row :: Is, col :: Js)
  end.

(** The first pass counts the kept cells in the C [int] [cell_count] and
    the arrays are allocated with that size: a negative size raises
    ValueError.  The second pass, with the same tests, fills them in
    order; the store [I[cell_id] = row] of a cell past the allocated size
    raises IndexError. *)
Definition list_extreme_cell_angles (array_shape viewpoint_coords : Z * Z)
    (max_dist : pynum)
    : result (list float * list float * list float * list Z * list Z) :=
  max_dist_sq ← max_dist_sq_of pow max_dist;
  viewpoint_row ← to_c_int viewpoint_coords.1;
  viewpoint_col ← to_c_int viewpoint_coords.2;
  array_rows ← to_c_int array_shape.1;
  array_cols ← to_c_int array_shape.2;
  let cells :=
    visited_cells array_rows array_cols max_dist_sq viewpoint_row viewpoint_col in
  let cell_count := int32 (Z.of_nat (length cells)) in
  if cell_count <? 0 then Raise ValueError
  else
    arrays ← fill_arrays viewpoint_row viewpoint_col
                (take (Z.to_nat cell_count) cells);
    if (Z.to_nat cell_count <? length cells)%nat then Raise IndexError
    else Ok arrays.

End classifier.

(** ** [compute_distances] *)

(** Line 787: the integer [(vi - I[i])**2 + (vj - J[i])**2].  The two
    differences are C [int]s; the exponent is a C [long], so the squares
    and their sum are C [long]s. *)
Definition squared_offset (vi vj Ii Ji : Z) : Z :=
  int64 (int64 (int32 (vi - Ii) ^ 2) + int64 (int32 (vj - Ji) ^ 2)).
Arguments squared_offset : simpl never.

(** Loop body for index [i]: [distance_sq[i] = ((vi - I[i])**2 +
    (vj - J[i])**2) * cell_size_sq; distance[i] = sqrt(distance_sq[i])]. *)
Definition compute_distances_body (vi vj : Z) (cell_size_sq : float)
    (I J : list Z) (st : list float * list float) (i : Z)
    : result (list float * list float) :=
  let '(distance_sq, distance) := st in
  Ii ← getitem I i;
  Ji ← getitem J i;
  let d := PrimFloat.mul (of_Z (squared_offset vi vj Ii Ji)) cell_size_sq in
  distance_sq ← setitem distance_sq i d;
  dsq ← getitem distance_sq i;
  distance ← setitem distance i (PrimFloat.sqrt dsq);
  Ok (distance_sq, distance).

Definition compute_distances (vi vj : Z) (cell_size : float)
    (I J : list Z) (distance_sq distance : list float)
    : result (list float * list float) :=
  let index_count := length I in
  let cell_size_sq := PrimFloat.mul cell_size cell_size in
  for_range (compute_distances_body vi vj cell_size_sq I J) 0 index_count
    (distance_sq, distance).

(** ** [polynomial] and [logarithmic] *)

(** Lines 813-821 and 844-852: the loop body, the same text in both
    functions but for the value that is added.  [near] gives the value
    added below 1000 and [far] the value added from 1000 up to the radius.
    [mask] and [accum] are two distinct arrays. *)
Definition valuation_body (near far : float → float) (max_valuation_radius : Z)
    (I J : list Z) (distance : list float) (mask : list (list float))
    (accum : list (list float)) (i : Z) : result (list (list float)) :=
  row ← getitem I i;
  col ← getitem J i;
  m ← getitem2 mask row col;
  if PrimFloat.ltb 0 m then
    x ← getitem distance i;
    if PrimFloat.ltb x 1000 then
      old ← getitem2 accum row col;
      setitem2 accum row col (old + near x)%float
    else if PrimFloat.leb x (of_Z max_valuation_radius) then
      old ← getitem2 accum row col;
      setitem2 accum row col (old + far x)%float
    else Ok accum
  else Ok accum.

Section valuation.
(** The C library's [pow] and [log]. *)
Variable pow : float → float → float.
Variable log : float → float.

(** The arguments [vi], [vj] and [cell_size] are not used. *)
Definition polynomial (a b c d : float) (max_valuation_radius vi vj : Z)
    (cell_size coeff : float) (I J : list Z) (distance : list float)
    (mask accum : list (list float)) : result (list (list float)) :=
  let C1 := ((a + b * 1000 + c * 1000000 + d * 1000000000) * coeff)%float in
  let C2 := ((b + 2 * c * 1000 + 3 * d * 1000000) * coeff)%float in
  let a := (a * coeff)%float in
  let b := (b * coeff)%float in
  let c := (c * coeff)%float in
  let d := (d * coeff)%float in
  let index_count := length I in
  for_range
    (valuation_body (λ x, C1 - C2 * (1000 - x))%float
       (λ x, a + b * x + c * pow x 2 + d * pow x 3)%float
       max_valuation_radius I J distance mask)
    0 index_count accum.


End valuation.

(** ** The active line *)

(** [cdef struct ActivePixel]. *)
Module ActivePixel.
Record t : Set := mk {
  is_active : bool;
  index : Z;
  distance : float;
  visibility : float;
  offset : float
}.
End ActivePixel.

(** The active line is a raw [ActivePixel*] block: reading or writing
    outside of it is undefined behaviour, not a Python exception. *)
Definition ptr_read (arr : list ActivePixel.t) (i : Z) : result ActivePixel.t :=
  if (0 <=? i) && (i <? Z.of_nat (length arr)) then
    match arr !! Z.to_nat i with
    | Some p => Ok p
    | None => Raise UndefinedBehaviour
    end
  else Raise UndefinedBehaviour.

Definition ptr_write (arr : list ActivePixel.t) (i : Z) (p : ActivePixel.t)
    : result (list ActivePixel.t) :=
  if (0 <=? i) && (i <? Z.of_nat (length arr)) then Ok (<[Z.to_nat i:=p]> arr)
  else Raise UndefinedBehaviour.

(** ** [update_visible_pixels_fast] *)

(** Local variables of [update_visible_pixels_fast], with the grid it
    mutates in place. *)
Module Scan.
Record locals : Type := mk {
  max_visibility : float;
  visibility : float;
  index : Z;
  active_pixel_count : Z;
  last_active_pixel : Z;
  visibility_map : list (list float)
}.
End Scan.

Definition scan_init (visibility_map : list (list float)) : Scan.locals :=
  Scan.mk (-1000000)%float 0%float (-1) 0 1 visibility_map.

(** Lines 884-897: the loop body for an active pixel [p] met at
    [pixel_id].  Both branches of the first [if] compute the same
    difference. *)
Definition visit_pixel (I J : list Z) (p : ActivePixel.t) (pixel_id : Z)
    (st : Scan.locals) : result Scan.locals :=
  let visibility :=
    if PrimFloat.ltb (Scan.max_visibility st) (ActivePixel.offset p)
    then PrimFloat.sub (ActivePixel.offset p) (Scan.max_visibility st)
    else PrimFloat.sub (ActivePixel.offset p) (Scan.max_visibility st) in
  let max_visibility :=
    if PrimFloat.ltb (Scan.max_visibility st) (ActivePixel.visibility p)
    then ActivePixel.visibility p
    else Scan.max_visibility st in
  let index := int32 (ActivePixel.index p) in
  row ← getitem I index;
  col ← getitem J index;
  old ← getitem2 (Scan.visibility_map st) row col;
  visibility_map ←
    (if PrimFloat.eqb old 0
     then setitem2 (Scan.visibility_map st) row col visibility
     else Ok (Scan.visibility_map st));
  Ok (Scan.mk max_visibility visibility index
        (Scan.active_pixel_count st + 1) pixel_id visibility_map).

(** How the [for pixel_id in range(pixel_count)] loop ends: normally (or by
    [break]) with its locals, or on a fault, with the grid as it was
    mutated so far. *)
Inductive scan_result : Type :=
| Scanned (st : Scan.locals)
| Faulted (e : fault) (visibility_map : list (list float)).

(** The loop, for the [n] pixel ids from [pixel_id] on. *)
Fixpoint scan_pixels (active_pixel_array : list ActivePixel.t) (I J : list Z)
    (n : nat) (pixel_id : Z) (st : Scan.locals) : scan_result :=
  match n with
  | O => Scanned st
  | S n' =>
      match ptr_read active_pixel_array pixel_id with
      | Raise e => Faulted e (Scan.visibility_map st)
      | Ok p =>
          if negb (ActivePixel.is_active p) then
            if 2 <? pixel_id - Scan.last_active_pixel st
            then Scanned st
            else scan_pixels active_pixel_array I J n' (pixel_id + 1) st
          else
            match visit_pixel I J p pixel_id st with
            | Raise e => Faulted e (Scan.visibility_map st)
            | Ok st' => scan_pixels active_pixel_array I J n' (pixel_id + 1) st'
            end
      end
  end.

(** Line 899: [visibility_map[I[index], J[index]] = a]. *)
Definition debug_write (I J : list Z) (index : Z)
    (visibility_map : list (list float)) (a : Z) : result (list (list float)) :=
  row ← getitem I index;
  col ← getitem J index;
  setitem2 visibility_map row col (of_Z a).

(** The function is a [cdef int] without an [except] clause: a Python
    exception raised inside it is reported and dropped, and the function
    returns 0 with the grid as mutated so far.  Undefined behaviour stays
    a fault.  The result is the returned count and the grid. *)
Definition update_visible_pixels_fast (active_pixel_array : list ActivePixel.t)
    (I J : list Z) (pixel_count : Z) (visibility_map : list (list float))
    (a : Z) : result (Z * list (list float)) :=
  match scan_pixels active_pixel_array I J (Z.to_nat pixel_count) 0
          (scan_init visibility_map) with
  | Faulted UndefinedBehaviour _ => Raise UndefinedBehaviour
  | Faulted _ m => Ok (0, m)
  | Scanned st =>
      match debug_write I J (Scan.index st) (Scan.visibility_map st) a with
      | Ok m => Ok (Scan.active_pixel_count st, m)
      | Raise UndefinedBehaviour => Raise UndefinedBehaviour
      | Raise _ => Ok (0, Scan.visibility_map st)
      end
  end.

(** ** [active_pixel_index] and [_active_pixel_index] *)

(** Lines 936-937.  The same expression is written inline three times in
    [sweep_through_angles]. *)
Definition active_pixel_index (Ol Os Pl Ps El Es Dl Ds Sl Ss slope : float)
    : result Z :=
  if truthy Ds || truthy Dl then
    r ← to_int (Ss * slope * (Dl - Sl * 0.5) + 0.5)%float;
    to_int (Sl * 2 * Dl + (Ss * Ds - of_Z r))%float
  else Ok 0.

(** The eleven arguments that [_active_pixel_index] passes on. *)
Module Terms.
Record t : Set := mk {
  Ol : float; Os : float;
  Pl : float; Ps : float;
  El : float; Es : float;
  Dl : float; Ds : float;
  Sl : float; Ss : float;
  slope : float
}.
End Terms.

(** Lines 904-925; the three points are pairs already converted by
    [float()]. *)
Definition index_terms (O P E : float * float) : Terms.t :=
  let at_ (X : float * float) (k : Z) := if k =? 0 then X.1 else X.2 in
  let '(l, s) :=
    if PrimFloat.ltb (PrimFloat.abs (at_ E 1 - at_ O 1))
                     (PrimFloat.abs (at_ E 0 - at_ O 0))
    then (0, 1) else (1, 0) in
  let Os := at_ O s in
  let Ol := at_ O l in
  let Es := at_ E s in
  let El := at_ E l in
  let Dl := (at_ P l - Ol)%float in
  let Ds := (at_ P s - Os)%float in
  let Sl := if PrimFloat.ltb El Ol then (-1)%float else 1%float in
  let Ss := if PrimFloat.ltb Es Os then (-1)%float else 1%float in
  let slope := if PrimFloat.eqb El Ol then 0%float
               else ((Es - Os) / (El - Ol))%float in
  Terms.mk Ol Os (at_ P l) (at_ P s) El Es Dl Ds Sl Ss slope.

(** Line 927. *)
Definition _active_pixel_index (O P E : float * float) : result Z :=
  let t := index_terms O P E in
  active_pixel_index (Terms.Ol t) (Terms.Os t) (Terms.Pl t) (Terms.Ps t)
    (Terms.El t) (Terms.Es t) (Terms.Dl t) (Terms.Ds t)
    (Terms.Sl t) (Terms.Ss t) (Terms.slope t).

(** ** [sweep_through_angles] *)

(** The description of the active line that the function recomputes before
    each batch of events: long and short axes, the origin [O] and the end
    point [E] along them, the directions and the slope. *)
Module Line.
Record t : Type := mk {
  l : Z;
  s : Z;
  coordL : list Z;
  coordS : list Z;
  Os : float;
  Ol : float;
  Es : float;
  El : float;
  Sl : float;
  Ss : float;
  slope : float
}.
End Line.

(** [sign[0] = -1; sign[1] = 1]. *)
Definition sign (axis : Z) : Z := if axis =? 0 then -1 else 1.

(** [ID+1 if (ID/2)*2 == ID else ID-1]: the paired slot. *)
Definition alternate (ID : Z) : Z :=
  if (ID / 2) * 2 =? ID then ID + 1 else ID - 1.

(** Mutable state of one call: the active line, the grid, the two argsort
    arrays that the function overwrites, the event cursors and the
    counters of the consistency check. *)
Module Sweep.
Record state : Type := mk {
  active_pixel_array : list ActivePixel.t;
  visibility_map : list (list float);
  arg_min : list Z;
  arg_max : list Z;
  add_event_id : Z;
  center_event_id : Z;
  remove_event_id : Z;
  active_pixel_count : Z;
  previous_pixel_count : Z;
  add_pixel_count : Z;
  remove_pixel_count : Z
}.
End Sweep.

(** What a call leaves behind: the grid it returns and the two argument
    arrays it has written to. *)
Module Out.
Record t : Type := mk {
  visibility_map : list (list float);
  arg_min : list Z;
  arg_max : list Z
}.
End Out.

Section sweep.
Variables (viewpoint : list Z) (perimeter : list (list Z)) (angles : list float).
Variables (add_events center_events remove_events : list float).
Variable arg_center : list Z.
Variable coord : list (list Z).
Variables (distances offset_visibility visibility : list float).

Definition angle_count : Z := int32 (Z.of_nat (length angles)).
Definition max_line_length : Z := angle_count / 2.
Definition add_event_count : Z := int32 (Z.of_nat (length add_events)).
Definition center_event_count : Z := int32 (Z.of_nat (length center_events)).
Definition remove_event_count : Z := int32 (Z.of_nat (length remove_events)).

(** [perimeter[axis][a]]. *)
Definition perimeter_at (axis a : Z) : result Z :=
  row ← getitem perimeter axis;
  getitem row a.

(** Lines 1076-1087 and 1119-1130: the line through perimeter point [a]
    with long axis [l] and short axis [s]. *)
Definition line_for (l s a : Z) : result Line.t :=
  coordL ← getitem coord l;
  coordS ← getitem coord s;
  vs ← getitem viewpoint s;
  vl ← getitem viewpoint l;
  ps ← perimeter_at s a;
  pl ← perimeter_at l a;
  let Os := of_Z (int64 (vs * sign s)) in
  let Ol := of_Z (int64 (vl * sign l)) in
  let Es := of_Z (int64 (ps * sign s)) in
  let El := of_Z (int64 (pl * sign l)) in
  let Sl := if PrimFloat.ltb El Ol then (-1)%float else 1%float in
  let Ss := if PrimFloat.ltb Es Os then (-1)%float else 1%float in
  slope ← checked_div (Es - Os) (El - Ol);
  Ok (Line.mk l s coordL coordS Os Ol Es El Sl Ss slope).

(** Lines 978-990 and 1010-1011: the first line, through perimeter point
    0, with the axes fixed to [s = 0] and [l = 1]. *)
Definition line_first : result Line.t :=
  let s := 0 in
  let l := 1 in
  vs ← getitem viewpoint s;
  vl ← getitem viewpoint l;
  ps ← perimeter_at s 0;
  pl ← perimeter_at l 0;
  let Os := of_Z (int64 (- vs)) in
  let Ol := of_Z vl in
  let Es := of_Z (int64 (- ps)) in
  let El := of_Z pl in
  let Sl := if PrimFloat.ltb El Ol then (-1)%float else 1%float in
  let Ss := if PrimFloat.ltb Es Os then (-1)%float else 1%float in
  slope ← checked_div (Es - Os) (El - Ol);
  coordL ← getitem coord l;
  coordS ← getitem coord s;
  Ok (Line.mk l s coordL coordS Os Ol Es El Sl Ss slope).

(** Lines 1069-1074 and 1112-1117: choice of the long axis for the
    perimeter point [a]. *)
Definition long_short (a : Z) : result (Z * Z) :=
  p0 ← perimeter_at 0 a;
  v0 ← getitem viewpoint 0;
  p1 ← perimeter_at 1 a;
  v1 ← getitem viewpoint 1;
  if Z.abs (int64 (p1 - v1)) <? Z.abs (int64 (p0 - v0))
  then Ok (0, 1) else Ok (1, 0).

Definition line_at (a : Z) : result Line.t :=
  '(l, s) ← long_short a;
  line_for l s a.

(** The slot of cell [i] on the line [ln]: [Pl], [Ps], [Dl], [Ds] and the
    inlined index expression. *)
Definition slot_of (ln : Line.t) (i : Z) : result Z :=
  cl ← getitem (Line.coordL ln) i;
  cs ← getitem (Line.coordS ln) i;
  let Pl := int32 (cl * sign (Line.l ln)) in
  let Ps := int32 (cs * sign (Line.s ln)) in
  let Dl := (of_Z Pl - Line.Ol ln)%float in
  let Ds := (of_Z Ps - Line.Os ln)%float in
  active_pixel_index (Line.Ol ln) (Line.Os ln) (of_Z Pl) (of_Z Ps)
    (Line.El ln) (Line.Es ln) Dl Ds (Line.Sl ln) (Line.Ss ln) (Line.slope ln).

(** *** Priming: lines 1022-1041 *)

Definition center_body (ln : Line.t) (st : Sweep.state) : result Sweep.state :=
  k ← getitem arg_center (Sweep.center_event_id st);
  let i := int32 k in
  d ← getitem distances i;
  v ← getitem visibility i;
  o ← getitem offset_visibility i;
  ID ← slot_of ln i;
  arr ← ptr_write (Sweep.active_pixel_array st) ID (ActivePixel.mk true i d v o);
  Ok (Sweep.mk arr (Sweep.visibility_map st) (Sweep.arg_min st) (Sweep.arg_max st)
        (Sweep.add_event_id st) (Sweep.center_event_id st + 1)
        (Sweep.remove_event_id st)
        (Sweep.active_pixel_count st) (Sweep.previous_pixel_count st)
        (Sweep.add_pixel_count st + 1) (Sweep.remove_pixel_count st)).

(** The [while] loops run while events remain and the next one is due;
    [remaining] is the number of events left, [count - id]. *)
Fixpoint center_loop (ln : Line.t) (remaining : nat) (st : Sweep.state)
    : result Sweep.state :=
  match remaining with
  | O => Ok st
  | S remaining' =>
      k ← getitem arg_center (Sweep.center_event_id st);
      e ← getitem center_events k;
      a1 ← getitem angles 1;
      if PrimFloat.ltb e a1
      then st' ← center_body ln st; center_loop ln remaining' st'
      else Ok st
  end.

(** *** Removal: lines 1090-1110 *)

Definition remove_body (ln : Line.t) (st : Sweep.state) : result Sweep.state :=
  k ← getitem (Sweep.arg_max st) (Sweep.remove_event_id st);
  let i := int32 k in
  d ← getitem distances i;
  ID ← slot_of ln i;
  p ← ptr_read (Sweep.active_pixel_array st) ID;
  ID ← (if negb (ActivePixel.is_active p)
        then Ok (alternate ID)
        else
          di ← getitem distances i;
          if negb (PrimFloat.eqb (ActivePixel.distance p) di)
          then Ok (alternate ID) else Ok ID);
  q ← ptr_read (Sweep.active_pixel_array st) ID;
  arr ← ptr_write (Sweep.active_pixel_array st) ID
          (ActivePixel.mk false (ActivePixel.index q) (ActivePixel.distance q)
             (ActivePixel.visibility q) (ActivePixel.offset q));
  arg_max ← setitem (Sweep.arg_max st) (Sweep.remove_event_id st) 0;
  Ok (Sweep.mk arr (Sweep.visibility_map st) (Sweep.arg_min st) arg_max
        (Sweep.add_event_id st) (Sweep.center_event_id st)
        (Sweep.remove_event_id st + 1)
        (Sweep.active_pixel_count st) (Sweep.previous_pixel_count st)
        (Sweep.add_pixel_count st) (Sweep.remove_pixel_count st + 1)).

Fixpoint remove_loop (ln : Line.t) (a : Z) (remaining : nat) (st : Sweep.state)
    : result Sweep.state :=
  match remaining with
  | O => Ok st
  | S remaining' =>
      k ← getitem (Sweep.arg_max st) (Sweep.remove_event_id st);
      e ← getitem remove_events k;
      a1 ← getitem angles (a + 1);
      if PrimFloat.leb e a1
      then st' ← remove_body ln st; remove_loop ln a remaining' st'
      else Ok st
  end.

(** *** Addition: lines 1133-1161 *)

Definition add_body (ln : Line.t) (st : Sweep.state) : result Sweep.state :=
  k ← getitem (Sweep.arg_min st) (Sweep.add_event_id st);
  let i := int32 k in
  d ← getitem distances i;
  v ← getitem visibility i;
  o ← getitem offset_visibility i;
  ID ← slot_of ln i;
  p ← ptr_read (Sweep.active_pixel_array st) ID;
  arr ← (if ActivePixel.is_active p
         then ptr_write (Sweep.active_pixel_array st) (alternate ID) p
         else Ok (Sweep.active_pixel_array st));
  assert ((0 <=? ID) && (ID <? max_line_length));;
  arr ← ptr_write arr ID (ActivePixel.mk true i d v o);
  arg_min ← setitem (Sweep.arg_min st) (Sweep.add_event_id st) 0;
  Ok (Sweep.mk arr (Sweep.visibility_map st) arg_min (Sweep.arg_max st)
        (Sweep.add_event_id st + 1) (Sweep.center_event_id st)
        (Sweep.remove_event_id st)
        (Sweep.active_pixel_count st) (Sweep.previous_pixel_count st)
        (Sweep.add_pixel_count st + 1) (Sweep.remove_pixel_count st)).

Fixpoint add_loop (ln : Line.t) (a : Z) (remaining : nat) (st : Sweep.state)
    : result Sweep.state :=
  match remaining with
  | O => Ok st
  | S remaining' =>
      k ← getitem (Sweep.arg_min st) (Sweep.add_event_id st);
      e ← getitem add_events k;
      a1 ← getitem angles (a + 1);
      if PrimFloat.ltb e a1
      then st' ← add_body ln st; add_loop ln a remaining' st'
      else Ok st
  end.

(** *** Evaluation and consistency check *)

Definition set_counts (st : Sweep.state) (active previous added removed : Z)
    : Sweep.state :=
  Sweep.mk (Sweep.active_pixel_array st) (Sweep.visibility_map st)
    (Sweep.arg_min st) (Sweep.arg_max st)
    (Sweep.add_event_id st) (Sweep.center_event_id st) (Sweep.remove_event_id st)
    active previous added removed.

(** Lines 1043-1045 and 1163-1165: the call of the evaluator with step
    number [a]. *)
Definition evaluate (a : Z) (st : Sweep.state) : result Sweep.state :=
  I ← getitem coord 0;
  J ← getitem coord 1;
  '(n, m) ← update_visible_pixels_fast (Sweep.active_pixel_array st) I J
              max_line_length (Sweep.visibility_map st) a;
  Ok (Sweep.mk (Sweep.active_pixel_array st) m
        (Sweep.arg_min st) (Sweep.arg_max st)
        (Sweep.add_event_id st) (Sweep.center_event_id st)
        (Sweep.remove_event_id st)
        n (Sweep.previous_pixel_count st)
        (Sweep.add_pixel_count st) (Sweep.remove_pixel_count st)).

(** Lines 1059-1062 and 1182-1185: the [assert], then
    [previous_pixel_count = active_pixel_count]. *)
Definition check_count (st : Sweep.state) : result Sweep.state :=
  assert (Sweep.active_pixel_count st =?
          Sweep.previous_pixel_count st + Sweep.add_pixel_count st
          - Sweep.remove_pixel_count st);;
  Ok (set_counts st (Sweep.active_pixel_count st) (Sweep.active_pixel_count st)
        (Sweep.add_pixel_count st) (Sweep.remove_pixel_count st)).

(** The block returned by [malloc], after the loop that deactivates every
    pixel.  The other fields are not initialised by the source; they are
    only read from a pixel whose [is_active] is set. *)
Definition inactive_pixel : ActivePixel.t :=
  ActivePixel.mk false 0 0%float 0%float 0%float.

Definition initial_state (arg_min arg_max : list Z)
    (visibility_map : list (list float)) : Sweep.state :=
  Sweep.mk (replicate (Z.to_nat max_line_length) inactive_pixel)
    visibility_map arg_min arg_max 0 0 0 0 0 0 0.

(** Lines 957-1045: set-up, the center events before [angles[1]] and the
    first evaluation, up to the first [assert]. *)
Definition prime_unchecked (arg_min arg_max : list Z)
    (visibility_map : list (list float)) : result Sweep.state :=
  ln ← line_first;
  let st := initial_state arg_min arg_max visibility_map in
  st ← center_loop ln
         (Z.to_nat (center_event_count - Sweep.center_event_id st)) st;
  evaluate 1 st.

(** Lines 1067-1165: one turn of the [for a in range(angle_count-2)] loop,
    up to its [assert]. *)
Definition sweep_step_unchecked (st : Sweep.state) (a : Z) : result Sweep.state :=
  ln ← line_at a;
  let st := set_counts st (Sweep.active_pixel_count st)
              (Sweep.previous_pixel_count st) (Sweep.add_pixel_count st) 0 in
  st ← remove_loop ln a
         (Z.to_nat (remove_event_count - Sweep.remove_event_id st)) st;
  ln ← line_at (a + 1);
  let st := set_counts st (Sweep.active_pixel_count st)
              (Sweep.previous_pixel_count st) 0 (Sweep.remove_pixel_count st) in
  st ← add_loop ln a
         (Z.to_nat (add_event_count - Sweep.add_event_id st)) st;
  evaluate (a + 1) st.

Definition sweep_step (st : Sweep.state) (a : Z) : result Sweep.state :=
  st ← sweep_step_unchecked st a;
  check_count st.

Definition sweep_prime (arg_min arg_max : list Z)
    (visibility_map : list (list float)) : result Sweep.state :=
  st ← prime_unchecked arg_min arg_max visibility_map;
  check_count st.

(** The whole loop over the steps [first, first+1, ...]. *)
Definition sweep_loop (first : Z) (steps : nat) (st : Sweep.state)
    : result Sweep.state :=
  for_range sweep_step first steps st.

Definition sweep_through_angles (arg_min arg_max : list Z)
    (visibility_map : list (list float)) : result Out.t :=
  st ← sweep_prime arg_min arg_max visibility_map;
  st ← sweep_loop 0 (Z.to_nat (angle_count - 2)) st;
  Ok (Out.mk (Sweep.visibility_map st) (Sweep.arg_min st) (Sweep.arg_max st)).

End sweep.

(** * Part II: the data of the scenarios *)

(** ** The flat 5×5 scenario *)

(** The caller that prepares the arguments of [sweep_through_angles] is
    not among the sources: the arrays below are the arguments of one
    call, for a 5×5 grid seen from (2,2) without radius. *)
Section flat5_inputs.

Definition flat5_viewpoint : list Z := [2; 2].

(** Modelled from the spec: the perimeter, absent from the sources.  It
    is the boundary of the grid, one point per angle step, walked from the
    east of the viewpoint towards increasing angles; first the rows, then
    the columns. *)
Definition flat5_perimeter : list (list Z) :=
  [[2; 1; 0; 0; 0; 0; 0; 1; 2; 3; 4; 4; 4; 4; 4; 3];
   [4; 4; 4; 3; 2; 1; 0; 0; 0; 0; 0; 1; 2; 3; 4; 4]].

(** Modelled from the spec: the three index arrays of the Event Builder,
    absent from the sources.  Each sorts the cells by one of the angle
    arrays, ties by index. *)
Definition flat5_arg_min : list Z :=
  [9; 8; 4; 3; 7; 2; 1; 6; 0; 5; 11; 10; 14; 15; 19; 16; 20; 21; 22; 17;
   23; 12; 18; 13].

Definition flat5_arg_center : list Z :=
  [12; 13; 9; 4; 8; 3; 2; 7; 1; 0; 6; 5; 10; 11; 14; 15; 19; 20; 16; 21;
   22; 17; 23; 18].

Definition flat5_arg_max : list Z :=
  [13; 9; 12; 4; 8; 3; 2; 1; 7; 0; 6; 5; 10; 11; 14; 19; 15; 20; 21; 16;
   22; 23; 17; 18].

(** Rows and columns of the 24 cells, as [list_extreme_cell_angles]
    returns them. *)
Definition flat5_coord : list (list Z) :=
  [[0; 0; 0; 0; 0; 1; 1; 1; 1; 1; 2; 2; 2; 2; 3; 3; 3; 3; 3; 4; 4; 4; 4; 4];
   [0; 1; 2; 3; 4; 0; 1; 2; 3; 4; 0; 1; 3; 4; 0; 1; 2; 3; 4; 0; 1; 2; 3; 4]].

Local Open Scope float_scope.

(** Modelled from the spec: the discretised sweep angles, absent from the
    sources.  They are the center angles of the perimeter cells, closed
    by 2π. *)
Definition flat5_angles : list float :=
  [0; 0x1.dac670561bb50p-2; 0x1.921fb54442d18p-1; 0x1.1b6e192ebbe44p+0;
   0x1.921fb54442d18p+0; 0x1.0468a8ace4df8p+1; 0x1.2d97c7f3321d0p+1;
   0x1.56c6e7397f5b0p+1; 0x1.921fb54442d18p+1; 0x1.cd78834f06482p+1;
   0x1.f6a7a2955385ep+1; 0x1.0feb60edd061dp+2; 0x1.2d97c7f3321d2p+2;
   0x1.4b442ef893d87p+2; 0x1.5fdbbe9bba775p+2; 0x1.74734e3ee1163p+2;
   0x1.921fb54442d18p+2].

(** Minimum, center and maximum angles of the 24 cells, as
    [list_extreme_cell_angles] returns them on the C library's [atan2]. *)
Definition flat5_add_events : list float :=
  [0x1.0e3c51fa059c4p+1; 0x1.c4a83936311d8p+0; 0x1.3fc176b7a8560p+0;
   0x1.921fb54442d18p-1; 0x1.14b1dd5f90ce0p-1; 0x1.2d97c7f3321d0p+1;
   0x1.e47df3d0dd4d0p+0; 0x1.921fb54442d18p-1; 0x1.4978fa3269ee0p-2;
   0x1.94441f8f72600p-3; 0x1.68f095fdf593cp+1; 0x1.2d97c7f3321d0p+1;
   0x1.5fdbbe9bba775p+2; 0x1.7d8825a11c32ap+2; 0x1.ab63f73d39f78p+1;
   0x1.bb4ed48a900f4p+1; 0x1.f6a7a2955385ep+1; 0x1.422f579658bc0p+2;
   0x1.5fdbbe9bba775p+2; 0x1.d74c2c9c27050p+1; 0x1.f6a7a2955385ep+1;
   0x1.190038500b7e4p+2; 0x1.3a39e8efadb02p+2; 0x1.502e039f2436ep+2].

Definition flat5_center_events : list float :=
  [0x1.2d97c7f3321d0p+1; 0x1.0468a8ace4df8p+1; 0x1.921fb54442d18p+0;
   0x1.1b6e192ebbe44p+0; 0x1.921fb54442d18p-1; 0x1.56c6e7397f5b0p+1;
   0x1.2d97c7f3321d0p+1; 0x1.921fb54442d18p+0; 0x1.921fb54442d18p-1;
   0x1.dac670561bb50p-2; 0x1.921fb54442d18p+1; 0x1.921fb54442d18p+1; 0; 0;
   0x1.cd78834f06482p+1; 0x1.f6a7a2955385ep+1; 0x1.2d97c7f3321d2p+2;
   0x1.5fdbbe9bba775p+2; 0x1.74734e3ee1163p+2; 0x1.f6a7a2955385ep+1;
   0x1.0feb60edd061dp+2; 0x1.2d97c7f3321d2p+2; 0x1.4b442ef893d87p+2;
   0x1.5fdbbe9bba775p+2].

Definition flat5_remove_events : list float :=
  [0x1.4cf33dec5e9e0p+1; 0x1.2d97c7f3321d0p+1; 0x1.e47df3d0dd4d0p+0;
   0x1.5f97315254858p+0; 0x1.07c6c6947a6a8p+0; 0x1.78db734b4bab8p+1;
   0x1.68f095fdf593cp+1; 0x1.2d97c7f3321d0p+1; 0x1.3fc176b7a8560p+0;
   0x1.921fb54442d18p-1; 0x1.bb4ed48a900f4p+1; 0x1.f6a7a2955385ep+1;
   0x1.921fb54442d18p-1; 0x1.4978fa3269ee0p-2; 0x1.f6a7a2955385ep+1;
   0x1.190038500b7e4p+2; 0x1.5fdbbe9bba775p+2; 0x1.7d8825a11c32ap+2;
   0x1.857d9447c73e8p+2; 0x1.0b018c4740036p+2; 0x1.20f5a6f6b68a2p+2;
   0x1.422f579658bc0p+2; 0x1.5fdbbe9bba775p+2; 0x1.6f89799850b7cp+2].

(** Distances of the 24 cells, as [compute_distances] returns them for
    [cell_size = 1]. *)
Definition flat5_distances : list float :=
  [0x1.6a09e667f3bcdp+1; 0x1.1e3779b97f4a8p+1; 0x1.0000000000000p+1;
   0x1.1e3779b97f4a8p+1; 0x1.6a09e667f3bcdp+1; 0x1.1e3779b97f4a8p+1;
   0x1.6a09e667f3bcdp+0; 0x1.0000000000000p+0; 0x1.6a09e667f3bcdp+0;
   0x1.1e3779b97f4a8p+1; 0x1.0000000000000p+1; 0x1.0000000000000p+0;
   0x1.0000000000000p+0; 0x1.0000000000000p+1; 0x1.1e3779b97f4a8p+1;
   0x1.6a09e667f3bcdp+0; 0x1.0000000000000p+0; 0x1.6a09e667f3bcdp+0;
   0x1.1e3779b97f4a8p+1; 0x1.6a09e667f3bcdp+1; 0x1.1e3779b97f4a8p+1;
   0x1.0000000000000p+1; 0x1.1e3779b97f4a8p+1; 0x1.6a09e667f3bcdp+1].

(** The flat field: offset and visibility 0 for every cell. *)
Definition flat5_zeros : list float := replicate 24 0.

(** The grid that receives the result, all unseen. *)
Definition flat5_grid : list (list float) := replicate 5 (replicate 5 0).

End flat5_inputs.

Definition flat5_sweep (arg_min arg_max : list Z)
    (visibility_map : list (list float)) : result Out.t :=
  sweep_through_angles flat5_viewpoint flat5_perimeter flat5_angles
    flat5_add_events flat5_center_events flat5_remove_events flat5_arg_center
    flat5_coord flat5_distances flat5_zeros flat5_zeros
    arg_min arg_max visibility_map.

(** The grid after the sweep of the flat scenario. *)
Definition flat5_result : list (list float) :=
  map (map of_Z)
    [[6; 5; 4; 3; 2];
     [7; 1000000; 1000000; 1000000; 1];
     [8; 1000000; 0; 1000000; 1];
     [9; 1000000; 1000000; 1000000; 15];
     [10; 11; 12; 13; 14]].

(** The unseen grid but for the cell (2,4), which holds 9. *)
Definition flat5_marked_grid : list (list float) :=
  <[2%nat := [0%float; 0%float; 0%float; 0%float; 9%float]]> flat5_grid.

(** ** Values of the C library's [atan2] and the 8×8 corner scenario *)

Section atan2_samples.
Local Open Scope float_scope.

(** Values [(y, x, atan2(y, x))] of the C library for the arguments that
    occur in the two scenarios. *)
Definition atan2_samples : list (float * float * float) :=
  [((-0x1.8000000000000p+1), 0, (-0x1.921fb54442d18p+0));
   ((-0x1.4000000000000p+1), (-0x1.8000000000000p+0), (-0x1.0e3c51fa059c4p+1));
   ((-0x1.4000000000000p+1), (-0x1.0000000000000p-1), (-0x1.c4a83936311dap+0));
   ((-0x1.4000000000000p+1), 0x1.0000000000000p-1, (-0x1.5f97315254857p+0));
   ((-0x1.4000000000000p+1), 0x1.8000000000000p+0, (-0x1.07c6c6947a6a8p+0));
   ((-0x1.0000000000000p+1), (-0x1.0000000000000p+1), (-0x1.2d97c7f3321d2p+1));
   ((-0x1.0000000000000p+1), (-0x1.0000000000000p+0), (-0x1.0468a8ace4df6p+1));
   ((-0x1.0000000000000p+1), 0, (-0x1.921fb54442d18p+0));
   ((-0x1.0000000000000p+1), 0x1.0000000000000p+0, (-0x1.1b6e192ebbe44p+0));
   ((-0x1.0000000000000p+1), 0x1.0000000000000p+1, (-0x1.921fb54442d18p-1));
   ((-0x1.8000000000000p+0), (-0x1.4000000000000p+1), (-0x1.4cf33dec5e9e0p+1));
   ((-0x1.8000000000000p+0), (-0x1.8000000000000p+0), (-0x1.2d97c7f3321d2p+1));
   ((-0x1.8000000000000p+0), (-0x1.0000000000000p-1), (-0x1.e47df3d0dd4d1p+0));
   ((-0x1.8000000000000p+0), 0x1.0000000000000p-1, (-0x1.3fc176b7a8560p+0));
   ((-0x1.8000000000000p+0), 0x1.8000000000000p+0, (-0x1.921fb54442d18p-1));
   ((-0x1.8000000000000p+0), 0x1.4000000000000p+1, (-0x1.14b1dd5f90ce1p-1));
   ((-0x1.0000000000000p+0), (-0x1.0000000000000p+1), (-0x1.56c6e7397f5aep+1));
   ((-0x1.0000000000000p+0), (-0x1.0000000000000p+0), (-0x1.2d97c7f3321d2p+1));
   ((-0x1.0000000000000p+0), 0, (-0x1.921fb54442d18p+0));
   ((-0x1.0000000000000p+0), 0x1.0000000000000p+0, (-0x1.921fb54442d18p-1));
   ((-0x1.0000000000000p+0), 0x1.0000000000000p+1, (-0x1.dac670561bb4fp-2));
   ((-0x1.0000000000000p-1), (-0x1.4000000000000p+1), (-0x1.78db734b4bab8p+1));
   ((-0x1.0000000000000p-1), (-0x1.8000000000000p+0), (-0x1.68f095fdf593cp+1));
   ((-0x1.0000000000000p-1), (-0x1.0000000000000p-1), (-0x1.2d97c7f3321d2p+1));
   ((-0x1.0000000000000p-1), 0x1.0000000000000p-1, (-0x1.921fb54442d18p-1));
   ((-0x1.0000000000000p-1), 0x1.8000000000000p+0, (-0x1.4978fa3269ee1p-2));
   ((-0x1.0000000000000p-1), 0x1.4000000000000p+1, (-0x1.94441f8f7260bp-3));
   (0, (-0x1.0000000000000p+1), 0x1.921fb54442d18p+1);
   (0, (-0x1.0000000000000p+0), 0x1.921fb54442d18p+1);
   (0, 0x1.0000000000000p+0, 0);
   (0, 0x1.0000000000000p+1, 0);
   (0, 0x1.8000000000000p+1, 0);
   (0x1.0000000000000p-1, (-0x1.4000000000000p+1), 0x1.78db734b4bab8p+1);
   (0x1.0000000000000p-1, (-0x1.8000000000000p+0), 0x1.68f095fdf593cp+1);
   (0x1.0000000000000p-1, (-0x1.0000000000000p-1), 0x1.2d97c7f3321d2p+1);
   (0x1.0000000000000p-1, 0x1.0000000000000p-1, 0x1.921fb54442d18p-1);
   (0x1.0000000000000p-1, 0x1.8000000000000p+0, 0x1.4978fa3269ee1p-2);
   (0x1.0000000000000p-1, 0x1.4000000000000p+1, 0x1.94441f8f7260bp-3);
   (0x1.0000000000000p+0, (-0x1.0000000000000p+1), 0x1.56c6e7397f5aep+1);
   (0x1.0000000000000p+0, (-0x1.0000000000000p+0), 0x1.2d97c7f3321d2p+1);
   (0x1.0000000000000p+0, 0, 0x1.921fb54442d18p+0);
   (0x1.0000000000000p+0, 0x1.0000000000000p+0, 0x1.921fb54442d18p-1);
   (0x1.0000000000000p+0, 0x1.0000000000000p+1, 0x1.dac670561bb4fp-2);
   (0x1.8000000000000p+0, (-0x1.4000000000000p+1), 0x1.4cf33dec5e9e0p+1);
   (0x1.8000000000000p+0, (-0x1.8000000000000p+0), 0x1.2d97c7f3321d2p+1);
   (0x1.8000000000000p+0, (-0x1.0000000000000p-1), 0x1.e47df3d0dd4d1p+0);
   (0x1.8000000000000p+0, 0x1.0000000000000p-1, 0x1.3fc176b7a8560p+0);
   (0x1.8000000000000p+0, 0x1.8000000000000p+0, 0x1.921fb54442d18p-1);
   (0x1.8000000000000p+0, 0x1.4000000000000p+1, 0x1.14b1dd5f90ce1p-1);
   (0x1.0000000000000p+1, (-0x1.0000000000000p+1), 0x1.2d97c7f3321d2p+1);
   (0x1.0000000000000p+1, (-0x1.0000000000000p+0), 0x1.0468a8ace4df6p+1);
   (0x1.0000000000000p+1, 0, 0x1.921fb54442d18p+0);
   (0x1.0000000000000p+1, 0x1.0000000000000p+0, 0x1.1b6e192ebbe44p+0);
   (0x1.0000000000000p+1, 0x1.0000000000000p+1, 0x1.921fb54442d18p-1);
   (0x1.4000000000000p+1, (-0x1.8000000000000p+0), 0x1.0e3c51fa059c4p+1);
   (0x1.4000000000000p+1, (-0x1.0000000000000p-1), 0x1.c4a83936311dap+0);
   (0x1.4000000000000p+1, 0x1.0000000000000p-1, 0x1.5f97315254857p+0);
   (0x1.4000000000000p+1, 0x1.8000000000000p+0, 0x1.07c6c6947a6a8p+0)].

(** The angle arrays that the classifier returns on these values for an
    8×8 grid seen from its corner (0,0) with radius 3. *)
Definition corner8_min_angles : list float :=
  [0x1.5fdbbe9bba775p+2; 0x1.7d8825a11c32ap+2; 0x1.857d9447c73e8p+2;
   0x1.f6a7a2955385ep+1; 0x1.422f579658bc0p+2; 0x1.5fdbbe9bba775p+2;
   0x1.190038500b7e4p+2; 0x1.3a39e8efadb02p+2; 0x1.502e039f2436ep+2;
   0x1.20f5a6f6b68a2p+2].

Definition corner8_center_angles : list float :=
  [0; 0; 0; 0x1.2d97c7f3321d2p+2; 0x1.5fdbbe9bba775p+2;
   0x1.74734e3ee1163p+2; 0x1.2d97c7f3321d2p+2; 0x1.4b442ef893d87p+2;
   0x1.5fdbbe9bba775p+2; 0x1.2d97c7f3321d2p+2].

Definition corner8_max_angles : list float :=
  [0x1.921fb54442d18p-1; 0x1.4978fa3269ee0p-2; 0x1.94441f8f72600p-3;
   0x1.5fdbbe9bba775p+2; 0x1.7d8825a11c32ap+2; 0x1.857d9447c73e8p+2;
   0x1.422f579658bc0p+2; 0x1.5fdbbe9bba775p+2; 0x1.6f89799850b7cp+2;
   0x1.3a39e8efadb02p+2].

End atan2_samples.

(** [atan2] on the sampled arguments; a NaN elsewhere. *)
Definition sampled_atan2 (y x : float) : float :=
  match find (λ '(y', x', _), PrimFloat.eqb y y' && PrimFloat.eqb x x')
             atan2_samples with
  | Some (_, _, v) => v
  | None => nan
  end.

(** The cells of the 8×8 grid within 3 of the corner (0,0). *)
Definition corner8_cells : list (Z * Z) :=
  [(0, 1); (0, 2); (0, 3); (1, 0); (1, 1); (1, 2); (2, 0); (2, 1); (2, 2);
   (3, 0)].

(** ** Small inputs for the indexer and the evaluator *)

Section index_examples.
Local Open Scope float_scope.

(** A cell two columns behind the viewpoint, for a ray towards (1,4). *)
Definition behind_O : float * float := (0, 0).
Definition behind_P : float * float := (0, -2).
Definition behind_E : float * float := (1, 4).

End index_examples.

(** A line with one active pixel in slot 2, for the cell (0,1). *)
Definition demo_pixel : ActivePixel.t :=
  ActivePixel.mk true 0 1%float 5%float 3%float.

Definition demo_line : list ActivePixel.t :=
  [inactive_pixel; inactive_pixel; demo_pixel].

Definition demo_grid : list (list float) := [[0%float; 0%float]].

(** A line that runs east from the viewpoint (0,0), with one listed cell,
    (0,1), whose slot is 2. *)
Definition east_line : Line.t :=
  Line.mk 1 0 [1] [0] 0%float 0%float 0%float 2%float 1%float 1%float 0%float.

(** The pixel of that cell. *)
Definition east_pixel : ActivePixel.t :=
  ActivePixel.mk true 0 1%float 0%float 0%float.

(** A state of the sweep with the active line [arr] and counters at 0. *)
Definition east_state (arr : list ActivePixel.t) : Sweep.state :=
  Sweep.mk arr [[0%float; 0%float; 0%float]] [0] [0] 0 0 0 0 0 0 0.

(** Two passes over the row of cells (0,0), (0,1), (0,2), listed in this
    order.  In the first pass the three pixels are on the line; in the
    second the pixel of (0,0) has left it. *)
Definition row3_I : list Z := [0; 0; 0].
Definition row3_J : list Z := [0; 1; 2].
Definition row3_grid : list (list float) := [[0%float; 0%float; 0%float]].
Definition pixel_A : ActivePixel.t := ActivePixel.mk true 0 1%float 5%float 7%float.
Definition pixel_B : ActivePixel.t := ActivePixel.mk true 1 2%float 1%float 5%float.
Definition pixel_C : ActivePixel.t := ActivePixel.mk true 2 3%float 0%float 9%float.
Definition first_line : list ActivePixel.t :=
  [inactive_pixel; inactive_pixel; pixel_A; pixel_B; pixel_C; inactive_pixel].
Definition second_line : list ActivePixel.t :=
  [inactive_pixel; inactive_pixel; inactive_pixel; pixel_B; pixel_C;
   inactive_pixel].

(** The row coordinates of the flat 5×5 scenario, the first row of
    [flat5_coord]. *)
Definition flat5_rows : list Z :=
  [0; 0; 0; 0; 0; 1; 1; 1; 1; 1; 2; 2; 2; 2; 3; 3; 3; 3; 3; 4; 4; 4; 4; 4].

(** Its column coordinates, the second row of [flat5_coord]. *)
Definition flat5_cols : list Z :=
  [0; 1; 2; 3; 4; 0; 1; 2; 3; 4; 0; 1; 3; 4; 0; 1; 2; 3; 4; 0; 1; 2; 3; 4].

(** * Part III: the vocabulary of the properties *)




(** The equation that both [assert]s test on the counters. *)
Definition count_consistent (st : Sweep.state) : Prop :=
  Sweep.active_pixel_count st
  = Sweep.previous_pixel_count st + Sweep.add_pixel_count st
    - Sweep.remove_pixel_count st.

(** What a batch of events leaves untouched, and how it moves the event
    cursors together with the counters. *)
Record event_frame (added removed centered : Z) (st st' : Sweep.state) : Prop := {
  frame_add_id : Sweep.add_event_id st' = Sweep.add_event_id st + added;
  frame_remove_id : Sweep.remove_event_id st' = Sweep.remove_event_id st + removed;
  frame_center_id : Sweep.center_event_id st' = Sweep.center_event_id st + centered;
  frame_add_count :
    Sweep.add_pixel_count st' = Sweep.add_pixel_count st + added + centered;
  frame_remove_count :
    Sweep.remove_pixel_count st' = Sweep.remove_pixel_count st + removed;
  frame_previous :
    Sweep.previous_pixel_count st' = Sweep.previous_pixel_count st;
  frame_nonneg : 0 ≤ added ∧ 0 ≤ removed ∧ 0 ≤ centered
}.

(** State of a call after the priming step and [k] turns of the loop. *)
Definition sweep_prefix (viewpoint : list Z) (perimeter : list (list Z))
    (angles add_events center_events remove_events : list float)
    (arg_center : list Z) (coord : list (list Z))
    (distances offset_visibility visibility : list float)
    (arg_min arg_max : list Z) (visibility_map : list (list float)) (k : nat)
    : result Sweep.state :=
  st ← sweep_prime viewpoint perimeter angles center_events arg_center coord
         distances offset_visibility visibility arg_min arg_max visibility_map;
  sweep_loop viewpoint perimeter angles add_events remove_events coord
    distances offset_visibility visibility 0 k st.

(** The consumed entries of [arg_min] and [arg_max], those before the two
    cursors, have been overwritten with 0; the others are the caller's. *)
Definition args_zeroed (arg_min0 arg_max0 : list Z) (st : Sweep.state) : Prop :=
  0 ≤ Sweep.add_event_id st
  ∧ 0 ≤ Sweep.remove_event_id st
  ∧ (Z.to_nat (Sweep.add_event_id st) ≤ length arg_min0)%nat
  ∧ (Z.to_nat (Sweep.remove_event_id st) ≤ length arg_max0)%nat
  ∧ Sweep.arg_min st
    = replicate (Z.to_nat (Sweep.add_event_id st)) 0
      ++ drop (Z.to_nat (Sweep.add_event_id st)) arg_min0
  ∧ Sweep.arg_max st
    = replicate (Z.to_nat (Sweep.remove_event_id st)) 0
      ++ drop (Z.to_nat (Sweep.remove_event_id st)) arg_max0.

(** The block of the active line has the size it was allocated with. *)
Definition has_capacity (angles : list float) (st : Sweep.state) : Prop :=
  length (Sweep.active_pixel_array st) = Z.to_nat (max_line_length angles).

(** [r] is the value of [f] with its fractional part dropped. *)
Definition truncates_to (f : float) (r : Z) : Prop :=
  match Prim2SF f with
  | S754_zero _ => r = 0
  | S754_finite s m e =>
      if 0 <=? e then r = SF_num s m * 2 ^ e
      else Z.abs r * 2 ^ (- e) ≤ Z.pos m < (Z.abs r + 1) * 2 ^ (- e)
           ∧ (if s then r ≤ 0 else 0 ≤ r)
  | S754_infinity _ | S754_nan => False
  end.

(** [n] is an integer nearest to the value of [f]: at most one half away. *)
Definition nearest_integer (f : float) (n : Z) : Prop :=
  match Prim2SF f with
  | S754_zero _ => n = 0
  | S754_finite s m e =>
      if 0 <=? e then n = SF_num s m * 2 ^ e
      else 2 * Z.abs (SF_num s m - n * 2 ^ (- e)) ≤ 2 ^ (- e)
  | S754_infinity _ | S754_nan => False
  end.

(** The spec's formula, with [n] for the rounded term. *)
Definition rounded_index (t : Terms.t) (n : Z) : float :=
  (Terms.Sl t * 2 * Terms.Dl t + (Terms.Ss t * Terms.Ds t - of_Z n))%float.

(** The term that the formula rounds. *)
Definition lateral_term (t : Terms.t) : float :=
  (Terms.Ss t * Terms.slope t * (Terms.Dl t - Terms.Sl t * 0.5))%float.

(** The arc from [min_angle] to [max_angle], wrapping across 0 when
    [min_angle > max_angle], contains [angle]. *)
Definition arc_contains (min_angle angle max_angle : float) : bool :=
  if PrimFloat.leb min_angle max_angle
  then PrimFloat.leb min_angle angle && PrimFloat.leb angle max_angle
  else PrimFloat.leb min_angle angle || PrimFloat.leb angle max_angle.

Fixpoint arcs_contain (min_angles angles max_angles : list float) : bool :=
  match min_angles, angles, max_angles with
  | [], [], [] => true
  | mn :: mns, a :: as_, mx :: mxs =>
      arc_contains mn a mx && arcs_contain mns as_ mxs
  | _, _, _ => false
  end.

(** [args] lists the indices of [events] once each, in ascending order of
    their events, ties by index. *)
Definition is_argsort (events : list float) (args : list Z) : bool :=
  let key (k : Z) := events !! Z.to_nat k in
  let before (j k : Z) :=
    match key j, key k with
    | Some x, Some y => PrimFloat.ltb x y || (PrimFloat.eqb x y && (j <? k))
    | _, _ => false
    end in
  bool_decide (length args = length events)
  && forallb (λ k, (0 <=? k) && (k <? Z.of_nat (length events))) args
  && forallb (λ '(j, k), before j k) (zip args (drop 1 args)).

(** The entry of a two-dimensional array at a row and a column counted
    from its first ones. *)
Definition entry {A} (m : list (list A)) (r c : nat) : option A :=
  m !! r ≫= λ row, row !! c.

(** The lengths of the rows. *)
Definition shape {A} (m : list (list A)) : list nat := length <$> m.

(** The cell [(r, c)] is not among the cells that [I] and [J] list. *)
Definition unlisted (I J : list Z) (r c : nat) : Prop :=
  ∀ (i : nat) row col, I !! i = Some row → J !! i = Some col →
    (Z.to_nat row, Z.to_nat col) ≠ (r, c).

(** Number of active pixels of a part of the active line. *)
Definition active_slots (arr : list ActivePixel.t) : Z :=
  Z.of_nat (length (List.filter ActivePixel.is_active arr)).





(** The order of the cells in a row-major traversal: an earlier row, or
    the same row and an earlier column. *)
Definition row_major (a b : Z * Z) : Prop :=
  a.1 < b.1 ∨ (a.1 = b.1 ∧ a.2 < b.2).

(** The running maximum of a scan of the line [arr] is its initial value
    or the [visibility] field of an active pixel of the line. *)
Definition running_maximum (arr : list ActivePixel.t) (v : float) : Prop :=
  v = (-1000000)%float
  ∨ ∃ p, p ∈ arr ∧ ActivePixel.is_active p = true
         ∧ v = ActivePixel.visibility p.

(** The values that a scan of the line [arr] can compute: the offset of an
    active pixel minus a running maximum. *)
Definition computed_visibility (arr : list ActivePixel.t) (y : float) : Prop :=
  ∃ p v, p ∈ arr ∧ ActivePixel.is_active p = true
         ∧ running_maximum arr v
         ∧ y = (ActivePixel.offset p - v)%float.

(** What a scan makes of an entry [x] of the grid: it keeps it, or, when
    it is 0, replaces it with a computed visibility. *)
Definition scanned_entry (arr : list ActivePixel.t)
    (m m' : list (list float)) : Prop :=
  ∀ r c x, getitem2 m r c = Ok x →
    ∃ y, getitem2 m' r c = Ok y
         ∧ (y = x ∨ (PrimFloat.eqb x 0 = true ∧ computed_visibility arr y)).

(** The slope between the samples [i] and [j]:
    [(U[i] - U[j]) / (z[i] - z[j])]. *)
Definition slope_between (U z : list float) (i j : nat) : option float :=
  ui ← U !! i; uj ← U !! j; zi ← z !! i; zj ← z !! j;
  Some ((ui - uj) / (zi - zj))%float.

(** The value of line 117 at an inner sample [i]: the half sum of the slopes
    on both sides, each half taken before the division. *)
Definition inner_slope (U z : list float) (i : nat) : option float :=
  u_next ← U !! S i; u ← U !! i; u_prev ← U !! pred i;
  z_next ← z !! S i; z_here ← z !! i; z_prev ← z !! pred i;
  Some (0.5 * (u_next - u) / (z_next - z_here)
        + 0.5 * (u - u_prev) / (z_here - z_prev))%float.







(** A double that is neither an infinity nor a NaN. *)
Definition finite (x : float) : bool :=
  match Prim2SF x with
  | S754_zero _ | S754_finite _ _ _ => true
  | S754_infinity _ | S754_nan => false
  end.

(** The square of the radius that the classifier compares with, for an
    integer [max_dist]: a negative [max_dist] stands for 10^9. *)
Definition radius_sq (max_dist : Z) : Z :=
  if 0 <=? max_dist then max_dist ^ 2 else 1000000000.

(** * Part IV: the properties *)

(** ** The error monad, arrays and loops *)

Lemma rbind_Ok_inv {A B} (m : result A) (k : A → result B) (b : B) :
  m ≫= k = Ok b → ∃ a, m = Ok a ∧ k a = Ok b.
Proof. destruct m as [a|e]; simpl; [eauto | discriminate]. Qed.

Lemma assert_Ok_inv (b : bool) (u : unit) : assert b = Ok u → b = true.
Proof. destruct b; [reflexivity | discriminate]. Qed.

Ltac inv_ok :=
  repeat match goal with
  | H : _ ≫= _ = Ok _ |- _ =>
      let a := fresh "a" in let Ha := fresh "Ha" in
      apply rbind_Ok_inv in H; destruct H as (a & Ha & H)
  | H : assert _ = Ok _ |- _ => apply assert_Ok_inv in H
  | H : Ok _ = Ok _ |- _ => injection H as H
  | H : Raise _ = Ok _ |- _ => discriminate H
  end.

Example of_Z_samples :
  of_Z 0 = 0%float ∧ of_Z (-3) = (-3)%float ∧ of_Z 1000000 = 1000000%float
  ∧ of_Z (2 ^ 53 + 1) = 9007199254740992%float.
Proof.
  split; [vm_compute; reflexivity|].
  split; [vm_compute; reflexivity|].
  split; vm_compute; reflexivity.
Qed.

Lemma norm_index_lt (n : nat) (i : Z) (k : nat) :
  norm_index n i = Ok k → (k < n)%nat.
Proof.
  unfold norm_index. destruct (i <? 0) eqn:Hi;
    (destruct (_ && _) eqn:Hb; [|discriminate]);
    intros [= <-]; apply andb_prop in Hb as [H1 H2]; lia.
Qed.

Lemma norm_index_nat (n k : nat) :
  (k < n)%nat → norm_index n (Z.of_nat k) = Ok k.
Proof.
  intros Hk. unfold norm_index.
  destruct (Z.of_nat k <? 0) eqn:Hneg; [lia|].
  destruct (_ && _) eqn:Hb.
  - by rewrite Nat2Z.id.
  - apply andb_false_iff in Hb as [Hb|Hb]; lia.
Qed.

Lemma getitem_nat {A} (arr : list A) (k : nat) (x : A) :
  arr !! k = Some x → getitem arr (Z.of_nat k) = Ok x.
Proof.
  intros Hx. unfold getitem.
  rewrite norm_index_nat by (by eapply lookup_lt_Some).
  simpl. by rewrite Hx.
Qed.

Lemma setitem_nat {A} (arr : list A) (k : nat) (x : A) :
  (k < length arr)%nat → setitem arr (Z.of_nat k) x = Ok (<[k:=x]> arr).
Proof. intros Hk. unfold setitem. by rewrite norm_index_nat. Qed.

Lemma setitem_length {A} (arr arr' : list A) (i : Z) (x : A) :
  setitem arr i x = Ok arr' → length arr' = length arr.
Proof.
  unfold setitem. intros H. inv_ok. subst. by rewrite length_insert.
Qed.

Lemma norm_index_nonneg (n : nat) (i : Z) (k : nat) :
  0 ≤ i → norm_index n i = Ok k → k = Z.to_nat i ∧ (k < n)%nat.
Proof.
  intros Hi H. split; [|by eapply norm_index_lt].
  unfold norm_index in H. destruct (i <? 0) eqn:Hneg; [lia|].
  destruct (_ && _); [|discriminate]. by injection H as <-.
Qed.

Lemma getitem_inv {A} (arr : list A) (i : Z) (x : A) :
  getitem arr i = Ok x →
  ∃ k, norm_index (length arr) i = Ok k ∧ arr !! k = Some x.
Proof.
  unfold getitem. intros H.
  apply rbind_Ok_inv in H as (k & Hk & H). exists k. split; [done|].
  destruct (arr !! k); [by injection H as -> | discriminate].
Qed.

Lemma getitem_intro {A} (arr : list A) (i : Z) (k : nat) (x : A) :
  norm_index (length arr) i = Ok k → arr !! k = Some x → getitem arr i = Ok x.
Proof. unfold getitem. intros -> Hx. simpl. by rewrite Hx. Qed.

(** After [m[r, c] = x] the entry holds [x], and any other entry that
    could be read before reads the same. *)
Lemma setitem2_getitem2 {A} (m m' : list (list A)) (r c : Z) (x : A) :
  setitem2 m r c x = Ok m' →
  getitem2 m' r c = Ok x
  ∧ ∀ r2 c2 y, getitem2 m r2 c2 = Ok y →
      getitem2 m' r2 c2 = Ok y
      ∨ (getitem2 m r c = Ok y ∧ getitem2 m' r2 c2 = Ok x).
Proof.
  unfold setitem2. intros H.
  apply rbind_Ok_inv in H as (row & Hrow & H).
  apply rbind_Ok_inv in H as (row' & Hrow' & H).
  apply getitem_inv in Hrow as (kr & Hkr & Hrow).
  unfold setitem in Hrow', H.
  apply rbind_Ok_inv in Hrow' as (kc & Hkc & Hrow'). injection Hrow' as <-.
  rewrite Hkr in H. simpl in H. injection H as <-.
  pose proof (norm_index_lt _ _ _ Hkr) as Hltr.
  pose proof (norm_index_lt _ _ _ Hkc) as Hltc.
  assert (Hget : ∀ r2 kr2, norm_index (length m) r2 = Ok kr2 →
            norm_index (length (<[kr:=<[kc:=x]> row]> m)) r2 = Ok kr2).
  { intros r2 kr2. by rewrite length_insert. }
  split.
  - unfold getitem2.
    rewrite (getitem_intro _ r kr (<[kc:=x]> row)); simpl.
    + apply (getitem_intro _ c kc); [by rewrite length_insert|].
      by apply list_lookup_insert_eq.
    + by apply Hget.
    + by apply list_lookup_insert_eq.
  - intros r2 c2 y Hy. unfold getitem2 in Hy.
    apply rbind_Ok_inv in Hy as (row2 & Hrow2 & Hy).
    apply getitem_inv in Hrow2 as (kr2 & Hkr2 & Hrow2).
    apply getitem_inv in Hy as (kc2 & Hkc2 & Hy).
    destruct (decide (kr2 = kr)) as [->|Hner].
    + assert (row2 = row) as -> by congruence.
      destruct (decide (kc2 = kc)) as [->|Hnec].
      * right. split.
        -- unfold getitem2. rewrite (getitem_intro _ r kr row Hkr Hrow). simpl.
           by apply (getitem_intro _ c kc).
        -- unfold getitem2.
           rewrite (getitem_intro _ r2 kr (<[kc:=x]> row)); simpl.
           ++ apply (getitem_intro _ c2 kc); [by rewrite length_insert|].
              by apply list_lookup_insert_eq.
           ++ by apply Hget.
           ++ by apply list_lookup_insert_eq.
      * left. unfold getitem2.
        rewrite (getitem_intro _ r2 kr (<[kc:=x]> row)); simpl.
        -- apply (getitem_intro _ c2 kc2); [by rewrite length_insert|].
           by rewrite list_lookup_insert_ne.
        -- by apply Hget.
        -- by apply list_lookup_insert_eq.
    + left. unfold getitem2.
      rewrite (getitem_intro _ r2 kr2 row2); simpl.
      * by apply (getitem_intro _ c2 kc2).
      * by apply Hget.
      * by rewrite list_lookup_insert_ne.
Qed.

Section for_range_facts.
Context {St : Type} (body : St → Z → result St).

Lemma for_range_split (n m : nat) (s : Z) (st : St) :
  for_range body s (n + m) st
  = for_range body s n st ≫= for_range body (s + Z.of_nat n) m.
Proof.
  revert s st. induction n as [|n IH]; intros s st.
  - simpl. by rewrite Z.add_0_r.
  - simpl. destruct (body st s) as [st'|e]; simpl; [|reflexivity].
    rewrite IH.
    by replace (s + 1 + Z.of_nat n) with (s + Z.pos (Pos.of_succ_nat n)) by lia.
Qed.

Lemma for_range_prefix (n k : nat) (s : Z) (st st_n : St) :
  (k ≤ n)%nat →
  for_range body s n st = Ok st_n →
  ∃ st_k, for_range body s k st = Ok st_k
          ∧ for_range body (s + Z.of_nat k) (n - k) st_k = Ok st_n.
Proof.
  intros Hk Hrun.
  replace n with (k + (n - k))%nat in Hrun by lia.
  rewrite for_range_split in Hrun.
  by apply rbind_Ok_inv in Hrun.
Qed.

Lemma for_range_abort (n k : nat) (s : Z) (st st_k : St) (e : fault) :
  (k < n)%nat →
  for_range body s k st = Ok st_k →
  body st_k (s + Z.of_nat k) = Raise e →
  for_range body s n st = Raise e.
Proof.
  intros Hk Hrun Hfail.
  replace n with (k + S (n - S k))%nat by lia.
  rewrite for_range_split, Hrun. simpl. by rewrite Hfail.
Qed.

End for_range_facts.

(** Two doubles that compare unequal, the first not a NaN, are distinct. *)
(** Entries and shape of a two-dimensional array after a store. *)

Lemma setitem2_inv {A} (m m' : list (list A)) (r c : Z) (x : A) :
  setitem2 m r c x = Ok m' →
  ∃ kr kc row,
    norm_index (length m) r = Ok kr ∧ m !! kr = Some row
    ∧ norm_index (length row) c = Ok kc
    ∧ m' = <[kr:=<[kc:=x]> row]> m.
Proof.
  unfold setitem2. intros H.
  apply rbind_Ok_inv in H as (row & Hrow & H).
  apply rbind_Ok_inv in H as (row' & Hrow' & H).
  apply getitem_inv in Hrow as (kr & Hkr & Hrow).
  unfold setitem in Hrow', H.
  apply rbind_Ok_inv in Hrow' as (kc & Hkc & Hrow'). injection Hrow' as <-.
  rewrite Hkr in H. simpl in H. injection H as <-.
  by exists kr, kc, row.
Qed.

Lemma setitem2_shape {A} (m m' : list (list A)) (r c : Z) (x : A) :
  setitem2 m r c x = Ok m' → shape m' = shape m.
Proof.
  intros H. apply setitem2_inv in H as (kr & kc & row & _ & Hrow & _ & ->).
  unfold shape. rewrite list_fmap_insert, length_insert.
  apply list_insert_id. by rewrite list_lookup_fmap, Hrow.
Qed.

Lemma setitem2_entry {A} (m m' : list (list A)) (r c : Z) (x : A) :
  0 ≤ r → 0 ≤ c →
  setitem2 m r c x = Ok m' →
  entry m' (Z.to_nat r) (Z.to_nat c) = Some x
  ∧ ∀ kr kc, (Z.to_nat r, Z.to_nat c) ≠ (kr, kc) →
      entry m' kr kc = entry m kr kc.
Proof.
  intros Hr Hc H.
  apply setitem2_inv in H as (kr & kc & row & Hkr & Hrow & Hkc & ->).
  apply norm_index_nonneg in Hkr as [-> Hltr]; [|done].
  apply norm_index_nonneg in Hkc as [-> Hltc]; [|done].
  unfold entry. split.
  - rewrite list_lookup_insert_eq by done. simpl.
    by apply list_lookup_insert_eq.
  - intros kr kc Hne. destruct (decide (kr = Z.to_nat r)) as [->|Hner].
    + rewrite list_lookup_insert_eq by done. rewrite Hrow. simpl.
      apply list_lookup_insert_ne. congruence.
    + by rewrite list_lookup_insert_ne.
Qed.


Lemma int32_small (z : Z) : INT_MIN ≤ z ≤ INT_MAX → int32 z = z.
Proof.
  unfold INT_MIN, INT_MAX, int32, wrap. intros Hz.
  rewrite Z.mod_small; lia.
Qed.

Lemma int64_small (z : Z) : - 2 ^ 63 ≤ z < 2 ^ 63 → int64 z = z.
Proof.
  unfold int64, wrap. intros Hz.
  rewrite Z.mod_small; lia.
Qed.



Lemma float_neq (x y : float) :
  PrimFloat.eqb x x = true → PrimFloat.eqb x y = false → x ≠ y.
Proof. intros Hx Hxy ->. congruence. Qed.

(** ** C9: [compute_distances] *)

Example compute_distances_3_4 :
  compute_distances 0 0 2%float [3] [4] [0%float] [0%float]
  = Ok ([100%float], [10%float]).
Proof. vm_compute. reflexivity. Qed.

(** An offset of 50000 cells: its square, 2500000000, is beyond a C
    [int] and is computed in a C [long]. *)
Example compute_distances_50000 :
  compute_distances 0 0 1%float [50000] [0] [0%float] [0%float]
  = Ok ([2500000000%float], [50000%float]).
Proof. vm_compute. reflexivity. Qed.

Section compute_distances_loop.
Variables (vi vj : Z) (cell_size : float) (I J : list Z).
Hypothesis HJ : (length I ≤ length J)%nat.

Let body := compute_distances_body vi vj (PrimFloat.mul cell_size cell_size) I J.

End compute_distances_loop.




(** ** C8: the radius filter of the classifier *)

Lemma visited_cells_spec (array_rows array_cols : Z) (max_dist_sq : float)
    (viewpoint_row viewpoint_col row col : Z) :
  (row, col) ∈ visited_cells array_rows array_cols max_dist_sq
                 viewpoint_row viewpoint_col
  ↔ 0 ≤ row < array_rows ∧ 0 ≤ col < array_cols
    ∧ cell_skipped max_dist_sq viewpoint_row viewpoint_col row col = false.
Proof.
  unfold visited_cells. rewrite list_elem_of_bind. split.
  - intros (r & Hin & Hr). apply list_elem_of_bind in Hin as (c & Hin & Hc).
    apply elem_of_seqZ in Hr, Hc.
    destruct (cell_skipped max_dist_sq viewpoint_row viewpoint_col r c) eqn:Hs.
    + by apply elem_of_nil in Hin.
    + apply list_elem_of_singleton in Hin. injection Hin as -> ->.
      split; [lia|]. split; [lia|done].
  - intros (Hr & Hc & Hs). exists row. split; [|apply elem_of_seqZ; lia].
    apply list_elem_of_bind. exists col. split; [|apply elem_of_seqZ; lia].
    rewrite Hs. by apply list_elem_of_singleton.
Qed.

Section fill.
Variable atan2 : float → float → float.

Lemma fill_arrays_coords (viewpoint_row viewpoint_col : Z) (cells : list (Z * Z))
    min_angles angles max_angles (Is Js : list Z) :
  fill_arrays atan2 viewpoint_row viewpoint_col cells
  = Ok (min_angles, angles, max_angles, Is, Js) →
  zip Is Js = cells
  ∧ length min_angles = length cells
  ∧ length angles = length cells
  ∧ length max_angles = length cells.
Proof.
  revert min_angles angles max_angles Is Js.
  induction cells as [|[row col] rest IH];
    intros min_angles angles max_angles Is Js H; simpl in H.
  - by injection H as <- <- <- <- <-.
  - apply rbind_Ok_inv in H as ([[mn a] mx] & _ & H).
    apply rbind_Ok_inv in H as ([[[[mns as_] mxs] Is'] Js'] & Hrest & H).
    injection H as <- <- <- <- <-.
    destruct (IH _ _ _ _ _ Hrest) as (Hzip & H1 & H2 & H3).
    simpl. by rewrite Hzip, H1, H2, H3.
Qed.

End fill.

Lemma to_c_int_Ok (z : Z) : INT_MIN ≤ z ≤ INT_MAX → to_c_int z = Ok z.
Proof.
  intros Hz. unfold to_c_int.
  destruct (INT_MIN <=? z) eqn:H1; [|lia].
  destruct (z <=? INT_MAX) eqn:H2; [done|lia].
Qed.

Lemma to_c_int_inv (z z' : Z) :
  to_c_int z = Ok z' → z' = z ∧ INT_MIN ≤ z ≤ INT_MAX.
Proof.
  unfold to_c_int. destruct (_ && _) eqn:Hb; [|discriminate].
  intros [= <-]. apply andb_prop in Hb as [H1 H2]. lia.
Qed.

Lemma to_c_int_Raise (z : Z) :
  ¬ (INT_MIN ≤ z ≤ INT_MAX) → to_c_int z = Raise OverflowError.
Proof.
  intros Hz. unfold to_c_int.
  destruct (INT_MIN <=? z) eqn:H1; [|done].
  destruct (z <=? INT_MAX) eqn:H2; [lia|done].
Qed.

Lemma int32_range (z : Z) : INT_MIN ≤ int32 z ≤ INT_MAX.
Proof.
  unfold int32, wrap, INT_MIN, INT_MAX.
  pose proof (Z.mod_pos_bound (z + 2 ^ (32 - 1)) (2 ^ 32) ltac:(lia)). lia.
Qed.

Section classifier_run.
Variables atan2 pow : float → float → float.

(** A call whose arguments fit, and that keeps fewer than 2^31 cells, is
    the second pass over the kept cells. *)
Lemma list_extreme_cell_angles_run (rows cols vr vc : Z) (max_dist : pynum)
    (max_dist_sq : float) :
  max_dist_sq_of pow max_dist = Ok max_dist_sq →
  INT_MIN ≤ rows ≤ INT_MAX → INT_MIN ≤ cols ≤ INT_MAX →
  INT_MIN ≤ vr ≤ INT_MAX → INT_MIN ≤ vc ≤ INT_MAX →
  Z.of_nat (length (visited_cells rows cols max_dist_sq vr vc)) ≤ INT_MAX →
  list_extreme_cell_angles atan2 pow (rows, cols) (vr, vc) max_dist
  = fill_arrays atan2 vr vc (visited_cells rows cols max_dist_sq vr vc).
Proof.
  intros Hsq Hrows Hcols Hvr Hvc Hlen. unfold list_extreme_cell_angles.
  rewrite Hsq. cbn [fst snd mbind result_bind rbind].
  rewrite !to_c_int_Ok by done. cbn [mbind result_bind rbind].
  rewrite int32_small by (unfold INT_MIN, INT_MAX in *; lia).
  destruct (Z.of_nat _ <? 0) eqn:Hneg; [lia|]. clear Hneg.
  rewrite Nat2Z.id, firstn_all.
  destruct (fill_arrays _ _ _ _) as [arrays|e]; [|done].
  cbn [mbind result_bind rbind]. by rewrite Nat.ltb_irrefl.
Qed.

(** A call that returns has converted its arguments without overflow and
    has filled the arrays with all the kept cells. *)
Lemma list_extreme_cell_angles_inv (rows cols vr vc : Z) (max_dist : pynum)
    arrays :
  list_extreme_cell_angles atan2 pow (rows, cols) (vr, vc) max_dist
  = Ok arrays →
  ∃ max_dist_sq,
    max_dist_sq_of pow max_dist = Ok max_dist_sq
    ∧ (INT_MIN ≤ rows ≤ INT_MAX ∧ INT_MIN ≤ cols ≤ INT_MAX)
    ∧ (INT_MIN ≤ vr ≤ INT_MAX ∧ INT_MIN ≤ vc ≤ INT_MAX)
    ∧ fill_arrays atan2 vr vc (visited_cells rows cols max_dist_sq vr vc)
      = Ok arrays.
Proof.
  unfold list_extreme_cell_angles. cbn [fst snd]. intros H.
  apply rbind_Ok_inv in H as (max_dist_sq & Hsq & H).
  apply rbind_Ok_inv in H as (vr' & Hvr & H).
  apply rbind_Ok_inv in H as (vc' & Hvc & H).
  apply rbind_Ok_inv in H as (rows' & Hrows & H).
  apply rbind_Ok_inv in H as (cols' & Hcols & H).
  apply to_c_int_inv in Hvr as [-> Hvr], Hvc as [-> Hvc].
  apply to_c_int_inv in Hrows as [-> Hrows], Hcols as [-> Hcols].
  exists max_dist_sq. split; [done|]. split; [done|]. split; [done|].
  set (cells := visited_cells rows cols max_dist_sq vr vc) in *.
  destruct (int32 (Z.of_nat (length cells)) <? 0) eqn:Hneg; [discriminate|].
  apply rbind_Ok_inv in H as (arrays' & Hfill & H).
  destruct (_ <? _)%nat eqn:Hlt; [discriminate|].
  injection H as <-. apply Nat.ltb_ge in Hlt.
  by rewrite take_ge in Hfill.
Qed.

End classifier_run.

Lemma corner8_visited :
  visited_cells 8 8 (of_Z 9) 0 0 = corner8_cells.
Proof. vm_compute. reflexivity. Qed.

(** C8: for the viewpoint (0,0) of an 8×8 grid and radius 3, the
    classifier, on the C library's values of [atan2], returns ten
    records, and their coordinates are exactly the cells with
    row² + col² ≤ 9 other than (0,0); whatever [atan2] returns, the
    coordinate arrays of a call that returns list exactly these cells,
    and the angle arrays have their length. *)
Theorem corner8_radius_filter (pow : float → float → float) :
  (∃ min_angles angles max_angles Is Js,
     list_extreme_cell_angles sampled_atan2 pow (8, 8) (0, 0) (PyInt 3)
     = Ok (min_angles, angles, max_angles, Is, Js)
     ∧ zip Is Js = corner8_cells
     ∧ length Is = 10%nat)
  ∧ (∀ row col : Z,
       (row, col) ∈ corner8_cells
       ↔ 0 ≤ row < 8 ∧ 0 ≤ col < 8
         ∧ row * row + col * col ≤ 9 ∧ (row, col) ≠ (0, 0))
  ∧ (∀ atan2 min_angles angles max_angles Is Js,
       list_extreme_cell_angles atan2 pow (8, 8) (0, 0) (PyInt 3)
       = Ok (min_angles, angles, max_angles, Is, Js) →
       zip Is Js = corner8_cells
       ∧ length min_angles = 10%nat
       ∧ length angles = 10%nat
       ∧ length max_angles = 10%nat).
Proof.
  split; [|split].
  - exists corner8_min_angles, corner8_center_angles, corner8_max_angles,
      [0; 0; 0; 1; 1; 1; 2; 2; 2; 3], [1; 2; 3; 0; 1; 2; 0; 1; 2; 0].
    split; [|split; reflexivity].
    rewrite (list_extreme_cell_angles_run _ _ 8 8 0 0 (PyInt 3) (of_Z 9));
      [|vm_compute; reflexivity|vm_compute; split; discriminate..|].
    + rewrite corner8_visited. vm_compute. reflexivity.
    + rewrite corner8_visited. vm_compute. discriminate.
  - intros row col. split.
    + unfold corner8_cells. rewrite !elem_of_cons, elem_of_nil.
      intros H. repeat destruct H as [H|H]; try done;
        injection H as -> ->; repeat split; try lia; discriminate.
    + intros (Hr & Hc & Hd & Hne).
      assert (Hrow : row = 0 ∨ row = 1 ∨ row = 2 ∨ row = 3) by nia.
      assert (Hcol : col = 0 ∨ col = 1 ∨ col = 2 ∨ col = 3) by nia.
      destruct Hrow as [-> | [-> | [-> | ->]]];
        destruct Hcol as [-> | [-> | [-> | ->]]];
        first [lia | done
              | unfold corner8_cells; rewrite !elem_of_cons; auto 20].
  - intros atan2 min_angles angles max_angles Is Js H.
    apply list_extreme_cell_angles_inv in H as (q & Hq & _ & _ & H).
    assert (Hq' : max_dist_sq_of pow (PyInt 3) = Ok (of_Z 9))
      by (vm_compute; reflexivity).
    rewrite Hq' in Hq. injection Hq as <-.
    rewrite corner8_visited in H.
    apply fill_arrays_coords in H. exact H.
Qed.

(** *** The classifier on the sampled values of [atan2] *)

(** On these values the classifier returns, for the 8×8 corner scenario,
    its ten records. *)
Example corner8_records (pow : float → float → float) :
  list_extreme_cell_angles sampled_atan2 pow (8, 8) (0, 0) (PyInt 3)
  = Ok (corner8_min_angles, corner8_center_angles, corner8_max_angles,
        [0; 0; 0; 1; 1; 1; 2; 2; 2; 3], [1; 2; 3; 0; 1; 2; 0; 1; 2; 0]).
Proof. vm_compute. reflexivity. Qed.

(** And for the 5×5 grid seen from (2,2), without radius, it returns the
    event angles and coordinates of the flat scenario. *)
Example flat5_records (pow : float → float → float) :
  ∃ Is Js,
    list_extreme_cell_angles sampled_atan2 pow (5, 5) (2, 2) (PyInt (-1))
    = Ok (flat5_add_events, flat5_center_events, flat5_remove_events, Is, Js)
    ∧ flat5_coord = [Is; Js].
Proof. do 2 eexists. split; vm_compute; reflexivity. Qed.

(** The records of both scenarios, computed on the C library's values,
    have their center angle inside the arc.  This is a check of two
    runs: what [atan2] returns elsewhere is not determined here. *)
Example sampled_arcs_contain_center :
  arcs_contain corner8_min_angles corner8_center_angles corner8_max_angles
  = true
  ∧ arcs_contain flat5_add_events flat5_center_events flat5_remove_events
    = true.
Proof. split; vm_compute; reflexivity. Qed.

(** ** C3: the slot index *)

Lemma trunc_truncates (f : float) (r : Z) :
  trunc f = Some r → truncates_to f r.
Proof.
  unfold trunc, truncates_to.
  destruct (Prim2SF f) as [s|s| |s m e]; try discriminate.
  - by intros [= <-].
  - destruct (0 <=? e) eqn:He.
    + intros [= <-]. unfold SF_num. destruct s; lia.
    + intros [= <-]. apply Z.leb_gt in He.
      assert (Hpow : 0 < 2 ^ (- e)) by (apply Z.pow_pos_nonneg; lia).
      pose proof (Z.div_mod (Z.pos m) (2 ^ (- e)) ltac:(lia)) as Hdm.
      pose proof (Z.mod_pos_bound (Z.pos m) (2 ^ (- e)) Hpow) as Hmod.
      assert (Hq : 0 ≤ Z.pos m / 2 ^ (- e)) by (apply Z.div_pos; lia).
      destruct s.
      * rewrite Z.abs_opp, Z.abs_eq by lia. split; [nia|lia].
      * rewrite Z.abs_eq by lia. split; [nia|lia].
Qed.

Lemma to_int_truncates (f : float) (r : Z) :
  to_int f = Ok r → truncates_to f r ∧ INT_MIN ≤ r ≤ INT_MAX.
Proof.
  unfold to_int. destruct (trunc f) as [z|] eqn:Ht; [|discriminate].
  destruct (_ && _) eqn:Hb; [|discriminate].
  intros [= <-]. apply andb_prop in Hb as [H1 H2].
  split; [by apply trunc_truncates | lia].
Qed.

(** C3 (as amended): the index is the truncation toward zero of
    Sl·2·Dl + (Ss·Ds − r), where r is the truncation toward zero of
    Ss·slope·(Dl − Sl·0.5) + 0.5; it is 0 when both Dl and Ds are 0. *)
Theorem active_pixel_index_truncates (O P E : float * float) (ID : Z) :
  _active_pixel_index O P E = Ok ID →
  let t := index_terms O P E in
  if truthy (Terms.Ds t) || truthy (Terms.Dl t)
  then ∃ r, truncates_to (lateral_term t + 0.5)%float r
            ∧ truncates_to (rounded_index t r) ID
            ∧ INT_MIN ≤ ID ≤ INT_MAX
  else ID = 0.
Proof.
  intros H t. unfold _active_pixel_index, active_pixel_index in H.
  fold t in H. fold (lateral_term t) in H.
  destruct (truthy (Terms.Ds t) || truthy (Terms.Dl t)).
  - apply rbind_Ok_inv in H as (r & Hr & H).
    apply to_int_truncates in Hr as [Hr _].
    apply to_int_truncates in H as [H Hrange].
    exists r. auto.
  - by injection H as <-.
Qed.

Lemma active_pixel_index_truncates_witness :
  ∃ r, truncates_to
         (lateral_term (index_terms behind_O behind_P behind_E) + 0.5)%float r
       ∧ truncates_to
           (rounded_index (index_terms behind_O behind_P behind_E) r) (-4)
       ∧ INT_MIN ≤ -4 ≤ INT_MAX.
Proof.
  exact (active_pixel_index_truncates behind_O behind_P behind_E (-4) eq_refl).
Defined.

(** C3 (as stated) fails: for the viewpoint (0,0), the end point (1,4)
    and the cell (0,-2), the term to round is -0.625, whose only nearest
    integer is -1, so that the formula gives -3; the code, which adds 0.5
    and truncates, takes 0 for it and returns -4. *)
Lemma index_is_not_rounded :
  let t := index_terms behind_O behind_P behind_E in
  _active_pixel_index behind_O behind_P behind_E = Ok (-4)
  ∧ lateral_term t = (-0.625)%float
  ∧ (∀ n, nearest_integer (lateral_term t) n → n = -1)
  ∧ rounded_index t (-1) = (-3)%float
  ∧ of_Z (-4) ≠ rounded_index t (-1).
Proof.
  intros t.
  assert (Hlat : lateral_term t = (-0.625)%float) by (vm_compute; reflexivity).
  assert (Hsf : Prim2SF (-0.625) = S754_finite true 5629499534213120 (-53))
    by (vm_compute; reflexivity).
  split; [vm_compute; reflexivity|].
  split; [exact Hlat|].
  split.
  { intros n. rewrite Hlat. unfold nearest_integer. rewrite Hsf.
    change (0 <=? -53) with false. cbv iota. unfold SF_num.
    change (2 ^ (- -53)) with 9007199254740992. lia. }
  split; [vm_compute; reflexivity|].
  apply float_neq; vm_compute; reflexivity.
Qed.

(** ** C5 and C10: the visibility evaluator *)

Lemma visit_pixel_inv I J p pixel_id st st' :
  visit_pixel I J p pixel_id st = Ok st' →
  ∃ row col old m',
    getitem I (int32 (ActivePixel.index p)) = Ok row
    ∧ getitem J (int32 (ActivePixel.index p)) = Ok col
    ∧ getitem2 (Scan.visibility_map st) row col = Ok old
    ∧ (if PrimFloat.eqb old 0
       then setitem2 (Scan.visibility_map st) row col
              (ActivePixel.offset p - Scan.max_visibility st)%float = Ok m'
       else m' = Scan.visibility_map st)
    ∧ st' = Scan.mk
              (if PrimFloat.ltb (Scan.max_visibility st) (ActivePixel.visibility p)
               then ActivePixel.visibility p else Scan.max_visibility st)
              (ActivePixel.offset p - Scan.max_visibility st)%float
              (int32 (ActivePixel.index p))
              (Scan.active_pixel_count st + 1) pixel_id m'.
Proof.
  unfold visit_pixel. intros H.
  apply rbind_Ok_inv in H as (row & Hrow & H).
  apply rbind_Ok_inv in H as (col & Hcol & H).
  apply rbind_Ok_inv in H as (old & Hold & H).
  apply rbind_Ok_inv in H as (m' & Hm & H).
  injection H as <-. exists row, col, old, m'.
  repeat split; auto.
  - destruct (PrimFloat.eqb old 0); [|by injection Hm as <-].
    by destruct (PrimFloat.ltb _ (ActivePixel.offset p)).
  - by destruct (PrimFloat.ltb _ (ActivePixel.offset p)).
Qed.

(** What one visit does to the grid: the visited cell, if it held 0, now
    holds the computed visibility; nothing else changes. *)
Lemma visit_pixel_grid I J p pixel_id st st' :
  visit_pixel I J p pixel_id st = Ok st' →
  ∃ row col old,
    getitem I (int32 (ActivePixel.index p)) = Ok row
    ∧ getitem J (int32 (ActivePixel.index p)) = Ok col
    ∧ getitem2 (Scan.visibility_map st) row col = Ok old
    ∧ (PrimFloat.eqb old 0 = false →
         Scan.visibility_map st' = Scan.visibility_map st)
    ∧ getitem2 (Scan.visibility_map st') row col
      = Ok (if PrimFloat.eqb old 0 then Scan.visibility st' else old)
    ∧ ∀ r c x, getitem2 (Scan.visibility_map st) r c = Ok x →
        getitem2 (Scan.visibility_map st') r c = Ok x
        ∨ (PrimFloat.eqb x 0 = true
           ∧ getitem2 (Scan.visibility_map st') r c = Ok (Scan.visibility st')).
Proof.
  intros H.
  destruct (visit_pixel_inv _ _ _ _ _ _ H)
    as (row & col & old & m' & Hrow & Hcol & Hold & Hm & ->).
  exists row, col, old. simpl.
  destruct (PrimFloat.eqb old 0) eqn:Hz.
  - destruct (setitem2_getitem2 _ _ _ _ _ Hm) as [Hsame Hother].
    repeat split; auto; [discriminate|].
    intros r c x Hx. destruct (Hother r c x Hx) as [?|[Hx' ?]]; [by left|].
    right. split; [|done]. congruence.
  - subst m'. repeat split; auto.
Qed.

(** Within a pass, an entry that is not 0 is never written by the loop. *)
Lemma scan_pixels_keeps_stamped arr I J n pixel_id st st_end :
  scan_pixels arr I J n pixel_id st = Scanned st_end →
  ∀ r c x, getitem2 (Scan.visibility_map st) r c = Ok x →
    PrimFloat.eqb x 0 = false →
    getitem2 (Scan.visibility_map st_end) r c = Ok x.
Proof.
  revert pixel_id st. induction n as [|n IH]; intros pixel_id st H r c x Hx Hnz.
  - simpl in H. by injection H as <-.
  - simpl in H. destruct (ptr_read arr pixel_id) as [p|e]; [|discriminate].
    destruct (negb (ActivePixel.is_active p)).
    + destruct (2 <? pixel_id - Scan.last_active_pixel st).
      * by injection H as <-.
      * eauto.
    + destruct (visit_pixel I J p pixel_id st) as [st1|e] eqn:Hv; [|discriminate].
      apply (IH _ _ H).
      destruct (visit_pixel_grid _ _ _ _ _ _ Hv)
        as (row & col & old & _ & _ & _ & _ & _ & Hother).
      destruct (Hother r c x Hx) as [?|[Hz _]]; [done|congruence].
      exact Hnz.
Qed.

(** *** Faults of the numpy operations *)






(** *** Positions in a two-dimensional array *)










(** *** One visit of the loop *)

Lemma ptr_read_lookup arr i p :
  ptr_read arr i = Ok p → 0 ≤ i ∧ arr !! Z.to_nat i = Some p.
Proof.
  unfold ptr_read. destruct (_ && _) eqn:Hb; [|discriminate].
  apply andb_prop in Hb as [H1 H2].
  destruct (arr !! Z.to_nat i); [|discriminate].
  intros [= <-]. split; [lia|done].
Qed.





(** *** The loop around one cell *)

Section one_cell.
Variables (arr : list ActivePixel.t) (I J : list Z) (m : list (list float)).
Variables r c : nat.




End one_cell.

(** *** The last write of a pass *)



(** *** A pass of the evaluator *)

(** How a call that returns has ended: by the scan and the last write, by
    the scan and a swallowed exception of the last write, or by a
    swallowed exception inside the scan. *)
Lemma evaluator_cases arr I J pixel_count m a cnt m' :
  update_visible_pixels_fast arr I J pixel_count m a = Ok (cnt, m') →
  (∃ st, scan_pixels arr I J (Z.to_nat pixel_count) 0 (scan_init m)
         = Scanned st
         ∧ ((debug_write I J (Scan.index st) (Scan.visibility_map st) a
             = Ok m'
             ∧ cnt = Scan.active_pixel_count st)
            ∨ (cnt = 0 ∧ m' = Scan.visibility_map st)))
  ∨ (cnt = 0
     ∧ ∃ e, scan_pixels arr I J (Z.to_nat pixel_count) 0 (scan_init m)
            = Faulted e m').
Proof.
  unfold update_visible_pixels_fast. intros H.
  destruct (scan_pixels arr I J (Z.to_nat pixel_count) 0 (scan_init m))
    as [st|e mf].
  - left. exists st. split; [done|].
    destruct (debug_write I J (Scan.index st) (Scan.visibility_map st) a)
      as [m2|e].
    + injection H as <- <-. by left.
    + right. destruct e; try discriminate; by injection H as <- <-.
  - right. destruct e; try discriminate; injection H as <- <-; eauto.
Qed.








Example demo_pass :
  update_visible_pixels_fast demo_line [0] [1] 3 demo_grid 7
  = Ok (1, [[0%float; 7%float]]).
Proof. vm_compute. reflexivity. Qed.

(** C10: the evaluator where it departs from the rule.  The statement
    after the loop (line 899, by its comment there for debugging only)
    writes the step number whatever the entry holds.  A pass that ends on
    the cell (0,1) leaves the step number 1 there, where the visibility
    computed was 5 - 5 = 0 and the entry should have stayed 0, and also
    where the entry was 9.  Through a whole sweep of the flat 5×5
    scenario, the entry 9 of the cell (2,4) is replaced by the step
    number 1. *)
Lemma last_write_ignores_entry :
  update_visible_pixels_fast
    [inactive_pixel; inactive_pixel; pixel_A; pixel_B] row3_I row3_J 4
    row3_grid 1
  = Ok (2, [[1000007%float; 1%float; 0%float]])
  ∧ PrimFloat.eqb (ActivePixel.offset pixel_B - ActivePixel.visibility pixel_A) 0
    = true
  ∧ PrimFloat.eqb 1 0 = false
  ∧ update_visible_pixels_fast
      [inactive_pixel; inactive_pixel; pixel_A; pixel_B] row3_I row3_J 4
      [[0%float; 9%float; 0%float]] 1
    = Ok (2, [[1000007%float; 1%float; 0%float]])
  ∧ PrimFloat.eqb 9 0 = false
  ∧ PrimFloat.eqb 9 1 = false
  ∧ entry flat5_marked_grid 2 4 = Some 9%float
  ∧ ∃ out, flat5_sweep flat5_arg_min flat5_arg_max flat5_marked_grid = Ok out
           ∧ entry (Out.visibility_map out) 2 4 = Some 1%float.
Proof.
  do 7 (split; [vm_compute; reflexivity|]).
  eexists. split; vm_compute; reflexivity.
Qed.

(** ** The consistency check of the sweep *)

Lemma check_count_Ok (st : Sweep.state) :
  count_consistent st →
  check_count st
  = Ok (set_counts st (Sweep.active_pixel_count st) (Sweep.active_pixel_count st)
          (Sweep.add_pixel_count st) (Sweep.remove_pixel_count st)).
Proof.
  unfold count_consistent, check_count. intros ->.
  by rewrite Z.eqb_refl.
Qed.

Lemma check_count_Raise (st : Sweep.state) :
  ¬ count_consistent st → check_count st = Raise AssertionError.
Proof.
  unfold count_consistent, check_count. intros Hne.
  destruct (Z.eqb_spec (Sweep.active_pixel_count st)
              (Sweep.previous_pixel_count st + Sweep.add_pixel_count st
               - Sweep.remove_pixel_count st)); [contradiction | reflexivity].
Qed.

Lemma check_count_inv (st st' : Sweep.state) :
  check_count st = Ok st' →
  count_consistent st
  ∧ Sweep.previous_pixel_count st' = Sweep.active_pixel_count st
  ∧ Sweep.active_pixel_count st' = Sweep.active_pixel_count st.
Proof.
  unfold check_count. intros H. inv_ok. subst st'. simpl.
  apply Z.eqb_eq in Ha. auto.
Qed.

Lemma event_frame_refl (st : Sweep.state) : event_frame 0 0 0 st st.
Proof. split; lia. Qed.

Lemma event_frame_trans a1 r1 c1 a2 r2 c2 (st1 st2 st3 : Sweep.state) :
  event_frame a1 r1 c1 st1 st2 → event_frame a2 r2 c2 st2 st3 →
  event_frame (a1 + a2) (r1 + r2) (c1 + c2) st1 st3.
Proof. intros [] []. split; lia. Qed.

Section sweep_facts.
Variables (viewpoint : list Z) (perimeter : list (list Z)) (angles : list float).
Variables (add_events center_events remove_events : list float).
Variable arg_center : list Z.
Variable coord : list (list Z).
Variables (distances offset_visibility visibility : list float).

Lemma center_body_frame ln st st' :
  center_body arg_center distances offset_visibility visibility ln st = Ok st' →
  event_frame 0 0 1 st st'.
Proof.
  unfold center_body. intros H. inv_ok. subst st'. split; simpl; lia.
Qed.

Lemma center_loop_frame ln n st st' :
  center_loop angles center_events arg_center distances offset_visibility
    visibility ln n st = Ok st' →
  ∃ c, event_frame 0 0 c st st'.
Proof.
  revert st. induction n as [|n IH]; intros st H; simpl in H.
  - inv_ok. subst. exists 0. apply event_frame_refl.
  - inv_ok. destruct (PrimFloat.ltb _ _).
    + inv_ok. apply center_body_frame in Ha2. apply IH in H as [c Hc].
      exists (1 + c). apply (event_frame_trans 0 0 1 0 0 c _ _ _ Ha2 Hc).
    + inv_ok. subst. exists 0. apply event_frame_refl.
Qed.

Lemma remove_body_frame ln st st' :
  remove_body distances ln st = Ok st' → event_frame 0 1 0 st st'.
Proof.
  unfold remove_body. intros H. inv_ok. subst st'. split; simpl; lia.
Qed.

Lemma remove_loop_frame ln a n st st' :
  remove_loop angles remove_events distances ln a n st = Ok st' →
  ∃ r, event_frame 0 r 0 st st'.
Proof.
  revert st. induction n as [|n IH]; intros st H; simpl in H.
  - inv_ok. subst. exists 0. apply event_frame_refl.
  - inv_ok. destruct (PrimFloat.leb _ _).
    + inv_ok. apply remove_body_frame in Ha2. apply IH in H as [r Hr].
      exists (1 + r). apply (event_frame_trans 0 1 0 0 r 0 _ _ _ Ha2 Hr).
    + inv_ok. subst. exists 0. apply event_frame_refl.
Qed.

Lemma add_body_frame ln st st' :
  add_body angles distances offset_visibility visibility ln st = Ok st' →
  event_frame 1 0 0 st st'.
Proof.
  unfold add_body. intros H. inv_ok. subst st'. split; simpl; lia.
Qed.

Lemma add_loop_frame ln a n st st' :
  add_loop angles add_events distances offset_visibility visibility ln a n st
    = Ok st' →
  ∃ k, event_frame k 0 0 st st'.
Proof.
  revert st. induction n as [|n IH]; intros st H; simpl in H.
  - inv_ok. subst. exists 0. apply event_frame_refl.
  - inv_ok. destruct (PrimFloat.ltb _ _).
    + inv_ok. apply add_body_frame in Ha2. apply IH in H as [k Hk].
      exists (1 + k). apply (event_frame_trans 1 0 0 k 0 0 _ _ _ Ha2 Hk).
    + inv_ok. subst. exists 0. apply event_frame_refl.
Qed.

Lemma evaluate_frame a st st' :
  evaluate angles coord a st = Ok st' → event_frame 0 0 0 st st'.
Proof.
  unfold evaluate. intros H. inv_ok. destruct a2 as [n m].
  inv_ok. subst st'. split; simpl; lia.
Qed.

End sweep_facts.

(** Turns every successful loop or evaluation among the hypotheses into
    its equations on the cursors and counters. *)
Ltac use_frames :=
  repeat match goal with
  | H : center_loop _ _ _ _ _ _ _ _ _ = Ok _ |- _ =>
      apply center_loop_frame in H as [? [? ? ? ? ? ? ?]]
  | H : remove_loop _ _ _ _ _ _ _ = Ok _ |- _ =>
      apply remove_loop_frame in H as [? [? ? ? ? ? ? ?]]
  | H : add_loop _ _ _ _ _ _ _ _ _ = Ok _ |- _ =>
      apply add_loop_frame in H as [? [? ? ? ? ? ? ?]]
  | H : evaluate _ _ _ _ = Ok _ |- _ =>
      apply evaluate_frame in H as [? ? ? ? ? ? ?]
  end.

(** ** C1: the active-line count is checked after every step *)

Section count_invariant.
Variables (viewpoint : list Z) (perimeter : list (list Z)) (angles : list float).
Variables (add_events center_events remove_events : list float).
Variable arg_center : list Z.
Variable coord : list (list Z).
Variables (distances offset_visibility visibility : list float).
Variables (arg_min arg_max : list Z) (visibility_map : list (list float)).

Let prefix :=
  sweep_prefix viewpoint perimeter angles add_events center_events
    remove_events arg_center coord distances offset_visibility visibility
    arg_min arg_max visibility_map.

Let step_unchecked :=
  sweep_step_unchecked viewpoint perimeter angles add_events remove_events
    coord distances offset_visibility visibility.
Let primed :=
  prime_unchecked viewpoint perimeter angles center_events arg_center coord
    distances offset_visibility visibility arg_min arg_max visibility_map.
Let whole :=
  sweep_through_angles viewpoint perimeter angles add_events center_events
    remove_events arg_center coord distances offset_visibility visibility
    arg_min arg_max visibility_map.
Let steps := Z.to_nat (angle_count angles - 2).

Lemma prime_unchecked_counts st :
  primed = Ok st →
  Sweep.previous_pixel_count st = 0
  ∧ Sweep.remove_pixel_count st = 0
  ∧ Sweep.add_pixel_count st = Sweep.center_event_id st.
Proof.
  unfold primed, prime_unchecked. intros H. inv_ok.
  use_frames. simpl in *. lia.
Qed.

Lemma sweep_step_unchecked_counts st a st' :
  step_unchecked st a = Ok st' →
  Sweep.previous_pixel_count st' = Sweep.previous_pixel_count st
  ∧ Sweep.add_pixel_count st'
    = Sweep.add_event_id st' - Sweep.add_event_id st
  ∧ Sweep.remove_pixel_count st'
    = Sweep.remove_event_id st' - Sweep.remove_event_id st.
Proof.
  unfold step_unchecked, sweep_step_unchecked. intros H. inv_ok.
  use_frames. simpl in *. lia.
Qed.

Lemma sweep_prefix_previous k st :
  prefix k = Ok st →
  Sweep.previous_pixel_count st = Sweep.active_pixel_count st.
Proof.
  unfold prefix, sweep_prefix, sweep_loop. intros H.
  apply rbind_Ok_inv in H as (stp & Hprime & H).
  destruct k as [|k].
  - simpl in H. injection H as ->.
    unfold sweep_prime in Hprime.
    apply rbind_Ok_inv in Hprime as (st0 & _ & Hcheck).
    apply check_count_inv in Hcheck as (_ & -> & ->). reflexivity.
  - replace (S k) with (k + 1)%nat in H by lia.
    rewrite for_range_split in H.
    apply rbind_Ok_inv in H as (stk & _ & H). simpl in H.
    apply rbind_Ok_inv in H as (st1 & Hstep & H). injection H as ->.
    unfold sweep_step in Hstep.
    apply rbind_Ok_inv in Hstep as (st0 & _ & Hcheck).
    apply check_count_inv in Hcheck as (_ & -> & ->). reflexivity.
Qed.

(** C1: in a call that returns, the count reported by the evaluator after
    the priming step and after every turn of the loop is the count after
    the previous step plus the cells added minus the cells removed in this
    step; and as soon as a step's count breaks the equation, the call
    ends with an AssertionError. *)
Theorem sweep_count_checked :
  (∀ out, whole = Ok out →
     (∃ st0, primed = Ok st0 ∧ count_consistent st0
             ∧ Sweep.previous_pixel_count st0 = 0
             ∧ Sweep.remove_pixel_count st0 = 0
             ∧ Sweep.add_pixel_count st0 = Sweep.center_event_id st0)
     ∧ ∀ k : nat, (k < steps)%nat →
         ∃ st st', prefix k = Ok st
           ∧ step_unchecked st (Z.of_nat k) = Ok st'
           ∧ count_consistent st'
           ∧ Sweep.previous_pixel_count st' = Sweep.active_pixel_count st
           ∧ Sweep.add_pixel_count st'
             = Sweep.add_event_id st' - Sweep.add_event_id st
           ∧ Sweep.remove_pixel_count st'
             = Sweep.remove_event_id st' - Sweep.remove_event_id st)
  ∧ (∀ st0, primed = Ok st0 → ¬ count_consistent st0 →
       whole = Raise AssertionError)
  ∧ (∀ (k : nat) st st', (k < steps)%nat →
       prefix k = Ok st →
       step_unchecked st (Z.of_nat k) = Ok st' →
       ¬ count_consistent st' →
       whole = Raise AssertionError).
Proof.
  split; [|split].
  - intros out H. unfold whole, sweep_through_angles in H.
    apply rbind_Ok_inv in H as (stp & Hprime & H).
    apply rbind_Ok_inv in H as (stn & Hloop & _).
    split.
    + unfold sweep_prime in Hprime.
      apply rbind_Ok_inv in Hprime as (st0 & Hp & Hcheck).
      exists st0.
      apply check_count_inv in Hcheck as (Hc & _).
      destruct (prime_unchecked_counts _ Hp) as (? & ? & ?). auto.
    + intros k Hk. fold steps in Hloop. unfold sweep_loop in Hloop.
      destruct (for_range_prefix _ steps k 0 _ _ ltac:(lia) Hloop)
        as (st & Hpre & Hrest).
      assert (Hprefix : prefix k = Ok st).
      { unfold prefix, sweep_prefix, sweep_loop. rewrite Hprime. exact Hpre. }
      destruct (steps - k)%nat as [|m] eqn:Hm; [lia|].
      simpl in Hrest.
      apply rbind_Ok_inv in Hrest as (st1 & Hstep & _).
      unfold sweep_step in Hstep.
      apply rbind_Ok_inv in Hstep as (st' & Hstep & Hcheck).
      rewrite Z.add_0_l in Hstep.
      exists st, st'. split; [exact Hprefix|]. split; [exact Hstep|].
      apply check_count_inv in Hcheck as (Hc & _).
      destruct (sweep_step_unchecked_counts _ _ _ Hstep) as (Hp & Hadd & Hrem).
      rewrite Hp, (sweep_prefix_previous _ _ Hprefix). auto.
  - intros st0 Hp Hbad. unfold whole, sweep_through_angles, sweep_prime.
    fold primed. rewrite Hp. simpl.
    by rewrite (check_count_Raise _ Hbad).
  - intros k st st' Hk Hprefix Hstep Hbad.
    unfold whole, sweep_through_angles. fold steps.
    unfold prefix, sweep_prefix in Hprefix.
    apply rbind_Ok_inv in Hprefix as (stp & Hprime & Hprefix).
    rewrite Hprime. simpl.
    unfold sweep_loop in *.
    rewrite (for_range_abort _ steps k 0 stp st AssertionError Hk Hprefix);
      [reflexivity|].
    rewrite Z.add_0_l. unfold sweep_step. fold step_unchecked.
    rewrite Hstep. simpl. by apply check_count_Raise.
Qed.

End count_invariant.

(** The abort is reachable: a single cell three columns east of the
    viewpoint lands in slot 6; the evaluator stops at the gap before it
    and counts 0 where 1 cell was added. *)
Example sweep_aborts_on_gap :
  sweep_through_angles [0; 0] [replicate 15 0; replicate 15 4]
    (map of_Z [0; 1; 2; 3; 4; 5; 6; 7; 8; 9; 10; 11; 12; 13; 14; 15])
    [0.5%float] [0%float] [0.75%float] [0] [[0]; [3]]
    [3%float] [0%float] [0%float] [0] [0] [replicate 4 0%float]
  = Raise AssertionError.
Proof. vm_compute. reflexivity. Qed.

(** ** C2: the flat 5×5 scenario *)

(** The arrays of the scenario fit together: the index arrays sort the
    event angles, and the distances are those of the cells. *)
Example flat5_inputs_consistent :
  is_argsort flat5_add_events flat5_arg_min = true
  ∧ is_argsort flat5_center_events flat5_arg_center = true
  ∧ is_argsort flat5_remove_events flat5_arg_max = true
  ∧ ∃ Is Js distance_sq,
      flat5_coord = [Is; Js]
      ∧ compute_distances 2 2 1%float Is Js flat5_zeros flat5_zeros
        = Ok (distance_sq, flat5_distances).
Proof.
  split; [vm_compute; reflexivity|].
  split; [vm_compute; reflexivity|].
  split; [vm_compute; reflexivity|].
  do 3 eexists. split; [reflexivity|]. vm_compute. reflexivity.
Qed.

Lemma flat5_sweep_runs :
  flat5_sweep flat5_arg_min flat5_arg_max flat5_grid
  = Ok (Out.mk flat5_result
          (replicate 23 0 ++ [13]) (replicate 22 0 ++ [17; 18])).
Proof. vm_compute. reflexivity. Qed.

(** C2 (as stated) fails: after the sweep of the flat 5×5 scenario the
    cell (2,3), next to the viewpoint, holds 1000000 and the cell (2,4)
    holds the step number 1; in fact no cell but the viewpoint holds 0. *)
Lemma flat5_cells_not_zero :
  ∃ out, flat5_sweep flat5_arg_min flat5_arg_max flat5_grid = Ok out
    ∧ getitem2 (Out.visibility_map out) 2 3 = Ok 1000000%float
    ∧ getitem2 (Out.visibility_map out) 2 4 = Ok 1%float
    ∧ PrimFloat.eqb 1000000 0 = false
    ∧ PrimFloat.eqb 1 0 = false
    ∧ ∀ r c : nat, (r < 5)%nat → (c < 5)%nat → (r, c) ≠ (2%nat, 2%nat) →
        ∃ v, getitem2 (Out.visibility_map out) (Z.of_nat r) (Z.of_nat c) = Ok v
             ∧ PrimFloat.eqb v 0 = false.
Proof.
  eexists. split; [apply flat5_sweep_runs|]. simpl Out.visibility_map.
  repeat split; try (vm_compute; reflexivity).
  intros r c Hr Hc Hne.
  do 5 (destruct r as [|r]; [do 5 (destruct c as [|c];
    [first [congruence | eexists; split; vm_compute; reflexivity]|]); lia|]).
  lia.
Qed.

(** C2 (as amended): in the flat 5×5 scenario, with offset 0 and
    visibility 0 for every cell, the sweep runs to its end; the viewpoint
    cell keeps 0 and each of the eight cells around it, the first active
    slot of the passes that reach it, holds 1000000 = 0 - (-1000000), the
    running maximum starting at -1000000. *)
Theorem flat5_first_slots :
  ∃ out, flat5_sweep flat5_arg_min flat5_arg_max flat5_grid = Ok out
    ∧ getitem2 (Out.visibility_map out) 2 2 = Ok 0%float
    ∧ Scan.max_visibility (scan_init flat5_grid) = (-1000000)%float
    ∧ (∀ r c : Z, 1 ≤ r ≤ 3 → 1 ≤ c ≤ 3 → (r, c) ≠ (2, 2) →
         getitem2 (Out.visibility_map out) r c
         = Ok (0 - Scan.max_visibility (scan_init flat5_grid))%float)
    ∧ (0 - -1000000 = 1000000)%float.
Proof.
  eexists. split; [apply flat5_sweep_runs|]. simpl Out.visibility_map.
  repeat split.
  intros r c Hr Hc Hne.
  assert (Hcases : (r = 1 ∨ r = 2 ∨ r = 3) ∧ (c = 1 ∨ c = 2 ∨ c = 3)) by lia.
  destruct Hcases as [[-> | [-> | ->]] [-> | [-> | ->]]];
    first [congruence | vm_compute; reflexivity].
Qed.

(** ** Invariants of the sweep state *)

Section sweep_invariant.
Variables (viewpoint : list Z) (perimeter : list (list Z)) (angles : list float).
Variables (add_events center_events remove_events : list float).
Variable arg_center : list Z.
Variable coord : list (list Z).
Variables (distances offset_visibility visibility : list float).

(** A property of the state that the three event bodies keep, and that
    does not look at the grid or at the counters. *)
Variable P : Sweep.state → Prop.
Hypothesis P_center : ∀ ln st st',
  P st →
  center_body arg_center distances offset_visibility visibility ln st = Ok st' →
  P st'.
Hypothesis P_remove : ∀ ln st st',
  P st → remove_body distances ln st = Ok st' → P st'.
Hypothesis P_add : ∀ ln st st',
  P st →
  add_body angles distances offset_visibility visibility ln st = Ok st' →
  P st'.
Hypothesis P_scalars : ∀ st m active previous added removed,
  P st →
  P (Sweep.mk (Sweep.active_pixel_array st) m (Sweep.arg_min st)
       (Sweep.arg_max st) (Sweep.add_event_id st) (Sweep.center_event_id st)
       (Sweep.remove_event_id st) active previous added removed).

Lemma center_loop_invariant ln n st st' :
  P st →
  center_loop angles center_events arg_center distances offset_visibility
    visibility ln n st = Ok st' →
  P st'.
Proof using P_center.
  revert st. induction n as [|n IH]; intros st HP H; simpl in H.
  - by injection H as <-.
  - apply rbind_Ok_inv in H as (k & _ & H).
    apply rbind_Ok_inv in H as (e & _ & H).
    apply rbind_Ok_inv in H as (a1 & _ & H).
    destruct (PrimFloat.ltb e a1).
    + apply rbind_Ok_inv in H as (st1 & Hbody & H). eauto.
    + by injection H as <-.
Qed.

Lemma remove_loop_invariant ln a n st st' :
  P st →
  remove_loop angles remove_events distances ln a n st = Ok st' →
  P st'.
Proof using P_remove.
  revert st. induction n as [|n IH]; intros st HP H; simpl in H.
  - by injection H as <-.
  - apply rbind_Ok_inv in H as (k & _ & H).
    apply rbind_Ok_inv in H as (e & _ & H).
    apply rbind_Ok_inv in H as (a1 & _ & H).
    destruct (PrimFloat.leb e a1).
    + apply rbind_Ok_inv in H as (st1 & Hbody & H). eauto.
    + by injection H as <-.
Qed.

Lemma add_loop_invariant ln a n st st' :
  P st →
  add_loop angles add_events distances offset_visibility visibility ln a n st
    = Ok st' →
  P st'.
Proof using P_add.
  revert st. induction n as [|n IH]; intros st HP H; simpl in H.
  - by injection H as <-.
  - apply rbind_Ok_inv in H as (k & _ & H).
    apply rbind_Ok_inv in H as (e & _ & H).
    apply rbind_Ok_inv in H as (a1 & _ & H).
    destruct (PrimFloat.ltb e a1).
    + apply rbind_Ok_inv in H as (st1 & Hbody & H). eauto.
    + by injection H as <-.
Qed.

Lemma evaluate_invariant a st st' :
  P st → evaluate angles coord a st = Ok st' → P st'.
Proof using P_scalars.
  unfold evaluate. intros HP H.
  apply rbind_Ok_inv in H as (I & _ & H).
  apply rbind_Ok_inv in H as (J & _ & H).
  apply rbind_Ok_inv in H as ([n m] & _ & H).
  injection H as <-. by apply P_scalars.
Qed.

Lemma check_count_invariant st st' :
  P st → check_count st = Ok st' → P st'.
Proof using P_scalars.
  unfold check_count. intros HP H.
  apply rbind_Ok_inv in H as (u & _ & H).
  injection H as <-. by apply P_scalars.
Qed.

Lemma sweep_step_invariant st a st' :
  P st →
  sweep_step viewpoint perimeter angles add_events remove_events coord
    distances offset_visibility visibility st a = Ok st' →
  P st'.
Proof using P_remove P_add P_scalars.
  unfold sweep_step, sweep_step_unchecked. intros HP H.
  apply rbind_Ok_inv in H as (st4 & H & Hcheck).
  apply rbind_Ok_inv in H as (ln1 & _ & H).
  apply rbind_Ok_inv in H as (st1 & Hrem & H).
  apply rbind_Ok_inv in H as (ln2 & _ & H).
  apply rbind_Ok_inv in H as (st2 & Hadd & H).
  apply (check_count_invariant _ _ (evaluate_invariant _ _ _
           (add_loop_invariant _ _ _ _ _ (P_scalars _ _ _ _ _ _
              (remove_loop_invariant _ _ _ _ _ (P_scalars _ _ _ _ _ _ HP) Hrem))
              Hadd) H) Hcheck).
Qed.

Lemma sweep_loop_invariant first n st st' :
  P st →
  sweep_loop viewpoint perimeter angles add_events remove_events coord
    distances offset_visibility visibility first n st = Ok st' →
  P st'.
Proof using P_remove P_add P_scalars.
  unfold sweep_loop. revert first st.
  induction n as [|n IH]; intros first st HP H; simpl in H.
  - by injection H as <-.
  - apply rbind_Ok_inv in H as (st1 & Hstep & H).
    eauto using sweep_step_invariant.
Qed.

Lemma sweep_prime_invariant arg_min arg_max visibility_map st :
  P (initial_state angles arg_min arg_max visibility_map) →
  sweep_prime viewpoint perimeter angles center_events arg_center coord
    distances offset_visibility visibility arg_min arg_max visibility_map
  = Ok st →
  P st.
Proof using P_center P_scalars.
  unfold sweep_prime, prime_unchecked. intros HP H.
  apply rbind_Ok_inv in H as (st2 & H & Hcheck).
  apply rbind_Ok_inv in H as (ln & _ & H).
  apply rbind_Ok_inv in H as (st1 & Hcen & H).
  eauto using check_count_invariant, evaluate_invariant, center_loop_invariant.
Qed.

(** The state in which a returning call ends satisfies the invariant. *)
Lemma sweep_through_angles_invariant arg_min arg_max visibility_map out :
  P (initial_state angles arg_min arg_max visibility_map) →
  sweep_through_angles viewpoint perimeter angles add_events center_events
    remove_events arg_center coord distances offset_visibility visibility
    arg_min arg_max visibility_map = Ok out →
  ∃ st, P st
    ∧ out = Out.mk (Sweep.visibility_map st) (Sweep.arg_min st) (Sweep.arg_max st).
Proof using P_center P_remove P_add P_scalars.
  unfold sweep_through_angles. intros HP H.
  apply rbind_Ok_inv in H as (st1 & Hprime & H).
  apply rbind_Ok_inv in H as (st2 & Hloop & H).
  injection H as <-. exists st2. split; [|reflexivity].
  eauto using sweep_loop_invariant, sweep_prime_invariant.
Qed.

End sweep_invariant.

(** ** C6: what a call does to its arguments *)

Lemma zero_prefix_step (l0 : list Z) (k : nat) :
  (k < length (replicate k 0%Z ++ drop k l0))%nat →
  <[k:=0]> (replicate k 0 ++ drop k l0) = replicate (S k) 0 ++ drop (S k) l0.
Proof.
  rewrite length_app, length_replicate, length_drop. intros Hk.
  destruct (lookup_lt_is_Some_2 l0 k) as [y Hy]; [lia|].
  rewrite insert_app_r_alt by (rewrite length_replicate; lia).
  rewrite length_replicate, Nat.sub_diag.
  rewrite (drop_S l0 y k Hy), replicate_S_end, <- app_assoc. reflexivity.
Qed.

Lemma setitem_zero_prefix (l0 : list Z) (id : Z) (x : Z) (l' : list Z) :
  0 ≤ id →
  getitem (replicate (Z.to_nat id) 0 ++ drop (Z.to_nat id) l0) id = Ok x →
  setitem (replicate (Z.to_nat id) 0 ++ drop (Z.to_nat id) l0) id 0 = Ok l' →
  (Z.to_nat (id + 1) ≤ length l0)%nat
  ∧ l' = replicate (Z.to_nat (id + 1)) 0 ++ drop (Z.to_nat (id + 1)) l0.
Proof.
  intros Hid Hget Hset. unfold getitem in Hget. unfold setitem in Hset.
  apply rbind_Ok_inv in Hget as (k & Hk & _).
  rewrite Hk in Hset. simpl in Hset. injection Hset as <-.
  apply norm_index_nonneg in Hk as [-> Hlt]; [|done].
  replace (Z.to_nat (id + 1)) with (S (Z.to_nat id)) by lia.
  split; [|by apply zero_prefix_step].
  rewrite length_app, length_replicate, length_drop in Hlt. lia.
Qed.

Section arguments.
Variables (viewpoint : list Z) (perimeter : list (list Z)) (angles : list float).
Variables (add_events center_events remove_events : list float).
Variable arg_center : list Z.
Variable coord : list (list Z).
Variables (distances offset_visibility visibility : list float).
Variables (arg_min arg_max : list Z).

Lemma args_zeroed_center ln st st' :
  args_zeroed arg_min arg_max st →
  center_body arg_center distances offset_visibility visibility ln st = Ok st' →
  args_zeroed arg_min arg_max st'.
Proof.
  unfold center_body. intros HP H.
  repeat (apply rbind_Ok_inv in H as (? & _ & H)).
  by injection H as <-.
Qed.

Lemma args_zeroed_remove ln st st' :
  args_zeroed arg_min arg_max st →
  remove_body distances ln st = Ok st' →
  args_zeroed arg_min arg_max st'.
Proof.
  unfold remove_body. intros (Ha & Hr & Hla & Hlr & Hmin & Hmax) H.
  apply rbind_Ok_inv in H as (k & Hget & H).
  do 6 (apply rbind_Ok_inv in H as (? & _ & H)).
  apply rbind_Ok_inv in H as (arg_max' & Hset & H).
  injection H as <-. rewrite Hmax in Hget, Hset.
  destruct (setitem_zero_prefix _ _ _ _ Hr Hget Hset) as [Hlen ->].
  repeat split; simpl; auto; lia.
Qed.

Lemma args_zeroed_add ln st st' :
  args_zeroed arg_min arg_max st →
  add_body angles distances offset_visibility visibility ln st = Ok st' →
  args_zeroed arg_min arg_max st'.
Proof.
  unfold add_body. intros (Ha & Hr & Hla & Hlr & Hmin & Hmax) H.
  apply rbind_Ok_inv in H as (k & Hget & H).
  do 8 (apply rbind_Ok_inv in H as (? & _ & H)).
  apply rbind_Ok_inv in H as (arg_min' & Hset & H).
  injection H as <-. rewrite Hmin in Hget, Hset.
  destruct (setitem_zero_prefix _ _ _ _ Ha Hget Hset) as [Hlen ->].
  repeat split; simpl; auto; lia.
Qed.

(** C6 (as amended): a call that returns ends in the state reached after
    its last step, whose cursors [add_event_id] and [remove_event_id]
    count the Add and the Remove events it has consumed.  The arrays
    [arg_min] and [arg_max] are left with the entries before these
    cursors overwritten with 0 and the others as the caller passed
    them. *)
Theorem sweep_zeroes_consumed_events (visibility_map : list (list float))
    (out : Out.t) :
  sweep_through_angles viewpoint perimeter angles add_events center_events
    remove_events arg_center coord distances offset_visibility visibility
    arg_min arg_max visibility_map = Ok out →
  ∃ st,
    sweep_prefix viewpoint perimeter angles add_events center_events
      remove_events arg_center coord distances offset_visibility visibility
      arg_min arg_max visibility_map (Z.to_nat (angle_count angles - 2))
    = Ok st
    ∧ out = Out.mk (Sweep.visibility_map st) (Sweep.arg_min st)
              (Sweep.arg_max st)
    ∧ 0 ≤ Sweep.add_event_id st ≤ Z.of_nat (length arg_min)
    ∧ 0 ≤ Sweep.remove_event_id st ≤ Z.of_nat (length arg_max)
    ∧ Out.arg_min out
      = replicate (Z.to_nat (Sweep.add_event_id st)) 0
        ++ drop (Z.to_nat (Sweep.add_event_id st)) arg_min
    ∧ Out.arg_max out
      = replicate (Z.to_nat (Sweep.remove_event_id st)) 0
        ++ drop (Z.to_nat (Sweep.remove_event_id st)) arg_max.
Proof.
  unfold sweep_through_angles, sweep_prefix. intros H.
  apply rbind_Ok_inv in H as (st1 & Hprime & H).
  apply rbind_Ok_inv in H as (st & Hloop & H).
  injection H as <-. exists st. rewrite Hprime.
  split; [exact Hloop|]. split; [reflexivity|].
  assert (Hinit : args_zeroed arg_min arg_max
                    (initial_state angles arg_min arg_max visibility_map)).
  { unfold args_zeroed, initial_state. simpl.
    repeat split; try lia; by rewrite drop_0. }
  assert (H1 : args_zeroed arg_min arg_max st1).
  { eapply (sweep_prime_invariant viewpoint perimeter angles center_events
              arg_center coord distances offset_visibility visibility
              (args_zeroed arg_min arg_max) args_zeroed_center);
      [by intros|exact Hinit|exact Hprime]. }
  assert (H2 : args_zeroed arg_min arg_max st).
  { eapply (sweep_loop_invariant viewpoint perimeter angles add_events
              remove_events coord distances offset_visibility visibility
              (args_zeroed arg_min arg_max) args_zeroed_remove
              args_zeroed_add); [by intros|exact H1|exact Hloop]. }
  destruct H2 as (Ha & Hr & Hla & Hlr & Hmin & Hmax). simpl.
  split; [lia|]. split; [lia|]. split; assumption.
Qed.

End arguments.

(** In the flat 5×5 scenario the call consumes 23 Add events and 22
    Remove events. *)
Lemma sweep_zeroes_consumed_events_witness :
  ∃ st,
    sweep_prefix flat5_viewpoint flat5_perimeter flat5_angles
      flat5_add_events flat5_center_events flat5_remove_events
      flat5_arg_center flat5_coord flat5_distances flat5_zeros flat5_zeros
      flat5_arg_min flat5_arg_max flat5_grid
      (Z.to_nat (angle_count flat5_angles - 2))
    = Ok st
    ∧ Out.mk flat5_result (replicate 23 0 ++ [13]) (replicate 22 0 ++ [17; 18])
      = Out.mk (Sweep.visibility_map st) (Sweep.arg_min st) (Sweep.arg_max st)
    ∧ 0 ≤ Sweep.add_event_id st ≤ Z.of_nat (length flat5_arg_min)
    ∧ 0 ≤ Sweep.remove_event_id st ≤ Z.of_nat (length flat5_arg_max)
    ∧ replicate 23 0 ++ [13]
      = replicate (Z.to_nat (Sweep.add_event_id st)) 0
        ++ drop (Z.to_nat (Sweep.add_event_id st)) flat5_arg_min
    ∧ replicate 22 0 ++ [17; 18]
      = replicate (Z.to_nat (Sweep.remove_event_id st)) 0
        ++ drop (Z.to_nat (Sweep.remove_event_id st)) flat5_arg_max.
Proof.
  apply (sweep_zeroes_consumed_events flat5_viewpoint flat5_perimeter
           flat5_angles flat5_add_events flat5_center_events
           flat5_remove_events flat5_arg_center flat5_coord flat5_distances
           flat5_zeros flat5_zeros flat5_arg_min flat5_arg_max flat5_grid
           (Out.mk flat5_result (replicate 23 0 ++ [13])
              (replicate 22 0 ++ [17; 18]))).
  vm_compute. reflexivity.
Defined.

(** The cursors of that call. *)
Example flat5_cursors :
  ∃ st,
    sweep_prefix flat5_viewpoint flat5_perimeter flat5_angles
      flat5_add_events flat5_center_events flat5_remove_events
      flat5_arg_center flat5_coord flat5_distances flat5_zeros flat5_zeros
      flat5_arg_min flat5_arg_max flat5_grid 15
    = Ok st
    ∧ Sweep.add_event_id st = 23 ∧ Sweep.remove_event_id st = 22
    ∧ length flat5_arg_min = 24%nat ∧ length flat5_arg_max = 24%nat.
Proof. eexists. split; [vm_compute; reflexivity|]. by vm_compute. Qed.

(** C6 (as stated) fails: in the flat 5×5 scenario a second call on the
    arrays that the first call has left, with a fresh grid or with the
    grid of the first call, does not give the grid again: it ends with an
    AssertionError. *)
Lemma flat5_second_run_differs :
  ∃ out, flat5_sweep flat5_arg_min flat5_arg_max flat5_grid = Ok out
    ∧ flat5_sweep (Out.arg_min out) (Out.arg_max out) flat5_grid
      = Raise AssertionError
    ∧ flat5_sweep (Out.arg_min out) (Out.arg_max out) (Out.visibility_map out)
      = Raise AssertionError.
Proof.
  eexists. split; [apply flat5_sweep_runs|].
  split; vm_compute; reflexivity.
Qed.

(** ** C4: capacity of the active line *)

Lemma ptr_write_length arr i p arr' :
  ptr_write arr i p = Ok arr' → length arr' = length arr.
Proof.
  unfold ptr_write. destruct (_ && _); [|discriminate].
  intros [= <-]. apply length_insert.
Qed.

Lemma ptr_write_lookup arr i p arr' :
  ptr_write arr i p = Ok arr' →
  0 ≤ i < Z.of_nat (length arr) ∧ arr' !! Z.to_nat i = Some p.
Proof.
  unfold ptr_write. destruct (_ && _) eqn:Hb; [|discriminate].
  intros [= <-]. apply andb_prop in Hb as [H1 H2].
  split; [lia|]. apply list_lookup_insert_eq. lia.
Qed.

Section capacity.
Variables (viewpoint : list Z) (perimeter : list (list Z)) (angles : list float).
Variables (add_events center_events remove_events : list float).
Variable arg_center : list Z.
Variable coord : list (list Z).
Variables (distances offset_visibility visibility : list float).

Lemma has_capacity_center ln st st' :
  has_capacity angles st →
  center_body arg_center distances offset_visibility visibility ln st = Ok st' →
  has_capacity angles st'.
Proof.
  unfold center_body, has_capacity. intros HP H.
  do 5 (apply rbind_Ok_inv in H as (? & _ & H)).
  apply rbind_Ok_inv in H as (arr & Hw & H).
  injection H as <-. simpl. by rewrite (ptr_write_length _ _ _ _ Hw).
Qed.

Lemma has_capacity_remove ln st st' :
  has_capacity angles st →
  remove_body distances ln st = Ok st' →
  has_capacity angles st'.
Proof.
  unfold remove_body, has_capacity. intros HP H.
  do 6 (apply rbind_Ok_inv in H as (? & _ & H)).
  apply rbind_Ok_inv in H as (arr & Hw & H).
  apply rbind_Ok_inv in H as (? & _ & H).
  injection H as <-. simpl. by rewrite (ptr_write_length _ _ _ _ Hw).
Qed.

(** An Add event activates its cell at the slot the indexer gives, and
    that slot passes the check of line 1152. *)
Lemma add_body_slot ln st st' :
  add_body angles distances offset_visibility visibility ln st = Ok st' →
  ∃ i ID p,
    slot_of ln i = Ok ID
    ∧ 0 ≤ ID < max_line_length angles
    ∧ 0 ≤ ID < Z.of_nat (length (Sweep.active_pixel_array st))
    ∧ length (Sweep.active_pixel_array st')
      = length (Sweep.active_pixel_array st)
    ∧ Sweep.active_pixel_array st' !! Z.to_nat ID = Some p
    ∧ ActivePixel.is_active p = true
    ∧ ActivePixel.index p = i
    ∧ ∀ k : nat, Z.of_nat k ≠ ID → Z.of_nat k ≠ alternate ID →
        Sweep.active_pixel_array st' !! k = Sweep.active_pixel_array st !! k.
Proof.
  unfold add_body. intros H.
  apply rbind_Ok_inv in H as (k & _ & H).
  apply rbind_Ok_inv in H as (d & _ & H).
  apply rbind_Ok_inv in H as (v & _ & H).
  apply rbind_Ok_inv in H as (o & _ & H).
  apply rbind_Ok_inv in H as (ID & Hslot & H).
  apply rbind_Ok_inv in H as (p & _ & H).
  apply rbind_Ok_inv in H as (arr1 & Hmove & H).
  apply rbind_Ok_inv in H as (u & Hassert & H).
  apply rbind_Ok_inv in H as (arr2 & Hw & H).
  apply rbind_Ok_inv in H as (arg_min' & _ & H).
  injection H as <-. simpl.
  apply assert_Ok_inv, andb_prop in Hassert as [H1 H2].
  assert (Hlen1 : length arr1 = length (Sweep.active_pixel_array st)).
  { destruct (ActivePixel.is_active p).
    - by apply ptr_write_length in Hmove.
    - by injection Hmove as <-. }
  assert (Hframe1 : ∀ j : nat, Z.of_nat j ≠ alternate ID →
            arr1 !! j = Sweep.active_pixel_array st !! j).
  { intros j Hj. destruct (ActivePixel.is_active p);
      [|by injection Hmove as <-].
    unfold ptr_write in Hmove.
    destruct (_ && _) eqn:Hb in Hmove; [|discriminate].
    injection Hmove as <-. apply andb_prop in Hb as [Hb _].
    apply list_lookup_insert_ne. lia. }
  destruct (ptr_write_lookup _ _ _ _ Hw) as [Hin Hlook].
  assert (Hframe2 : ∀ j : nat, Z.of_nat j ≠ ID → arr2 !! j = arr1 !! j).
  { intros j Hj. unfold ptr_write in Hw.
    destruct (_ && _) in Hw; [|discriminate].
    injection Hw as <-. apply list_lookup_insert_ne. lia. }
  apply ptr_write_length in Hw.
  exists (int32 k), ID, (ActivePixel.mk true (int32 k) d v o).
  split; [done|]. split; [lia|]. split; [lia|]. split; [congruence|].
  split; [done|]. split; [done|]. split; [done|].
  intros j Hj Halt. rewrite Hframe2 by done. by apply Hframe1.
Qed.

Lemma has_capacity_add ln st st' :
  has_capacity angles st →
  add_body angles distances offset_visibility visibility ln st = Ok st' →
  has_capacity angles st'.
Proof.
  unfold has_capacity. intros HP H.
  destruct (add_body_slot _ _ _ H) as (i & ID & p & _ & _ & _ & Hlen & _).
  congruence.
Qed.

(** C4 (as amended): a call allocates [max_line_length] slots, that is
    half the number of angles, and the block keeps that size through
    every step.  An Add event stores its new pixel (lines 1153-1157)
    only at a slot that has passed the check of line 1152, that is in
    [0, max_line_length): this bound comes from the check alone, whatever
    the size of the memory around the slot.  The read of line 1147 and
    the copy of line 1150 come before the check. *)
Theorem active_line_capacity (arg_min arg_max : list Z)
    (visibility_map : list (list float)) :
  (Z.of_nat (length angles) ≤ INT_MAX →
   max_line_length angles = Z.of_nat (length angles) / 2)
  ∧ has_capacity angles (initial_state angles arg_min arg_max visibility_map)
  ∧ (∀ (k : nat) st,
       sweep_prefix viewpoint perimeter angles add_events center_events
         remove_events arg_center coord distances offset_visibility
         visibility arg_min arg_max visibility_map k = Ok st →
       has_capacity angles st)
  ∧ (∀ ln st st',
       add_body angles distances offset_visibility visibility ln st = Ok st' →
       ∃ i ID p,
         slot_of ln i = Ok ID
         ∧ 0 ≤ ID < max_line_length angles
         ∧ length (Sweep.active_pixel_array st')
           = length (Sweep.active_pixel_array st)
         ∧ Sweep.active_pixel_array st' !! Z.to_nat ID = Some p
         ∧ ActivePixel.is_active p = true
         ∧ ActivePixel.index p = i
         ∧ ∀ k : nat, Z.of_nat k ≠ ID → Z.of_nat k ≠ alternate ID →
             Sweep.active_pixel_array st' !! k
             = Sweep.active_pixel_array st !! k).
Proof.
  assert (Hinit : has_capacity angles
                    (initial_state angles arg_min arg_max visibility_map)).
  { unfold has_capacity, initial_state. simpl. apply length_replicate. }
  split.
  { intros Hlen. unfold max_line_length, angle_count.
    rewrite int32_small; [reflexivity|]. unfold INT_MIN, INT_MAX in *. lia. }
  split; [exact Hinit|]. split.
  - intros k st H. unfold sweep_prefix in H.
    apply rbind_Ok_inv in H as (st1 & Hprime & Hloop).
    eapply (sweep_loop_invariant viewpoint perimeter angles add_events
              remove_events coord distances offset_visibility visibility
              (has_capacity angles) has_capacity_remove has_capacity_add);
      [by intros| |exact Hloop].
    eapply (sweep_prime_invariant viewpoint perimeter angles center_events
              arg_center coord distances offset_visibility visibility
              (has_capacity angles) has_capacity_center);
      [by intros|exact Hinit|exact Hprime].
  - intros ln st st' H.
    destruct (add_body_slot _ _ _ H)
      as (i & ID & p & Hslot & Hr & Hin & Hlen & Hlook & Hact & Hidx & Hframe).
    exists i, ID, p. do 6 (split; [done|]). exact Hframe.
Qed.

End capacity.

(** The sweep of the flat 5×5 scenario after its last step, and an Add
    event on a free slot. *)
Lemma active_line_capacity_witness :
  (∃ st,
     sweep_prefix flat5_viewpoint flat5_perimeter flat5_angles
       flat5_add_events flat5_center_events flat5_remove_events
       flat5_arg_center flat5_coord flat5_distances flat5_zeros flat5_zeros
       flat5_arg_min flat5_arg_max flat5_grid 15
     = Ok st
     ∧ has_capacity flat5_angles st)
  ∧ ∃ st' i ID p,
      add_body (replicate 6 0%float) [1%float] [0%float] [0%float] east_line
        (east_state [inactive_pixel; inactive_pixel; inactive_pixel])
      = Ok st'
      ∧ slot_of east_line i = Ok ID
      ∧ 0 ≤ ID < max_line_length (replicate 6 0%float)
      ∧ Sweep.active_pixel_array st' !! Z.to_nat ID = Some p
      ∧ ActivePixel.is_active p = true.
Proof.
  destruct (active_line_capacity flat5_viewpoint flat5_perimeter flat5_angles
              flat5_add_events flat5_center_events flat5_remove_events
              flat5_arg_center flat5_coord flat5_distances flat5_zeros
              flat5_zeros flat5_arg_min flat5_arg_max flat5_grid)
    as (_ & _ & Hsteps & _).
  destruct (active_line_capacity [0; 0] [[0]; [2]] (replicate 6 0%float)
              [] [] [] [] [[0]; [1]] [1%float] [0%float] [0%float] [0] [0]
              [[0%float; 0%float; 0%float]])
    as (_ & _ & _ & Hadd).
  split.
  - assert (H : ∃ st,
       sweep_prefix flat5_viewpoint flat5_perimeter flat5_angles
         flat5_add_events flat5_center_events flat5_remove_events
         flat5_arg_center flat5_coord flat5_distances flat5_zeros flat5_zeros
         flat5_arg_min flat5_arg_max flat5_grid 15
       = Ok st) by (eexists; vm_compute; reflexivity).
    destruct H as [st H]. exists st. split; [exact H|].
    exact (Hsteps 15%nat st H).
  - assert (H : ∃ st',
       add_body (replicate 6 0%float) [1%float] [0%float] [0%float] east_line
         (east_state [inactive_pixel; inactive_pixel; inactive_pixel])
       = Ok st') by (eexists; vm_compute; reflexivity).
    destruct H as [st' H].
    destruct (Hadd east_line _ st' H)
      as (i & ID & p & Hslot & Hr & _ & Hlook & Hact & _).
    exists st', i, ID, p. do 4 (split; [assumption|]). assumption.
Defined.

(** C4 (as stated) fails: for the 17 angles of the flat 5×5 scenario the
    block has 8 slots, not 16.  With 4 angles the block has 2 slots: a
    cell next to the viewpoint gets slot 2, which is below 2 × 2, and its
    activation in the priming step, which has no check, is a write
    outside of the block.  With 6 angles the block has 3 slots: when slot
    2 is taken, an Add event for slot 2 copies its pixel to the paired
    slot 3, outside of the block, before the check of line 1152. *)
Lemma capacity_not_doubled :
  max_line_length flat5_angles = 8
  ∧ length (Sweep.active_pixel_array
              (initial_state flat5_angles flat5_arg_min flat5_arg_max flat5_grid))
    = 8%nat
  ∧ Z.of_nat 8 ≠ 2 * max_line_length flat5_angles
  ∧ (let angles := map of_Z [0; 1; 2; 3] in
     let viewpoint := [0; 0] in
     let perimeter := [[0; 0; 0]; [2; 2; 2]] in
     let coord := [[0]; [1]] in
     max_line_length angles = 2
     ∧ (∃ ln, line_first viewpoint perimeter coord = Ok ln
              ∧ slot_of ln 0 = Ok 2)
     ∧ 0 ≤ 2 < 2 * max_line_length angles
     ∧ sweep_through_angles viewpoint perimeter angles
         [0.5%float] [0%float] [0.75%float] [0] coord
         [1%float] [0%float] [0%float] [0] [0] [replicate 2 0%float]
       = Raise UndefinedBehaviour)
  ∧ (let angles := replicate 6 0%float in
     let line := [inactive_pixel; inactive_pixel; east_pixel] in
     max_line_length angles = Z.of_nat (length line)
     ∧ slot_of east_line 0 = Ok 2
     ∧ 0 ≤ 2 < max_line_length angles
     ∧ alternate 2 = 3
     ∧ add_body angles [1%float] [0%float] [0%float] east_line
         (east_state line)
       = Raise UndefinedBehaviour).
Proof.
  split; [vm_compute; reflexivity|].
  split; [vm_compute; reflexivity|].
  split; [vm_compute; congruence|].
  split.
  { intros angles viewpoint perimeter coord.
    split; [vm_compute; reflexivity|].
    split.
    { eexists. split; [vm_compute; reflexivity|]. vm_compute. reflexivity. }
    split; [vm_compute; split; congruence|].
    vm_compute. reflexivity. }
  intros angles line.
  split; [vm_compute; reflexivity|].
  split; [vm_compute; reflexivity|].
  split; [vm_compute; split; congruence|].
  split; vm_compute; reflexivity.
Qed.

(** * Further properties of the same functions and of their neighbours *)

(** ** The evaluator as a whole *)

Lemma active_slots_cons p arr :
  active_slots (p :: arr)
  = (if ActivePixel.is_active p then 1 else 0) + active_slots arr.
Proof.
  unfold active_slots. simpl. destruct (ActivePixel.is_active p); simpl; lia.
Qed.

Lemma active_slots_nonneg arr : 0 ≤ active_slots arr.
Proof. unfold active_slots. lia. Qed.

Lemma active_slots_le_length arr : active_slots arr ≤ Z.of_nat (length arr).
Proof.
  induction arr as [|p arr IH]; [done|].
  rewrite active_slots_cons. simpl length.
  destruct (ActivePixel.is_active p); lia.
Qed.

Lemma take_drop_lookup {A} (arr : list A) (k n : nat) (p : A) :
  arr !! k = Some p →
  take (S n) (drop k arr) = p :: take n (drop (S k) arr).
Proof. intros H. by rewrite (drop_S _ _ _ H). Qed.

Lemma visit_pixel_shape I J p pixel_id st st' :
  visit_pixel I J p pixel_id st = Ok st' →
  shape (Scan.visibility_map st') = shape (Scan.visibility_map st)
  ∧ Scan.active_pixel_count st' = Scan.active_pixel_count st + 1.
Proof.
  intros H.
  destruct (visit_pixel_inv _ _ _ _ _ _ H)
    as (row & col & old & m' & _ & _ & _ & Hm & ->). simpl.
  split; [|done].
  destruct (PrimFloat.eqb old 0); [|by subst].
  by apply setitem2_shape in Hm.
Qed.

(** The scan keeps the shape of the grid, also when it stops on a fault,
    and counts at most the active pixels of the slots it goes through. *)
Lemma scan_pixels_count arr I J n pixel_id st :
  0 ≤ pixel_id →
  match scan_pixels arr I J n pixel_id st with
  | Scanned st_end =>
      Scan.active_pixel_count st ≤ Scan.active_pixel_count st_end
      ∧ Scan.active_pixel_count st_end
        ≤ Scan.active_pixel_count st
          + active_slots (take n (drop (Z.to_nat pixel_id) arr))
      ∧ shape (Scan.visibility_map st_end) = shape (Scan.visibility_map st)
  | Faulted _ m => shape m = shape (Scan.visibility_map st)
  end.
Proof.
  revert pixel_id st. induction n as [|n IH]; intros pixel_id st Hid.
  - simpl. rewrite take_0. unfold active_slots. simpl.
    split; [lia|]. split; [lia|done].
  - simpl. destruct (ptr_read arr pixel_id) as [p|e] eqn:Hp; [|done].
    apply ptr_read_lookup in Hp as [_ Hp].
    rewrite (take_drop_lookup _ _ _ _ Hp), active_slots_cons.
    pose proof (active_slots_nonneg
                  (take n (drop (S (Z.to_nat pixel_id)) arr))) as Hnn.
    specialize (IH (pixel_id + 1)).
    replace (Z.to_nat (pixel_id + 1)) with (S (Z.to_nat pixel_id)) in IH by lia.
    destruct (ActivePixel.is_active p); simpl.
    + destruct (visit_pixel I J p pixel_id st) as [st1|e] eqn:Hv; [|done].
      apply visit_pixel_shape in Hv as [Hshape Hcount].
      specialize (IH st1 ltac:(lia)).
      destruct (scan_pixels arr I J n (pixel_id + 1) st1); [|congruence].
      destruct IH as (H1 & H2 & H3). split; [lia|]. split; [lia|congruence].
    + destruct (2 <? pixel_id - Scan.last_active_pixel st).
      * split; [lia|]. split; [lia|done].
      * specialize (IH st ltac:(lia)).
        destruct (scan_pixels arr I J n (pixel_id + 1) st); [|done].
        destruct IH as (H1 & H2 & H3). split; [lia|]. split; [lia|done].
Qed.

Lemma debug_write_shape I J index m a m' :
  debug_write I J index m a = Ok m' → shape m' = shape m.
Proof.
  unfold debug_write. intros H.
  apply rbind_Ok_inv in H as (row & _ & H).
  apply rbind_Ok_inv in H as (col & _ & H).
  by apply setitem2_shape in H.
Qed.

(** X1: The count that the evaluator returns is at most the number of active
    pixels among the [pixel_count] slots it is given, and the grid keeps
    its shape, whether the call ends normally or on a swallowed
    exception. *)
Theorem evaluator_count_bounds arr I J pixel_count m a cnt m' :
  update_visible_pixels_fast arr I J pixel_count m a = Ok (cnt, m') →
  0 ≤ cnt ≤ active_slots (take (Z.to_nat pixel_count) arr)
  ∧ cnt ≤ Z.max 0 pixel_count
  ∧ shape m' = shape m.
Proof.
  intros H.
  pose proof (scan_pixels_count arr I J (Z.to_nat pixel_count) 0
                (scan_init m) ltac:(lia)) as Hscan.
  pose proof (active_slots_nonneg (take (Z.to_nat pixel_count) arr)) as Hnn.
  pose proof (active_slots_le_length (take (Z.to_nat pixel_count) arr)) as Hle.
  rewrite length_take in Hle.
  change (Z.to_nat 0) with 0%nat in Hscan. rewrite drop_0 in Hscan.
  destruct (evaluator_cases _ _ _ _ _ _ _ _ H)
    as [(st & Hst & Hend)|(-> & e & Hst)]; rewrite Hst in Hscan;
    simpl in Hscan.
  - destruct Hscan as (H1 & H2 & H3).
    destruct Hend as [[Hd ->]|[-> ->]].
    + apply debug_write_shape in Hd. split; [lia|]. split; [lia|congruence].
    + split; [lia|]. split; [lia|done].
  - split; [lia|]. split; [lia|done].
Qed.

Lemma evaluator_count_bounds_witness :
  0 ≤ 1 ≤ active_slots (take (Z.to_nat 3) demo_line)
  ∧ 1 ≤ Z.max 0 3
  ∧ shape [[0%float; 7%float]] = shape demo_grid.
Proof.
  apply (evaluator_count_bounds demo_line [0] [1] 3 demo_grid 7 1
           [[0%float; 7%float]]).
  vm_compute. reflexivity.
Defined.

Lemma getitem_last {A} (arr : list A) (x : A) :
  last arr = Some x → getitem arr (-1) = Ok x.
Proof.
  rewrite last_lookup. intros H.
  pose proof (lookup_lt_Some _ _ _ H) as Hlt.
  apply (getitem_intro _ _ (pred (length arr))); [|done].
  unfold norm_index. simpl.
  destruct (_ && _) eqn:Hb.
  - f_equal. lia.
  - apply andb_false_iff in Hb as [Hb|Hb]; lia.
Qed.

Lemma getitem_nil {A} (i : Z) : getitem (@nil A) i = Raise IndexError.
Proof.
  unfold getitem, norm_index. simpl.
  destruct (i <? 0) eqn:Hi; destruct (_ && _) eqn:Hb; try done;
    apply andb_prop in Hb as [H1 H2]; lia.
Qed.

(** Over slots that are all inactive the scan changes nothing. *)
Lemma scan_pixels_inactive arr I J n pixel_id st :
  0 ≤ pixel_id →
  (Z.to_nat pixel_id + n ≤ length arr)%nat →
  (∀ (k : nat) p, arr !! k = Some p →
     (Z.to_nat pixel_id ≤ k < Z.to_nat pixel_id + n)%nat →
     ActivePixel.is_active p = false) →
  scan_pixels arr I J n pixel_id st = Scanned st.
Proof.
  revert pixel_id. induction n as [|n IH]; intros pixel_id Hid Hlen Hoff.
  - reflexivity.
  - simpl. destruct (lookup_lt_is_Some_2 arr (Z.to_nat pixel_id)) as [p Hp];
      [lia|].
    unfold ptr_read.
    destruct (_ && _) eqn:Hb;
      [|apply andb_false_iff in Hb as [Hb|Hb]; lia].
    rewrite Hp, (Hoff _ _ Hp) by lia. simpl.
    destruct (2 <? pixel_id - Scan.last_active_pixel st); [done|].
    apply IH; [lia|lia|].
    intros k q Hq Hk. apply (Hoff k q Hq). lia.
Qed.

(** X2: An active line without any active pixel: the evaluator counts 0, and
    its last statement, with [index] still at -1, writes the step number
    [a] to the cell that [I] and [J] list last.  When [I] is empty that
    statement raises, the exception is swallowed and the grid is returned
    as it was. *)
Theorem empty_line_stamps_last_cell arr I J pixel_count m a :
  (Z.to_nat pixel_count ≤ length arr)%nat →
  Forall (λ p, ActivePixel.is_active p = false)
    (take (Z.to_nat pixel_count) arr) →
  (I = [] → update_visible_pixels_fast arr I J pixel_count m a = Ok (0, m))
  ∧ (∀ row col m',
       last I = Some row → last J = Some col →
       setitem2 m row col (of_Z a) = Ok m' →
       update_visible_pixels_fast arr I J pixel_count m a = Ok (0, m')).
Proof.
  intros Hlen Hoff.
  assert (Hscan : scan_pixels arr I J (Z.to_nat pixel_count) 0 (scan_init m)
                  = Scanned (scan_init m)).
  { apply scan_pixels_inactive; [lia|simpl; lia|].
    intros k p Hp Hk. rewrite Forall_lookup in Hoff.
    apply (Hoff k p). rewrite lookup_take_lt by lia. done. }
  unfold update_visible_pixels_fast. rewrite Hscan. simpl.
  split.
  - intros ->. unfold debug_write. by rewrite getitem_nil.
  - intros row col m' HI HJ Hset. unfold debug_write.
    rewrite (getitem_last _ _ HI), (getitem_last _ _ HJ). simpl.
    by rewrite Hset.
Qed.

Lemma empty_line_stamps_last_cell_witness :
  update_visible_pixels_fast [inactive_pixel; inactive_pixel] [0; 0] [0; 1] 2
    demo_grid 7
  = Ok (0, [[0%float; 7%float]]).
Proof.
  apply (proj2 (empty_line_stamps_last_cell [inactive_pixel; inactive_pixel]
                  [0; 0] [0; 1] 2 demo_grid 7
                  ltac:(simpl; lia)
                  ltac:(repeat constructor)) 0 1);
    reflexivity.
Defined.

(** When the scan has counted a pixel, [index] is that of an active pixel
    of the slots it went through; otherwise [index] is as before. *)
Lemma scan_pixels_index arr I J n pixel_id st st_end :
  0 ≤ pixel_id →
  scan_pixels arr I J n pixel_id st = Scanned st_end →
  (Scan.active_pixel_count st_end = Scan.active_pixel_count st
   ∧ Scan.index st_end = Scan.index st)
  ∨ (Scan.active_pixel_count st < Scan.active_pixel_count st_end
     ∧ ∃ (k : nat) p,
         arr !! k = Some p
         ∧ (Z.to_nat pixel_id ≤ k < Z.to_nat pixel_id + n)%nat
         ∧ ActivePixel.is_active p = true
         ∧ Scan.index st_end = int32 (ActivePixel.index p)).
Proof.
  revert pixel_id st. induction n as [|n IH]; intros pixel_id st Hid H.
  - simpl in H. injection H as <-. by left.
  - simpl in H. destruct (ptr_read arr pixel_id) as [p|e] eqn:Hp; [|done].
    apply ptr_read_lookup in Hp as [_ Hp].
    destruct (ActivePixel.is_active p) eqn:Hact; simpl in H.
    + destruct (visit_pixel I J p pixel_id st) as [st1|e] eqn:Hv; [|done].
      pose proof (visit_pixel_shape _ _ _ _ _ _ Hv) as [_ Hcount].
      destruct (visit_pixel_inv _ _ _ _ _ _ Hv)
        as (row & col & old & m' & _ & _ & _ & _ & Hst1).
      right.
      destruct (IH (pixel_id + 1) st1 ltac:(lia) H)
        as [[Hc Hi]|[Hc (k & q & Hq & Hk & Hqa & Hi)]].
      * split; [lia|]. exists (Z.to_nat pixel_id), p.
        split; [done|]. split; [lia|]. split; [done|].
        rewrite Hi, Hst1. reflexivity.
      * split; [lia|]. exists k, q.
        split; [done|]. split; [lia|]. by split.
    + destruct (2 <? pixel_id - Scan.last_active_pixel st).
      * injection H as <-. by left.
      * destruct (IH (pixel_id + 1) st ltac:(lia) H)
          as [?|[Hc (k & q & Hq & Hk & Hqa & Hi)]]; [by left|].
        right. split; [done|]. exists k, q.
        split; [done|]. split; [lia|]. by split.
Qed.

(** X4: When the evaluator returns a count above 0, the grid it leaves holds
    the step number [a], not a visibility, at the cell of one of the
    active pixels it went through. *)
Theorem evaluator_stamps_step_number arr I J pixel_count m a cnt m' :
  update_visible_pixels_fast arr I J pixel_count m a = Ok (cnt, m') →
  0 < cnt →
  ∃ (k : nat) p row col,
    arr !! k = Some p ∧ Z.of_nat k < pixel_count
    ∧ ActivePixel.is_active p = true
    ∧ getitem I (int32 (ActivePixel.index p)) = Ok row
    ∧ getitem J (int32 (ActivePixel.index p)) = Ok col
    ∧ getitem2 m' row col = Ok (of_Z a).
Proof.
  intros H Hcnt.
  destruct (evaluator_cases _ _ _ _ _ _ _ _ H)
    as [(st & Hscan & [[Hd ->]|[-> _]])|(-> & _)]; [|lia|lia].
  destruct (scan_pixels_index arr I J _ 0 _ _ ltac:(lia) Hscan)
    as [[Hc _]|[_ (k & p & Hp & Hk & Hact & Hi)]].
  { simpl in Hc. lia. }
  unfold debug_write in Hd. rewrite Hi in Hd.
  apply rbind_Ok_inv in Hd as (row & Hrow & Hd).
  apply rbind_Ok_inv in Hd as (col & Hcol & Hd).
  apply setitem2_getitem2 in Hd as [Hd _].
  exists k, p, row, col.
  split; [done|]. split; [lia|]. split; [done|]. by split.
Qed.

Lemma evaluator_stamps_step_number_witness :
  ∃ (k : nat) p row col,
    demo_line !! k = Some p ∧ Z.of_nat k < 3
    ∧ ActivePixel.is_active p = true
    ∧ getitem [0] (int32 (ActivePixel.index p)) = Ok row
    ∧ getitem [1] (int32 (ActivePixel.index p)) = Ok col
    ∧ getitem2 [[0%float; 7%float]] row col = Ok (of_Z 7).
Proof.
  apply (evaluator_stamps_step_number demo_line [0] [1] 3 demo_grid 7 1
           [[0%float; 7%float]]).
  - vm_compute. reflexivity.
  - lia.
Defined.

Lemma getitem_pair {A B} (I : list A) (J : list B) (i : Z) (x : A) (y : B) :
  length I = length J →
  getitem I i = Ok x → getitem J i = Ok y →
  ∃ k : nat, I !! k = Some x ∧ J !! k = Some y.
Proof.
  intros Hlen HI HJ.
  apply getitem_inv in HI as (k & Hk & HI).
  apply getitem_inv in HJ as (k' & Hk' & HJ).
  rewrite <- Hlen, Hk in Hk'. injection Hk' as <-. by exists k.
Qed.

Section listed_cells.
Variables I J : list Z.
Hypothesis same_length : length I = length J.
Hypothesis I_nonneg : Forall (λ z, 0 ≤ z) I.
Hypothesis J_nonneg : Forall (λ z, 0 ≤ z) J.

(** A write at the cell that [I] and [J] list at some index leaves the
    cells they do not list as they are. *)
Lemma listed_write_frame (m m' : list (list float)) (i : Z) row col x r c :
  getitem I i = Ok row → getitem J i = Ok col →
  setitem2 m row col x = Ok m' →
  unlisted I J r c → entry m' r c = entry m r c.
Proof using same_length I_nonneg J_nonneg.
  intros HI HJ Hset Hun.
  destruct (getitem_pair _ _ _ _ _ same_length HI HJ) as (k & HIk & HJk).
  pose proof (Forall_lookup_1 _ _ _ _ I_nonneg HIk) as Hrow.
  pose proof (Forall_lookup_1 _ _ _ _ J_nonneg HJk) as Hcol.
  simpl in Hrow, Hcol.
  apply (setitem2_entry _ _ _ _ _ Hrow Hcol Hset).
  by apply (Hun k).
Qed.

Lemma visit_pixel_frame p pixel_id st st' r c :
  visit_pixel I J p pixel_id st = Ok st' →
  unlisted I J r c →
  entry (Scan.visibility_map st') r c = entry (Scan.visibility_map st) r c.
Proof using same_length I_nonneg J_nonneg.
  intros H Hun.
  destruct (visit_pixel_inv _ _ _ _ _ _ H)
    as (row & col & old & m' & HI & HJ & _ & Hm & ->). simpl.
  destruct (PrimFloat.eqb old 0); [|by subst].
  by apply (listed_write_frame _ _ _ _ _ _ _ _ HI HJ Hm).
Qed.

Lemma scan_pixels_frame arr n pixel_id st r c :
  unlisted I J r c →
  match scan_pixels arr I J n pixel_id st with
  | Scanned st_end =>
      entry (Scan.visibility_map st_end) r c
      = entry (Scan.visibility_map st) r c
  | Faulted _ m => entry m r c = entry (Scan.visibility_map st) r c
  end.
Proof using same_length I_nonneg J_nonneg.
  intros Hun. revert pixel_id st. induction n as [|n IH]; intros pixel_id st.
  - reflexivity.
  - simpl. destruct (ptr_read arr pixel_id) as [p|e]; [|done].
    destruct (ActivePixel.is_active p); simpl.
    + destruct (visit_pixel I J p pixel_id st) as [st1|e] eqn:Hv; [|done].
      specialize (IH (pixel_id + 1) st1).
      rewrite <- (visit_pixel_frame _ _ _ _ r c Hv Hun).
      exact IH.
    + destruct (2 <? pixel_id - Scan.last_active_pixel st); [done|].
      apply IH.
Qed.

Lemma debug_write_frame index m a m' r c :
  debug_write I J index m a = Ok m' →
  unlisted I J r c → entry m' r c = entry m r c.
Proof using same_length I_nonneg J_nonneg.
  unfold debug_write. intros Hd Hun.
  apply rbind_Ok_inv in Hd as (row & Hrow & Hd).
  apply rbind_Ok_inv in Hd as (col & Hcol & Hd).
  by apply (listed_write_frame _ _ _ _ _ _ _ _ Hrow Hcol Hd).
Qed.

(** X5: The evaluator writes only to cells that [I] and [J] list: any other
    cell of the grid is returned as it was passed, also when the call
    ends on a swallowed exception. *)
Theorem evaluator_writes_listed_cells arr pixel_count m a cnt m' r c :
  update_visible_pixels_fast arr I J pixel_count m a = Ok (cnt, m') →
  unlisted I J r c →
  entry m' r c = entry m r c.
Proof using same_length I_nonneg J_nonneg.
  intros H Hun.
  pose proof (scan_pixels_frame arr (Z.to_nat pixel_count) 0 (scan_init m)
                r c Hun) as Hscan.
  change (Scan.visibility_map (scan_init m)) with m in Hscan.
  destruct (evaluator_cases _ _ _ _ _ _ _ _ H)
    as [(st & Hst & Hend)|(_ & e & Hst)]; rewrite Hst in Hscan.
  - destruct Hend as [[Hd _]|[_ ->]]; [|done].
    rewrite <- Hscan. by apply (debug_write_frame _ _ _ _ _ _ Hd).
  - done.
Qed.

(** What every call of the evaluator keeps of a grid [m0]: its shape and
    the cells that are not listed. *)
Lemma evaluator_keeps_grid (m0 : list (list float)) arr pixel_count m a cnt m' :
  shape m = shape m0 ∧ (∀ r c, unlisted I J r c → entry m r c = entry m0 r c) →
  update_visible_pixels_fast arr I J pixel_count m a = Ok (cnt, m') →
  shape m' = shape m0 ∧ (∀ r c, unlisted I J r c → entry m' r c = entry m0 r c).
Proof using same_length I_nonneg J_nonneg.
  intros [Hshape Hframe] H.
  pose proof (scan_pixels_count arr I J (Z.to_nat pixel_count) 0
                (scan_init m) ltac:(lia)) as Hcount.
  assert (Hscan : ∀ r c, unlisted I J r c →
            match scan_pixels arr I J (Z.to_nat pixel_count) 0 (scan_init m)
            with
            | Scanned st_end => entry (Scan.visibility_map st_end) r c
                                = entry m r c
            | Faulted _ mf => entry mf r c = entry m r c
            end).
  { intros r c Hun.
    apply (scan_pixels_frame arr (Z.to_nat pixel_count) 0 (scan_init m)
             r c Hun). }
  destruct (evaluator_cases _ _ _ _ _ _ _ _ H)
    as [(st & Hst & Hend)|(_ & e & Hst)]; rewrite Hst in Hcount, Hscan;
    simpl in Hcount.
  - destruct Hcount as (_ & _ & Hsh).
    destruct Hend as [[Hd _]|[_ ->]].
    + split; [apply debug_write_shape in Hd; congruence|].
      intros r c Hun.
      rewrite (debug_write_frame _ _ _ _ _ _ Hd Hun), (Hscan r c Hun). auto.
    + split; [congruence|]. intros r c Hun. rewrite (Hscan r c Hun). auto.
  - split; [congruence|]. intros r c Hun. rewrite (Hscan r c Hun). auto.
Qed.

End listed_cells.

Lemma evaluator_writes_listed_cells_witness :
  entry [[0%float; 7%float]] 0 0 = entry demo_grid 0 0.
Proof.
  apply (evaluator_writes_listed_cells [0] [1] eq_refl
           ltac:(repeat constructor; lia) ltac:(repeat constructor; lia)
           demo_line 3 demo_grid 7 1 [[0%float; 7%float]] 0%nat 0%nat).
  - vm_compute. reflexivity.
  - intros [|[|i]] row col HI HJ; try discriminate.
    injection HI as <-. injection HJ as <-. discriminate.
Defined.

(** ** The grid through a whole sweep *)

Section sweep_grid.
Variables (viewpoint : list Z) (perimeter : list (list Z)) (angles : list float).
Variables (add_events center_events remove_events : list float).
Variable arg_center : list Z.
Variable coord : list (list Z).
Variables (distances offset_visibility visibility : list float).

Lemma center_body_grid ln st st' :
  center_body arg_center distances offset_visibility visibility ln st = Ok st' →
  Sweep.visibility_map st' = Sweep.visibility_map st.
Proof.
  unfold center_body. intros H.
  repeat (apply rbind_Ok_inv in H as (? & _ & H)).
  by injection H as <-.
Qed.

Lemma remove_body_grid ln st st' :
  remove_body distances ln st = Ok st' →
  Sweep.visibility_map st' = Sweep.visibility_map st.
Proof.
  unfold remove_body. intros H.
  repeat (apply rbind_Ok_inv in H as (? & _ & H)).
  by injection H as <-.
Qed.

Lemma add_body_grid ln st st' :
  add_body angles distances offset_visibility visibility ln st = Ok st' →
  Sweep.visibility_map st' = Sweep.visibility_map st.
Proof.
  unfold add_body. intros H.
  repeat (apply rbind_Ok_inv in H as (? & _ & H)).
  by injection H as <-.
Qed.

(** A property of the grid that every call of the evaluator on the two
    rows of [coord] keeps. *)
Variable Q : list (list float) → Prop.
Hypothesis Q_evaluator : ∀ arr I J pixel_count m a cnt m',
  getitem coord 0 = Ok I → getitem coord 1 = Ok J →
  Q m →
  update_visible_pixels_fast arr I J pixel_count m a = Ok (cnt, m') →
  Q m'.

Lemma evaluate_grid a st st' :
  Q (Sweep.visibility_map st) →
  evaluate angles coord a st = Ok st' →
  Q (Sweep.visibility_map st').
Proof using Q_evaluator.
  unfold evaluate. intros HQ H.
  apply rbind_Ok_inv in H as (I & HI & H).
  apply rbind_Ok_inv in H as (J & HJ & H).
  apply rbind_Ok_inv in H as ([n m] & Hcall & H).
  injection H as <-. simpl. eauto.
Qed.

Lemma check_count_grid st st' :
  check_count st = Ok st' →
  Sweep.visibility_map st' = Sweep.visibility_map st.
Proof.
  unfold check_count. intros H.
  apply rbind_Ok_inv in H as (u & _ & H). by injection H as <-.
Qed.

Lemma sweep_prime_grid arg_min arg_max visibility_map st :
  Q visibility_map →
  sweep_prime viewpoint perimeter angles center_events arg_center coord
    distances offset_visibility visibility arg_min arg_max visibility_map
  = Ok st →
  Q (Sweep.visibility_map st).
Proof using Q_evaluator.
  unfold sweep_prime, prime_unchecked. intros HQ H.
  apply rbind_Ok_inv in H as (st2 & H & Hcheck).
  apply rbind_Ok_inv in H as (ln & _ & H).
  apply rbind_Ok_inv in H as (st1 & Hcen & H).
  rewrite (check_count_grid _ _ Hcheck).
  apply (evaluate_grid _ _ _) in H; [done|].
  apply (center_loop_invariant angles center_events arg_center distances
           offset_visibility visibility
           (λ s, Sweep.visibility_map s = visibility_map)) in Hcen;
    [by rewrite Hcen| |done].
  intros ln' s s' Hs Hbody. by rewrite (center_body_grid _ _ _ Hbody).
Qed.

Lemma sweep_step_grid st a st' :
  Q (Sweep.visibility_map st) →
  sweep_step viewpoint perimeter angles add_events remove_events coord
    distances offset_visibility visibility st a = Ok st' →
  Q (Sweep.visibility_map st').
Proof using Q_evaluator.
  unfold sweep_step, sweep_step_unchecked. intros HQ H.
  apply rbind_Ok_inv in H as (st4 & H & Hcheck).
  apply rbind_Ok_inv in H as (ln1 & _ & H).
  apply rbind_Ok_inv in H as (st1 & Hrem & H).
  apply rbind_Ok_inv in H as (ln2 & _ & H).
  apply rbind_Ok_inv in H as (st2 & Hadd & H).
  rewrite (check_count_grid _ _ Hcheck).
  apply (evaluate_grid _ _ _) in H; [done|].
  apply (remove_loop_invariant angles remove_events distances
           (λ s, Sweep.visibility_map s = Sweep.visibility_map st)) in Hrem;
    [| |done].
  - apply (add_loop_invariant angles add_events distances offset_visibility
             visibility
             (λ s, Sweep.visibility_map s = Sweep.visibility_map st)) in Hadd;
      [by rewrite Hadd| |done].
    intros ln' s s' Hs Hbody. by rewrite (add_body_grid _ _ _ Hbody).
  - intros ln' s s' Hs Hbody. by rewrite (remove_body_grid _ _ _ Hbody).
Qed.

Lemma sweep_through_angles_grid arg_min arg_max visibility_map out :
  Q visibility_map →
  sweep_through_angles viewpoint perimeter angles add_events center_events
    remove_events arg_center coord distances offset_visibility visibility
    arg_min arg_max visibility_map = Ok out →
  Q (Out.visibility_map out).
Proof using Q_evaluator.
  unfold sweep_through_angles, sweep_loop. intros HQ H.
  apply rbind_Ok_inv in H as (st1 & Hprime & H).
  apply rbind_Ok_inv in H as (st2 & Hloop & H).
  injection H as <-. simpl.
  apply sweep_prime_grid in Hprime; [|done].
  revert Hprime Hloop. generalize 0 as first. generalize st1 as st.
  induction (Z.to_nat (angle_count angles - 2)) as [|n IH];
    intros st first HQst Hloop; simpl in Hloop.
  - by injection Hloop as <-.
  - apply rbind_Ok_inv in Hloop as (st' & Hstep & Hloop).
    eauto using sweep_step_grid.
Qed.

End sweep_grid.

(** X7: A sweep that returns gives back a grid of the shape it was passed, in
    which every cell that the two rows of [coord] do not list is as the
    caller passed it. *)
Theorem sweep_writes_listed_cells viewpoint perimeter angles add_events
    center_events remove_events arg_center coord distances offset_visibility
    visibility arg_min arg_max visibility_map out I J :
  getitem coord 0 = Ok I → getitem coord 1 = Ok J →
  length I = length J →
  Forall (λ z, 0 ≤ z) I → Forall (λ z, 0 ≤ z) J →
  sweep_through_angles viewpoint perimeter angles add_events center_events
    remove_events arg_center coord distances offset_visibility visibility
    arg_min arg_max visibility_map = Ok out →
  shape (Out.visibility_map out) = shape visibility_map
  ∧ ∀ r c, unlisted I J r c →
      entry (Out.visibility_map out) r c = entry visibility_map r c.
Proof.
  intros HI HJ Hlen HIn HJn H.
  apply (sweep_through_angles_grid viewpoint perimeter angles add_events
           center_events remove_events arg_center coord distances
           offset_visibility visibility
           (λ m, shape m = shape visibility_map
                 ∧ ∀ r c, unlisted I J r c →
                     entry m r c = entry visibility_map r c)) in H;
    [done| |done].
  intros arr I' J' n m a cnt m' HI' HJ' HQ Hcall.
  assert (I' = I) as -> by congruence.
  assert (J' = J) as -> by congruence.
  by apply (evaluator_keeps_grid I J Hlen HIn HJn _ _ _ _ _ _ _ HQ Hcall).
Qed.

(** ** What the classifier lists *)

Lemma visited_cells_NoDup (array_rows array_cols : Z) (max_dist_sq : float)
    (viewpoint_row viewpoint_col : Z) :
  NoDup (visited_cells array_rows array_cols max_dist_sq
           viewpoint_row viewpoint_col).
Proof.
  unfold visited_cells. apply NoDup_bind; [| |apply NoDup_seqZ].
  - intros r1 r2 [row col] _ _ H1 H2.
    apply list_elem_of_bind in H1 as (c1 & H1 & _).
    apply list_elem_of_bind in H2 as (c2 & H2 & _).
    destruct (cell_skipped _ _ _ r1 c1); [by apply elem_of_nil in H1|].
    destruct (cell_skipped _ _ _ r2 c2); [by apply elem_of_nil in H2|].
    apply list_elem_of_singleton in H1, H2. congruence.
  - intros r _. apply NoDup_bind; [| |apply NoDup_seqZ].
    + intros c1 c2 [row col] _ _ H1 H2.
      destruct (cell_skipped _ _ _ r c1); [by apply elem_of_nil in H1|].
      destruct (cell_skipped _ _ _ r c2); [by apply elem_of_nil in H2|].
      apply list_elem_of_singleton in H1, H2. congruence.
    + intros c _. destruct (cell_skipped _ _ _ r c); [apply NoDup_nil_2|].
      apply NoDup_singleton.
Qed.

Lemma seqZ_sorted (m n : Z) : StronglySorted Z.lt (seqZ m n).
Proof.
  destruct (decide (n ≤ 0)) as [Hn|Hn]; [rewrite seqZ_nil by done; constructor|].
  rewrite <- (Z2Nat.id n) by lia. generalize (Z.to_nat n). clear n Hn.
  intros k. revert m. induction k as [|k IH]; intros m.
  - rewrite seqZ_nil by done. constructor.
  - rewrite seqZ_cons by lia.
    replace (Z.pred (Z.of_nat (S k))) with (Z.of_nat k) by lia.
    constructor; [apply IH|]. apply Forall_seqZ. lia.
Qed.

Lemma bind_sorted {A B} (R1 : relation A) (R2 : relation B) (f : A → list B)
    (l : list A) :
  StronglySorted R1 l →
  (∀ x, x ∈ l → StronglySorted R2 (f x)) →
  (∀ x y a b, R1 x y → a ∈ f x → b ∈ f y → R2 a b) →
  StronglySorted R2 (l ≫= f).
Proof.
  intros Hl Hf Hcross. induction Hl as [|x l Hl IH Hx]; [constructor|].
  change ((x :: l) ≫= f) with (f x ++ (l ≫= f)).
  apply StronglySorted_app_2.
  - intros a b Ha Hb. apply list_elem_of_bind in Hb as (y & Hb & Hy).
    apply (Hcross x y); [|done|done].
    rewrite Forall_forall in Hx. by apply Hx.
  - apply Hf. apply list_elem_of_here.
  - apply IH. intros y Hy. apply Hf. by apply list_elem_of_further.
Qed.

Lemma sorted_lookup {A} (R : relation A) (l : list A) (i j : nat) a b :
  StronglySorted R l → (i < j)%nat →
  l !! i = Some a → l !! j = Some b → R a b.
Proof.
  intros Hl. revert i j. induction Hl as [|x l Hl IH Hx]; intros i j Hij Ha Hb.
  - discriminate.
  - destruct j as [|j]; [lia|]. simpl in Hb. destruct i as [|i].
    + injection Ha as <-. rewrite Forall_forall in Hx. apply Hx.
      by apply (list_elem_of_lookup_2 _ j).
    + apply (IH i j); [lia|done|done].
Qed.

(** The kept cells come in row-major order. *)
Lemma visited_cells_sorted (array_rows array_cols : Z) (max_dist_sq : float)
    (viewpoint_row viewpoint_col : Z) :
  StronglySorted row_major
    (visited_cells array_rows array_cols max_dist_sq
       viewpoint_row viewpoint_col).
Proof.
  unfold visited_cells.
  apply (bind_sorted Z.lt); [apply seqZ_sorted| |].
  - intros row _. apply (bind_sorted Z.lt); [apply seqZ_sorted| |].
    + intros col _. destruct (cell_skipped _ _ _ row col); repeat constructor.
    + intros c1 c2 a b Hc Ha Hb.
      destruct (cell_skipped _ _ _ row c1); [by apply elem_of_nil in Ha|].
      destruct (cell_skipped _ _ _ row c2); [by apply elem_of_nil in Hb|].
      apply list_elem_of_singleton in Ha as ->, Hb as ->.
      right. by split.
  - intros r1 r2 a b Hr Ha Hb.
    apply list_elem_of_bind in Ha as (c1 & Ha & _).
    apply list_elem_of_bind in Hb as (c2 & Hb & _).
    destruct (cell_skipped _ _ _ r1 c1); [by apply elem_of_nil in Ha|].
    destruct (cell_skipped _ _ _ r2 c2); [by apply elem_of_nil in Hb|].
    apply list_elem_of_singleton in Ha as ->, Hb as ->. by left.
Qed.

Lemma fill_arrays_lengths (atan2 : float → float → float)
    (viewpoint_row viewpoint_col : Z) (cells : list (Z * Z))
    min_angles angles max_angles (Is Js : list Z) :
  fill_arrays atan2 viewpoint_row viewpoint_col cells
  = Ok (min_angles, angles, max_angles, Is, Js) →
  length Is = length cells ∧ length Js = length cells.
Proof.
  revert min_angles angles max_angles Is Js.
  induction cells as [|[row col] rest IH];
    intros min_angles angles max_angles Is Js H; simpl in H.
  - by injection H as <- <- <- <- <-.
  - apply rbind_Ok_inv in H as ([[mn a] mx] & _ & H).
    apply rbind_Ok_inv in H as ([[[[mns as_] mxs] Is'] Js'] & Hrest & H).
    injection H as <- <- <- <- <-.
    destruct (IH _ _ _ _ _ Hrest) as [H1 H2].
    simpl. by rewrite H1, H2.
Qed.

Lemma cell_skipped_viewpoint (max_dist_sq : float) (viewpoint_row viewpoint_col : Z) :
  cell_skipped max_dist_sq viewpoint_row viewpoint_col
    viewpoint_row viewpoint_col = true.
Proof.
  unfold cell_skipped. rewrite !Z.eqb_refl. apply orb_true_r.
Qed.

(** What a returning call lists, index by index: cells of the grid other
    than the viewpoint, each once. *)
Lemma classifier_cells (atan2 pow : float → float → float)
    (rows cols vr vc : Z) (max_dist : pynum)
    min_angles angles max_angles (Is Js : list Z) :
  list_extreme_cell_angles atan2 pow (rows, cols) (vr, vc) max_dist
  = Ok (min_angles, angles, max_angles, Is, Js) →
  length Is = length Js
  ∧ Forall (λ z, 0 ≤ z) Is ∧ Forall (λ z, 0 ≤ z) Js
  ∧ NoDup (zip Is Js)
  ∧ ∀ (i : nat) row col, Is !! i = Some row → Js !! i = Some col →
      0 ≤ row < rows ∧ 0 ≤ col < cols ∧ (row, col) ≠ (vr, vc).
Proof.
  intros H. apply list_extreme_cell_angles_inv in H as (q & _ & _ & _ & H).
  destruct (fill_arrays_lengths _ _ _ _ _ _ _ _ _ H) as [HIs HJs].
  destruct (fill_arrays_coords _ _ _ _ _ _ _ _ _ H) as (Hzip & _).
  assert (Hcell : ∀ (i : nat) row col,
            Is !! i = Some row → Js !! i = Some col →
            0 ≤ row < rows ∧ 0 ≤ col < cols ∧ (row, col) ≠ (vr, vc)).
  { intros i row col HI HJ.
    assert (Hin : (row, col) ∈ visited_cells rows cols q vr vc).
    { rewrite <- Hzip. apply (list_elem_of_lookup_2 _ i).
      by apply lookup_zip_Some. }
    apply visited_cells_spec in Hin as (Hr & Hc & Hskip).
    split; [done|]. split; [done|]. intros [= -> ->].
    by rewrite cell_skipped_viewpoint in Hskip. }
  split; [congruence|]. split; [|split; [|split; [|done]]].
  - apply Forall_lookup. intros i row HI.
    destruct (lookup_lt_is_Some_2 Js i) as [col HJ].
    { rewrite HJs, <- HIs. by eapply lookup_lt_Some. }
    by destruct (Hcell i row col HI HJ) as ([? _] & _).
  - apply Forall_lookup. intros i col HJ.
    destruct (lookup_lt_is_Some_2 Is i) as [row HI].
    { rewrite HIs, <- HJs. by eapply lookup_lt_Some. }
    by destruct (Hcell i row col HI HJ) as (_ & [? _] & _).
  - rewrite Hzip. apply visited_cells_NoDup.
Qed.

(** X14: Whatever [atan2] and [pow] return, a call of the classifier that
    returns gives five arrays of one length.  The coordinate arrays list
    cells of the grid, never the viewpoint, in row-major order: a cell is
    listed at most once, and a cell listed later is in a later row, or in
    the same row and a later column. *)
Theorem classifier_lists_each_cell_once (atan2 pow : float → float → float)
    (rows cols vr vc : Z) (max_dist : pynum)
    min_angles angles max_angles (Is Js : list Z) :
  list_extreme_cell_angles atan2 pow (rows, cols) (vr, vc) max_dist
  = Ok (min_angles, angles, max_angles, Is, Js) →
  length Js = length Is
  ∧ length min_angles = length Is
  ∧ length angles = length Is
  ∧ length max_angles = length Is
  ∧ NoDup (zip Is Js)
  ∧ (∀ row col, (row, col) ∈ zip Is Js →
       0 ≤ row < rows ∧ 0 ≤ col < cols ∧ (row, col) ≠ (vr, vc))
  ∧ (∀ (i j : nat) row col row' col', (i < j)%nat →
       Is !! i = Some row → Js !! i = Some col →
       Is !! j = Some row' → Js !! j = Some col' →
       row < row' ∨ (row = row' ∧ col < col')).
Proof.
  intros H. apply list_extreme_cell_angles_inv in H as (q & _ & _ & _ & H).
  destruct (fill_arrays_lengths _ _ _ _ _ _ _ _ _ H) as [HIs HJs].
  destruct (fill_arrays_coords _ _ _ _ _ _ _ _ _ H) as (Hzip & H1 & H2 & H3).
  split; [congruence|]. split; [congruence|]. split; [congruence|].
  split; [congruence|]. rewrite Hzip.
  split; [apply visited_cells_NoDup|]. split.
  - intros row col Hin. apply visited_cells_spec in Hin as (Hr & Hc & Hskip).
    split; [done|]. split; [done|]. intros [= -> ->].
    by rewrite cell_skipped_viewpoint in Hskip.
  - intros i j row col row' col' Hij HIi HJi HIj HJj.
    apply (sorted_lookup row_major (zip Is Js) i j (row, col) (row', col'));
      [|done| |].
    + rewrite Hzip. apply visited_cells_sorted.
    + by apply lookup_zip_Some.
    + by apply lookup_zip_Some.
Qed.

Lemma classifier_lists_each_cell_once_witness :
  NoDup (zip [0; 0; 0; 1; 1; 1; 2; 2; 2; 3] [1; 2; 3; 0; 1; 2; 0; 1; 2; 0]).
Proof.
  apply (classifier_lists_each_cell_once sampled_atan2 (λ x _, x) 8 8 0 0
           (PyInt 3)
           corner8_min_angles corner8_center_angles corner8_max_angles
           [0; 0; 0; 1; 1; 1; 2; 2; 2; 3] [1; 2; 3; 0; 1; 2; 0; 1; 2; 0]).
  apply corner8_records.
Defined.

Lemma sweep_writes_listed_cells_witness :
  shape flat5_result = shape flat5_grid.
Proof.
  apply (sweep_writes_listed_cells flat5_viewpoint flat5_perimeter
           flat5_angles flat5_add_events flat5_center_events
           flat5_remove_events flat5_arg_center flat5_coord flat5_distances
           flat5_zeros flat5_zeros flat5_arg_min flat5_arg_max flat5_grid
           (Out.mk flat5_result (replicate 23 0 ++ [13])
              (replicate 22 0 ++ [17; 18]))
           flat5_rows flat5_cols).
  - reflexivity.
  - reflexivity.
  - reflexivity.
  - repeat constructor; lia.
  - repeat constructor; lia.
  - vm_compute. reflexivity.
Defined.

(** X8: The classifier and the sweep together: when the two coordinate arrays
    of the sweep are those that the classifier returned for a viewpoint,
    a sweep that returns leaves the cell of the viewpoint as the caller
    passed it. *)
Theorem sweep_keeps_viewpoint_cell (atan2 pow : float → float → float)
    (array_shape viewpoint_coords : Z * Z) (max_dist : pynum)
    min_angles center_angles max_angles (Is Js : list Z)
    viewpoint perimeter angles add_events center_events remove_events
    arg_center distances offset_visibility visibility arg_min arg_max
    visibility_map out :
  0 ≤ viewpoint_coords.1 ≤ INT_MAX →
  0 ≤ viewpoint_coords.2 ≤ INT_MAX →
  list_extreme_cell_angles atan2 pow array_shape viewpoint_coords max_dist
  = Ok (min_angles, center_angles, max_angles, Is, Js) →
  sweep_through_angles viewpoint perimeter angles add_events center_events
    remove_events arg_center [Is; Js] distances offset_visibility visibility
    arg_min arg_max visibility_map = Ok out →
  entry (Out.visibility_map out)
    (Z.to_nat viewpoint_coords.1) (Z.to_nat viewpoint_coords.2)
  = entry visibility_map
      (Z.to_nat viewpoint_coords.1) (Z.to_nat viewpoint_coords.2).
Proof.
  destruct array_shape as [rows cols], viewpoint_coords as [vr vc].
  cbn [fst snd]. intros Hrow Hcol Hcls Hsweep.
  destruct (classifier_cells _ _ _ _ _ _ _ _ _ _ _ _ Hcls)
    as (Hlen & HIs & HJs & _ & Hcell).
  apply (sweep_through_angles_grid viewpoint perimeter angles add_events
           center_events remove_events arg_center [Is; Js] distances
           offset_visibility visibility
           (λ m, shape m = shape visibility_map
                 ∧ ∀ r c, unlisted Is Js r c →
                     entry m r c = entry visibility_map r c)) in Hsweep;
    [|intros arr I J n m a cnt m' [= <-] [= <-];
      by apply (evaluator_keeps_grid Is Js Hlen HIs HJs)|done].
  apply Hsweep. intros i row col HI HJ Heq.
  destruct (Hcell i row col HI HJ) as ([Hr _] & [Hc _] & Hne).
  injection Heq as Heq1 Heq2. apply Hne. f_equal; lia.
Qed.

Lemma sweep_keeps_viewpoint_cell_witness :
  entry flat5_result (Z.to_nat (2, 2).1) (Z.to_nat (2, 2).2)
  = entry flat5_grid (Z.to_nat (2, 2).1) (Z.to_nat (2, 2).2).
Proof.
  apply (sweep_keeps_viewpoint_cell sampled_atan2 (λ x _, x) (5, 5) (2, 2)
           (PyInt (-1))
           flat5_add_events flat5_center_events flat5_remove_events
           flat5_rows flat5_cols
           flat5_viewpoint flat5_perimeter flat5_angles flat5_add_events
           flat5_center_events flat5_remove_events flat5_arg_center
           flat5_distances flat5_zeros flat5_zeros flat5_arg_min flat5_arg_max
           flat5_grid
           (Out.mk flat5_result (replicate 23 0 ++ [13])
              (replicate 22 0 ++ [17; 18]))).
  - vm_compute. split; discriminate.
  - vm_compute. split; discriminate.
  - vm_compute. reflexivity.
  - vm_compute. reflexivity.
Defined.

(** ** The values that the evaluator writes *)

Lemma scanned_entry_refl arr m : scanned_entry arr m m.
Proof. intros r c x Hx. exists x. by split; [|left]. Qed.

Lemma scanned_entry_trans arr m1 m2 m3 :
  scanned_entry arr m1 m2 →
  (∀ r c y, getitem2 m2 r c = Ok y →
     ∃ z, getitem2 m3 r c = Ok z
          ∧ (z = y ∨ (PrimFloat.eqb y 0 = true ∧ computed_visibility arr z))) →
  scanned_entry arr m1 m3.
Proof.
  intros H12 H23 r c x Hx.
  destruct (H12 r c x Hx) as (y & Hy & Hxy).
  destruct (H23 r c y Hy) as (z & Hz & Hyz).
  exists z. split; [done|].
  destruct Hyz as [->|[Hy0 Hc]]; [done|].
  destruct Hxy as [->|[Hx0 _]]; right; by split.
Qed.

Lemma visit_pixel_values arr I J p pixel_id st st' :
  p ∈ arr → ActivePixel.is_active p = true →
  running_maximum arr (Scan.max_visibility st) →
  visit_pixel I J p pixel_id st = Ok st' →
  running_maximum arr (Scan.max_visibility st')
  ∧ scanned_entry arr (Scan.visibility_map st) (Scan.visibility_map st').
Proof.
  intros Hp Hact Hmax Hv.
  destruct (visit_pixel_grid _ _ _ _ _ _ Hv)
    as (row & col & old & _ & _ & _ & _ & _ & Hother).
  destruct (visit_pixel_inv _ _ _ _ _ _ Hv)
    as (row' & col' & old' & m' & _ & _ & _ & _ & Hst').
  split.
  - rewrite Hst'. simpl.
    destruct (PrimFloat.ltb _ _); [|done]. right. by exists p.
  - intros r c x Hx. destruct (Hother r c x Hx) as [Hsame|[Hz Hnew]].
    + exists x. by split; [|left].
    + exists (Scan.visibility st'). split; [done|]. right. split; [done|].
      exists p, (Scan.max_visibility st). rewrite Hst'. by simpl.
Qed.

Lemma scan_pixels_values arr I J n pixel_id st :
  running_maximum arr (Scan.max_visibility st) →
  match scan_pixels arr I J n pixel_id st with
  | Scanned st_end =>
      scanned_entry arr (Scan.visibility_map st) (Scan.visibility_map st_end)
  | Faulted _ m => scanned_entry arr (Scan.visibility_map st) m
  end.
Proof.
  revert pixel_id st. induction n as [|n IH]; intros pixel_id st Hmax.
  - apply scanned_entry_refl.
  - cbn [scan_pixels].
    destruct (ptr_read arr pixel_id) as [p|e] eqn:Hp;
      [|apply scanned_entry_refl].
    apply ptr_read_lookup in Hp as [_ Hp].
    apply list_elem_of_lookup_2 in Hp.
    destruct (ActivePixel.is_active p) eqn:Hact; cbn [negb].
    + destruct (visit_pixel I J p pixel_id st) as [st1|e] eqn:Hv;
        [|apply scanned_entry_refl].
      destruct (visit_pixel_values _ _ _ _ _ _ _ Hp Hact Hmax Hv)
        as [Hmax1 Hstep].
      specialize (IH (pixel_id + 1) st1 Hmax1).
      destruct (scan_pixels arr I J n (pixel_id + 1) st1);
        by apply (scanned_entry_trans _ _ _ _ Hstep).
    + destruct (2 <? pixel_id - Scan.last_active_pixel st);
        [apply scanned_entry_refl|]. by apply IH.
Qed.

(** X6: Every entry of the grid that the evaluator returns is the entry that
    the caller passed, or the step number [a] of line 899, or, where the
    caller's entry was 0, the offset of an active pixel of the line minus
    a running maximum, which is -1000000 or the visibility field of an
    active pixel of the line. *)
Theorem evaluator_written_values arr I J pixel_count m a cnt m' r c x :
  update_visible_pixels_fast arr I J pixel_count m a = Ok (cnt, m') →
  getitem2 m r c = Ok x →
  ∃ y, getitem2 m' r c = Ok y
       ∧ (y = x ∨ y = of_Z a
          ∨ (PrimFloat.eqb x 0 = true ∧ computed_visibility arr y)).
Proof.
  intros H Hx.
  pose proof (scan_pixels_values arr I J (Z.to_nat pixel_count) 0
                (scan_init m) (or_introl eq_refl)) as Hscan.
  change (Scan.visibility_map (scan_init m)) with m in Hscan.
  assert (Hweak : ∀ m1, scanned_entry arr m m1 →
            ∃ y, getitem2 m1 r c = Ok y
                 ∧ (y = x ∨ y = of_Z a
                    ∨ (PrimFloat.eqb x 0 = true ∧ computed_visibility arr y))).
  { intros m1 Hm1. destruct (Hm1 r c x Hx) as (y & Hy & [Heq|Hc]);
      exists y; auto. }
  destruct (evaluator_cases _ _ _ _ _ _ _ _ H)
    as [(st & Hst & Hend)|(_ & e & Hst)]; rewrite Hst in Hscan;
    [|by apply Hweak].
  destruct Hend as [[Hd _]|[_ ->]]; [|by apply Hweak].
  destruct (Hscan r c x Hx) as (y & Hy & Hxy).
  unfold debug_write in Hd.
  apply rbind_Ok_inv in Hd as (row & _ & Hd).
  apply rbind_Ok_inv in Hd as (col & _ & Hd).
  apply setitem2_getitem2 in Hd as [_ Hd].
  destruct (Hd r c y Hy) as [Hsame|[_ Hnew]].
  - exists y. split; [done|]. destruct Hxy as [Heq|Hc]; auto.
  - exists (of_Z a). auto.
Qed.

Lemma evaluator_written_values_witness :
  ∃ y, getitem2 [[0%float; 7%float]] 0 0 = Ok y
       ∧ (y = 0%float ∨ y = of_Z 7
          ∨ (PrimFloat.eqb 0 0 = true ∧ computed_visibility demo_line y)).
Proof.
  apply (evaluator_written_values demo_line [0] [1] 3 demo_grid 7 1
           [[0%float; 7%float]] 0 0 0%float).
  - vm_compute. reflexivity.
  - reflexivity.
Defined.

(** ** A stamp of 0 protects nothing *)



(** The two passes, computed: in the first the cell (0,1) comes second
    and gets 5 - 5 = 0; in the second it comes first and gets
    5 - (-1000000). *)
Example later_pass_restamps_zero :
  update_visible_pixels_fast first_line row3_I row3_J 6 row3_grid 1
  = Ok (3, [[1000007%float; 0%float; 1%float]])
  ∧ update_visible_pixels_fast second_line row3_I row3_J 6
      [[1000007%float; 0%float; 1%float]] 2
    = Ok (2, [[1000007%float; 1000005%float; 2%float]]).
Proof. split; vm_compute; reflexivity. Qed.

(** ** [compute_distances]: where it writes and when it raises *)

Lemma getitem_beyond {A} (arr : list A) (k : nat) :
  (length arr ≤ k)%nat → getitem arr (Z.of_nat k) = Raise IndexError.
Proof.
  intros Hk. unfold getitem, norm_index.
  destruct (Z.of_nat k <? 0) eqn:Hneg; [lia|].
  destruct (_ && _) eqn:Hb; [|done].
  apply andb_prop in Hb as [H1 H2]. lia.
Qed.


Section compute_distances_run.
Variables (vi vj : Z) (cell_size : float) (I J : list Z).

Let body := compute_distances_body vi vj (PrimFloat.mul cell_size cell_size) I J.



End compute_distances_run.





(** ** The paired slot and what the events do to the active line *)

(** X10: Lines 1104 and 1148: the paired slot of [ID] is the other slot of the
    pair {2k, 2k+1} that holds [ID].  In a line with an even number of
    slots the paired slot of a slot of the line is in the line.  The
    paired slot of an even slot 2n is 2n+1: in a line of 2n+1 slots, the
    paired slot of the last one is outside. *)
Theorem alternate_pairs_slots (ID : Z) :
  alternate (alternate ID) = ID
  ∧ alternate ID ≠ ID
  ∧ alternate ID / 2 = ID / 2
  ∧ (∀ n, 0 ≤ ID < 2 * n → 0 ≤ alternate ID < 2 * n)
  ∧ (∀ n, ID = 2 * n → alternate ID = 2 * n + 1).
Proof.
  unfold alternate.
  destruct (ID / 2 * 2 =? ID) eqn:He.
  - apply Z.eqb_eq in He.
    assert (Hn : ((ID + 1) / 2 * 2 =? ID + 1) = false).
    { apply Z.eqb_neq. Z.div_mod_to_equations. lia. }
    rewrite Hn. split; [lia|]. split; [lia|].
    split; [Z.div_mod_to_equations; lia|].
    split; intros n Hn'; lia.
  - apply Z.eqb_neq in He.
    assert (Hn : ((ID - 1) / 2 * 2 =? ID - 1) = true).
    { apply Z.eqb_eq. Z.div_mod_to_equations. lia. }
    rewrite Hn. split; [lia|]. split; [lia|].
    split; [Z.div_mod_to_equations; lia|].
    split; intros n Hn'; [|subst ID; Z.div_mod_to_equations; lia].
    Z.div_mod_to_equations. lia.
Qed.

Lemma alternate_neq (ID : Z) : alternate ID ≠ ID.
Proof. unfold alternate. destruct (_ =? _); lia. Qed.

Lemma active_slots_insert arr (k : nat) p q :
  arr !! k = Some q →
  active_slots (<[k:=p]> arr)
  = active_slots arr - (if ActivePixel.is_active q then 1 else 0)
    + (if ActivePixel.is_active p then 1 else 0).
Proof.
  revert k. induction arr as [|x arr IH]; intros k Hq; [done|].
  destruct k as [|k]; simpl in Hq.
  - injection Hq as ->. simpl. rewrite !active_slots_cons. lia.
  - simpl. rewrite !active_slots_cons, (IH k Hq). lia.
Qed.

Lemma ptr_write_inv arr i p arr' :
  ptr_write arr i p = Ok arr' →
  0 ≤ i < Z.of_nat (length arr) ∧ arr' = <[Z.to_nat i:=p]> arr.
Proof.
  unfold ptr_write. destruct (_ && _) eqn:Hb; [|discriminate].
  intros [= <-]. apply andb_prop in Hb as [H1 H2]. split; [lia|done].
Qed.

Section events.
Variables (angles distances offset_visibility visibility : list float).

(** X11: A Remove event: [remove_pixel_count] goes up by one, and exactly one
    slot is written, the slot that the indexer gives for the cell or its
    paired slot; that slot is made inactive and keeps its other fields.
    The number of active slots goes down by one only when the slot was
    active. *)
Theorem remove_body_clears_one_slot ln st st' :
  remove_body distances ln st = Ok st' →
  ∃ i ID (k : nat) q,
    slot_of ln i = Ok ID
    ∧ (Z.of_nat k = ID ∨ Z.of_nat k = alternate ID)
    ∧ Sweep.active_pixel_array st !! k = Some q
    ∧ Sweep.active_pixel_array st'
      = <[k:=ActivePixel.mk false (ActivePixel.index q) (ActivePixel.distance q)
               (ActivePixel.visibility q) (ActivePixel.offset q)]>
          (Sweep.active_pixel_array st)
    ∧ active_slots (Sweep.active_pixel_array st')
      = active_slots (Sweep.active_pixel_array st)
        - (if ActivePixel.is_active q then 1 else 0)
    ∧ Sweep.remove_pixel_count st' = Sweep.remove_pixel_count st + 1.
Proof.
  unfold remove_body. intros H.
  apply rbind_Ok_inv in H as (k0 & _ & H).
  apply rbind_Ok_inv in H as (d & _ & H).
  apply rbind_Ok_inv in H as (ID & Hslot & H).
  apply rbind_Ok_inv in H as (p & _ & H).
  apply rbind_Ok_inv in H as (ID' & HID' & H).
  apply rbind_Ok_inv in H as (q & Hq & H).
  apply rbind_Ok_inv in H as (arr & Hw & H).
  apply rbind_Ok_inv in H as (arg_max' & _ & H).
  injection H as <-. simpl.
  apply ptr_read_lookup in Hq as [Hnn Hq].
  apply ptr_write_inv in Hw as [_ ->].
  exists (int32 k0), ID, (Z.to_nat ID'), q.
  split; [done|]. split.
  { rewrite Z2Nat.id by done.
    destruct (negb (ActivePixel.is_active p)).
    - injection HID' as <-. by right.
    - apply rbind_Ok_inv in HID' as (di & _ & HID').
      destruct (negb _); injection HID' as <-; [by right|by left]. }
  split; [done|]. split; [done|]. split; [|done].
  rewrite (active_slots_insert _ _ _ _ Hq). simpl. lia.
Qed.

(** X12: An Add event: [add_pixel_count] goes up by one and the new pixel is
    put, active, at the slot that the indexer gives for its cell.  When
    that slot was free nothing else changes, and the line has one more
    active slot.  When it was taken, its pixel is first copied to the
    paired slot, over what that slot held: the line has one more active
    slot only when the paired slot was free. *)
Theorem add_body_fills_slot ln st st' :
  add_body angles distances offset_visibility visibility ln st = Ok st' →
  ∃ i ID p new,
    slot_of ln i = Ok ID
    ∧ 0 ≤ ID < max_line_length angles
    ∧ Sweep.active_pixel_array st !! Z.to_nat ID = Some p
    ∧ ActivePixel.is_active new = true ∧ ActivePixel.index new = i
    ∧ Sweep.add_pixel_count st' = Sweep.add_pixel_count st + 1
    ∧ (ActivePixel.is_active p = false →
         Sweep.active_pixel_array st'
         = <[Z.to_nat ID:=new]> (Sweep.active_pixel_array st)
         ∧ active_slots (Sweep.active_pixel_array st')
           = active_slots (Sweep.active_pixel_array st) + 1)
    ∧ (ActivePixel.is_active p = true →
         ∃ q, Sweep.active_pixel_array st !! Z.to_nat (alternate ID) = Some q
           ∧ Sweep.active_pixel_array st'
             = <[Z.to_nat ID:=new]>
                 (<[Z.to_nat (alternate ID):=p]> (Sweep.active_pixel_array st))
           ∧ active_slots (Sweep.active_pixel_array st')
             = active_slots (Sweep.active_pixel_array st) + 1
               - (if ActivePixel.is_active q then 1 else 0)).
Proof.
  unfold add_body. intros H.
  apply rbind_Ok_inv in H as (k & _ & H).
  apply rbind_Ok_inv in H as (d & _ & H).
  apply rbind_Ok_inv in H as (v & _ & H).
  apply rbind_Ok_inv in H as (o & _ & H).
  apply rbind_Ok_inv in H as (ID & Hslot & H).
  apply rbind_Ok_inv in H as (p & Hp & H).
  apply rbind_Ok_inv in H as (arr1 & Hmove & H).
  apply rbind_Ok_inv in H as (u & Hassert & H).
  apply rbind_Ok_inv in H as (arr2 & Hw & H).
  apply rbind_Ok_inv in H as (arg_min' & _ & H).
  injection H as <-. simpl.
  apply assert_Ok_inv, andb_prop in Hassert as [H1 H2].
  apply ptr_read_lookup in Hp as [Hnn Hp].
  apply ptr_write_inv in Hw as [_ ->].
  exists (int32 k), ID, p, (ActivePixel.mk true (int32 k) d v o).
  split; [done|]. split; [lia|]. split; [done|]. split; [done|].
  split; [done|]. split; [done|]. split.
  - intros Hoff. rewrite Hoff in Hmove. injection Hmove as <-.
    split; [done|]. rewrite (active_slots_insert _ _ _ _ Hp), Hoff. simpl. lia.
  - intros Hon. rewrite Hon in Hmove.
    apply ptr_write_inv in Hmove as [Halt ->].
    destruct (lookup_lt_is_Some_2 (Sweep.active_pixel_array st)
                (Z.to_nat (alternate ID))) as [q Hq]; [lia|].
    exists q. split; [done|]. split; [done|].
    assert (Hne : Z.to_nat (alternate ID) ≠ Z.to_nat ID).
    { pose proof (alternate_neq ID). lia. }
    rewrite (active_slots_insert _ _ _ p);
      [|by rewrite list_lookup_insert_ne].
    rewrite (active_slots_insert _ _ _ _ Hq), Hon. simpl. lia.
Qed.

End events.

Lemma remove_body_clears_one_slot_witness :
  Sweep.remove_pixel_count
    (Sweep.mk [inactive_pixel; inactive_pixel;
               ActivePixel.mk false 0 1%float 0%float 0%float; inactive_pixel]
       [[0%float; 0%float; 0%float]] [0] [0] 0 0 1 0 0 0 1)
  = Sweep.remove_pixel_count
      (east_state [inactive_pixel; inactive_pixel; east_pixel; inactive_pixel])
    + 1.
Proof.
  destruct (remove_body_clears_one_slot [1%float] east_line
              (east_state [inactive_pixel; inactive_pixel; east_pixel;
                           inactive_pixel])
              (Sweep.mk [inactive_pixel; inactive_pixel;
                         ActivePixel.mk false 0 1%float 0%float 0%float;
                         inactive_pixel]
                 [[0%float; 0%float; 0%float]] [0] [0] 0 0 1 0 0 0 1))
    as (i & ID & k & q & _ & _ & _ & _ & _ & H).
  - vm_compute. reflexivity.
  - exact H.
Defined.

Lemma add_body_fills_slot_witness :
  Sweep.add_pixel_count
    (Sweep.mk [inactive_pixel; inactive_pixel; east_pixel; east_pixel]
       [[0%float; 0%float; 0%float]] [0] [0] 1 0 0 0 0 1 0)
  = Sweep.add_pixel_count
      (east_state [inactive_pixel; inactive_pixel; east_pixel; inactive_pixel])
    + 1.
Proof.
  destruct (add_body_fills_slot (replicate 6 0%float) [1%float] [0%float]
              [0%float] east_line
              (east_state [inactive_pixel; inactive_pixel; east_pixel;
                           inactive_pixel])
              (Sweep.mk [inactive_pixel; inactive_pixel; east_pixel; east_pixel]
                 [[0%float; 0%float; 0%float]] [0] [0] 1 0 0 0 0 1 0))
    as (i & ID & p & new & _ & _ & _ & _ & _ & H & _).
  - vm_compute. reflexivity.
  - exact H.
Defined.

(** ** [gradient2] *)

(** Reads the entry that [H] gives, at a literal index. *)
Ltac read_at H :=
  let G := fresh in
  pose proof (getitem_nat _ _ _ H) as G;
  match type of G with
  | getitem _ (Z.of_nat ?k) = _ =>
      let v := eval vm_compute in (Z.of_nat k) in
      change (Z.of_nat k) with v in G
  end;
  rewrite G; clear G.

Section gradient2_loop.
Variables U z : list float.

Lemma gradient2_body_run (s : nat) (dU : list float) :
  (1 ≤ s)%nat → (S s < length z)%nat → (S s < length U)%nat →
  (s < length dU)%nat →
  ∃ v, inner_slope U z s = Some v
       ∧ gradient2_body U z dU (Z.of_nat s) = Ok (<[s:=v]> dU).
Proof.
  intros Hs Hz HU HdU.
  destruct (lookup_lt_is_Some_2 U (S s)) as [u_next Hun]; [lia|].
  destruct (lookup_lt_is_Some_2 U s) as [u Hu]; [lia|].
  destruct (lookup_lt_is_Some_2 U (pred s)) as [u_prev Hup]; [lia|].
  destruct (lookup_lt_is_Some_2 z (S s)) as [z_next Hzn]; [lia|].
  destruct (lookup_lt_is_Some_2 z s) as [z_here Hzh]; [lia|].
  destruct (lookup_lt_is_Some_2 z (pred s)) as [z_prev Hzp]; [lia|].
  eexists. split.
  - unfold inner_slope. rewrite Hun, Hu, Hup, Hzn, Hzh, Hzp. reflexivity.
  - unfold gradient2_body.
    replace (Z.of_nat s + 1) with (Z.of_nat (S s)) by lia.
    replace (Z.of_nat s - 1) with (Z.of_nat (pred s)) by lia.
    rewrite (getitem_nat _ _ _ Hun), (getitem_nat _ _ _ Hu),
      (getitem_nat _ _ _ Hzn), (getitem_nat _ _ _ Hzh),
      (getitem_nat _ _ _ Hup), (getitem_nat _ _ _ Hzp).
    cbn [mbind result_bind rbind]. by rewrite setitem_nat.
Qed.

Lemma gradient2_loop_run (n s : nat) (dU : list float) :
  (1 ≤ s)%nat → (s + n < length z)%nat → (s + n < length U)%nat →
  (s + n ≤ length dU)%nat →
  ∃ dU', for_range (gradient2_body U z) (Z.of_nat s) n dU = Ok dU'
    ∧ length dU' = length dU
    ∧ (∀ i : nat, (s ≤ i < s + n)%nat → dU' !! i = inner_slope U z i)
    ∧ (∀ i : nat, ¬ (s ≤ i < s + n)%nat → dU' !! i = dU !! i).
Proof.
  revert s dU. induction n as [|n IH]; intros s dU Hs Hz HU HdU.
  - exists dU. split; [done|]. split; [done|]. split; [|done]. intros i Hi. lia.
  - destruct (gradient2_body_run s dU) as (v & Hv & Hbody); [lia..|].
    destruct (IH (S s) (<[s:=v]> dU)) as (dU' & Hrun & Hlen & Hin & Hout);
      [lia | lia | lia | rewrite length_insert; lia |].
    exists dU'. rewrite length_insert in Hlen.
    split; [|split; [done|split]].
    + cbn [for_range]. rewrite Hbody. cbn [mbind result_bind rbind].
      replace (Z.of_nat s + 1) with (Z.of_nat (S s)) by lia. exact Hrun.
    + intros i Hi. destruct (decide (i = s)) as [->|Hne].
      * rewrite Hout by lia. rewrite list_lookup_insert_eq by lia. done.
      * apply Hin. lia.
    + intros i Hi. rewrite Hout by lia. apply list_lookup_insert_ne. lia.
Qed.

End gradient2_loop.

Example gradient2_three_samples :
  gradient2 [1%float; 3%float; 7%float; 8%float] [0%float; 1%float; 2%float]
  = Ok [2%float; 3%float; 4%float; 0%float].
Proof. vm_compute. reflexivity. Qed.

(** Two samples at the same abscissa: infinities, and no exception. *)
Example gradient2_repeated_abscissa :
  gradient2 [1%float; 3%float] [0%float; 0%float] = Ok [infinity; infinity].
Proof. vm_compute. reflexivity. Qed.

(** X23: For at least two samples, and [U] at least as long as [z], the call
    returns an array of the length of [U]: its first entry is the slope
    between the first two samples, its entry at the last index of [z] the
    slope between the last two, every entry between them the half sum of
    the slopes on both sides, and every entry after the last index of [z]
    is [U*0]. *)
Theorem gradient2_values (U z : list float) :
  (2 ≤ length z ≤ length U)%nat →
  ∃ dU, gradient2 U z = Ok dU
    ∧ length dU = length U
    ∧ dU !! 0%nat = slope_between U z 1 0
    ∧ dU !! (length z - 1)%nat
      = slope_between U z (length z - 1) (length z - 2)
    ∧ (∀ i : nat, (1 ≤ i < length z - 1)%nat → dU !! i = inner_slope U z i)
    ∧ (∀ i : nat, (length z ≤ i)%nat →
         dU !! i = (λ u, (u * 0)%float) <$> U !! i).
Proof.
  intros Hlen. unfold gradient2.
  set (lz := length z) in *.
  destruct (lookup_lt_is_Some_2 U 1) as [u1 Hu1]; [lia|].
  destruct (lookup_lt_is_Some_2 U 0) as [u0 Hu0]; [lia|].
  destruct (lookup_lt_is_Some_2 z 1) as [z1 Hz1]; [lia|].
  destruct (lookup_lt_is_Some_2 z 0) as [z0 Hz0]; [lia|].
  destruct (lookup_lt_is_Some_2 U (lz - 1)) as [ul Hul]; [lia|].
  destruct (lookup_lt_is_Some_2 U (lz - 2)) as [up Hup]; [lia|].
  destruct (lookup_lt_is_Some_2 z (lz - 1)) as [zl Hzl]; [lia|].
  destruct (lookup_lt_is_Some_2 z (lz - 2)) as [zp Hzp]; [lia|].
  read_at Hu1. read_at Hu0. read_at Hz1. read_at Hz0.
  cbn [mbind result_bind rbind].
  rewrite (setitem_nat _ 0) by (rewrite length_map; lia).
  cbn [mbind result_bind rbind].
  set (dU0 := <[0%nat:=((u1 - u0) / (z1 - z0))%float]>
                (map (λ u, (u * 0)%float) U)).
  assert (HdU0 : length dU0 = length U).
  { unfold dU0. by rewrite length_insert, length_map. }
  destruct (gradient2_loop_run U z (lz - 2) 1 dU0)
    as (dU1 & Hrun & Hlen1 & Hin & Hout); [fold lz; lia..|].
  replace (Z.to_nat (Z.of_nat lz - 1 - 1)) with (lz - 2)%nat by lia.
  change (Z.of_nat 1) with 1 in Hrun. rewrite Hrun.
  cbn [mbind result_bind rbind].
  replace (Z.of_nat lz - 1) with (Z.of_nat (lz - 1)) by lia.
  replace (Z.of_nat lz - 2) with (Z.of_nat (lz - 2)) by lia.
  rewrite (getitem_nat _ _ _ Hul), (getitem_nat _ _ _ Hup),
    (getitem_nat _ _ _ Hzl), (getitem_nat _ _ _ Hzp).
  cbn [mbind result_bind rbind].
  rewrite setitem_nat by lia.
  eexists. split; [reflexivity|].
  split; [rewrite length_insert; congruence|].
  split; [|split; [|split]].
  - unfold slope_between. rewrite Hu1, Hu0, Hz1, Hz0. simpl.
    destruct (decide (lz - 1 = 0)%nat) as [He|Hne]; [lia|].
    rewrite list_lookup_insert_ne by lia.
    rewrite Hout by lia. unfold dU0.
    apply list_lookup_insert_eq. rewrite length_map. lia.
  - unfold slope_between. rewrite Hul, Hup, Hzl, Hzp. simpl.
    apply list_lookup_insert_eq. lia.
  - intros i Hi. rewrite list_lookup_insert_ne by lia. apply Hin. lia.
  - intros i Hi. rewrite list_lookup_insert_ne by lia.
    rewrite Hout by lia. unfold dU0.
    rewrite list_lookup_insert_ne by lia. apply list_lookup_fmap.
Qed.

Lemma gradient2_values_witness :
  ∃ dU, gradient2 [1%float; 3%float; 7%float] [0%float; 1%float; 2%float]
        = Ok dU
    ∧ length dU = 3%nat.
Proof.
  destruct (gradient2_values [1%float; 3%float; 7%float]
              [0%float; 1%float; 2%float])
    as (dU & Hrun & Hlen & _); [simpl; lia|].
  exists dU. split; assumption.
Defined.

(** X24: With fewer than two samples in [z], or with [U] shorter than [z], the
    call raises an IndexError. *)
Theorem gradient2_index_error (U z : list float) :
  ¬ (2 ≤ length z ≤ length U)%nat →
  gradient2 U z = Raise IndexError.
Proof.
  intros Hlen. unfold gradient2.
  destruct (decide (length U ≤ 1)%nat) as [HU|HU].
  { pose proof (getitem_beyond U 1 HU) as G.
    change (Z.of_nat 1) with 1 in G. by rewrite G. }
  destruct (lookup_lt_is_Some_2 U 1) as [u1 Hu1]; [lia|].
  destruct (lookup_lt_is_Some_2 U 0) as [u0 Hu0]; [lia|].
  read_at Hu1. read_at Hu0.
  cbn [mbind result_bind rbind].
  destruct (decide (length z ≤ 1)%nat) as [Hz|Hz].
  { pose proof (getitem_beyond z 1 Hz) as G.
    change (Z.of_nat 1) with 1 in G. by rewrite G. }
  destruct (lookup_lt_is_Some_2 z 1) as [z1 Hz1]; [lia|].
  destruct (lookup_lt_is_Some_2 z 0) as [z0 Hz0]; [lia|].
  read_at Hz1. read_at Hz0.
  cbn [mbind result_bind rbind].
  rewrite (setitem_nat _ 0) by (rewrite length_map; lia).
  cbn [mbind result_bind rbind].
  set (dU0 := <[0%nat:=((u1 - u0) / (z1 - z0))%float]>
                (map (λ u, (u * 0)%float) U)).
  assert (HdU0 : length dU0 = length U).
  { unfold dU0. by rewrite length_insert, length_map. }
  set (k := (length U - 2)%nat).
  destruct (gradient2_loop_run U z k 1 dU0)
    as (dU1 & Hrun & Hlen1 & _); [lia..|].
  assert (Hk : (k < Z.to_nat (Z.of_nat (length z) - 1 - 1))%nat) by lia.
  change (Z.of_nat 1) with 1 in Hrun.
  rewrite (for_range_abort _ _ k 1 dU0 dU1 IndexError Hk Hrun); [done|].
  unfold gradient2_body.
  replace (1 + Z.of_nat k + 1) with (Z.of_nat (length U)) by lia.
  by rewrite (getitem_beyond U (length U)).
Qed.

Lemma gradient2_index_error_witness :
  gradient2 [1%float; 3%float] [0%float; 1%float; 2%float] = Raise IndexError.
Proof.
  apply (gradient2_index_error [1%float; 3%float]
           [0%float; 1%float; 2%float]).
  simpl. lia.
Defined.

(** ** [polynomial] and [logarithmic] *)


Section valuation_loop.
Variables (near far : float → float) (max_valuation_radius : Z).
Variables (I J : list Z) (distance : list float) (mask : list (list float)).

Let body := valuation_body near far max_valuation_radius I J distance mask.


Hypothesis cells_distinct : NoDup (zip I J).
Hypothesis I_nonneg : Forall (λ z, 0 ≤ z) I.
Hypothesis J_nonneg : Forall (λ z, 0 ≤ z) J.


Hypothesis J_length : (length I ≤ length J)%nat.
Hypothesis distance_length : (length I ≤ length distance)%nat.
Hypothesis cells_masked : ∀ (i : nat) row col,
  I !! i = Some row → J !! i = Some col →
  is_Some (entry mask (Z.to_nat row) (Z.to_nat col)).



End valuation_loop.

(** With a = 1, b = 2 and coeff = 1 the tangent is 2001 - 2 * (1000 - x):
    the cell (0,0), at distance 500, receives 1001; the cell (0,1) is
    masked out. *)
Example polynomial_tangent_sample :
  polynomial (λ x _, x) 1 2 0 0 100 0 0 1 1 [0; 0] [0; 1]
    [500%float; 500%float] [[1%float; 0%float]] [[10%float; 10%float]]
  = Ok [[1011%float; 10%float]].
Proof. vm_compute. reflexivity. Qed.









(** ** Doubles of integers *)

(** A finite double minus itself is +0. *)
Lemma sub_self (x : float) :
  finite x = true → Prim2SF (x - x) = S754_zero false.
Proof.
  unfold finite. rewrite sub_spec.
  destruct (Prim2SF x) as [s|s| |s m e]; try discriminate; intros _.
  - by destruct s.
  - unfold SF64sub, SFsub. rewrite Z.sub_diag. reflexivity.
Qed.

Lemma sub_self_eqb (x : float) :
  finite x = true → PrimFloat.eqb (x - x) 0 = true.
Proof.
  intros H. rewrite FloatAxioms.eqb_spec, (sub_self x H). reflexivity.
Qed.

Lemma digits2_pos_bounds (m : positive) :
  2 ^ (Z.pos (digits2_pos m) - 1) ≤ Z.pos m < 2 ^ Z.pos (digits2_pos m).
Proof.
  induction m as [m IH|m IH|]; simpl digits2_pos.
  - rewrite Pos2Z.inj_succ, (Pos2Z.inj_xI m).
    replace (Z.succ (Z.pos (digits2_pos m)) - 1)
      with (Z.succ (Z.pos (digits2_pos m) - 1)) by lia.
    rewrite !Z.pow_succ_r by lia.
    revert IH. generalize (2 ^ (Z.pos (digits2_pos m) - 1)).
    generalize (2 ^ Z.pos (digits2_pos m)). intros hi lo [H1 H2]. lia.
  - rewrite Pos2Z.inj_succ, (Pos2Z.inj_xO m).
    replace (Z.succ (Z.pos (digits2_pos m)) - 1)
      with (Z.succ (Z.pos (digits2_pos m) - 1)) by lia.
    rewrite !Z.pow_succ_r by lia.
    revert IH. generalize (2 ^ (Z.pos (digits2_pos m) - 1)).
    generalize (2 ^ Z.pos (digits2_pos m)). intros hi lo [H1 H2]. lia.
  - simpl. lia.
Qed.

Lemma iter_xO_value (m k : positive) :
  Z.pos (Pos.iter xO m k) = Z.pos m * 2 ^ Z.pos k.
Proof.
  induction k as [|k IH] using Pos.peano_ind.
  - simpl. lia.
  - rewrite Pos.iter_succ, (Pos2Z.inj_xO (Pos.iter xO m k)), IH,
      Pos2Z.inj_succ, Z.pow_succ_r by lia.
    lia.
Qed.

Lemma iter_xO_digits (m k : positive) :
  digits2_pos (Pos.iter xO m k) = (digits2_pos m + k)%positive.
Proof.
  induction k as [|k IH] using Pos.peano_ind.
  - simpl. lia.
  - rewrite Pos.iter_succ. simpl digits2_pos. rewrite IH. lia.
Qed.

Lemma digits2_pos_small (m : positive) :
  Z.pos m < 2 ^ 53 → Z.pos (digits2_pos m) ≤ 53.
Proof.
  intros Hm. pose proof (digits2_pos_bounds m) as [Hlo _].
  destruct (Z_le_gt_dec (Z.pos (digits2_pos m)) 53) as [|Hgt]; [done|].
  assert (2 ^ 53 ≤ 2 ^ (Z.pos (digits2_pos m) - 1))
    by (apply Z.pow_le_mono_r; lia).
  lia.
Qed.

(** The double of a positive integer below 2^53 holds it exactly, with its
    mantissa shifted to 53 bits. *)
Lemma binary_round_small (s : bool) (m : positive) :
  Z.pos m < 2 ^ 53 →
  ∃ mz, binary_round 53 1024 s m 0
        = S754_finite s mz (Z.pos (digits2_pos m) - 53)
    ∧ Z.pos mz = Z.pos m * 2 ^ (53 - Z.pos (digits2_pos m))
    ∧ valid_binary (S754_finite s mz (Z.pos (digits2_pos m) - 53)) = true.
Proof.
  intros Hm. pose proof (digits2_pos_small m Hm) as Hd.
  set (d := Z.pos (digits2_pos m)) in *.
  assert (Hd0 : 0 < d) by (unfold d; lia).
  assert (Hfexp : ∀ e, -1000 ≤ e → fexp 53 1024 (53 + e) = e).
  { intros e He. unfold fexp, emin. lia. }
  assert (Haux : ∀ mz e, Z.pos (digits2_pos mz) = 53 → -1000 ≤ e ≤ 900 →
            binary_round_aux 53 1024 s (Z.pos mz) e loc_Exact
            = S754_finite s mz e).
  { intros mz e Hmz He.
    unfold binary_round_aux, shr_fexp. cbn [Zdigits2 shr_record_of_loc].
    rewrite Hmz, Hfexp, Z.sub_diag by lia.
    cbn [shr shr_m loc_of_shr_record round_nearest_even Zdigits2
         shr_record_of_loc].
    rewrite Hmz, Hfexp, Z.sub_diag by lia. cbn [shr shr_m].
    destruct (e <=? 1024 - 53) eqn:Hle; [done|]. lia. }
  assert (Hvalid : ∀ mz e, Z.pos (digits2_pos mz) = 53 → -1000 ≤ e ≤ 900 →
            valid_binary (S754_finite s mz e) = true).
  { intros mz e Hmz He.
    unfold SpecFloat.valid_binary, bounded, canonical_mantissa,
      FloatOps.emax, FloatOps.prec.
    rewrite Hmz, (Hfexp e) by lia.
    apply andb_true_intro. split; lia. }
  unfold binary_round, shl_align.
  replace (fexp 53 1024 (Z.pos (digits2_pos m) + 0)) with (d - 53)
    by (unfold fexp, emin; fold d; lia).
  destruct (d - 53 - 0) as [|p|p] eqn:Hp; [|lia|].
  - assert (d = 53) by lia. exists m.
    replace (d - 53) with 0 by lia.
    split; [apply Haux; [by fold d|lia]|].
    split; [replace (53 - d) with 0 by lia; lia|].
    apply Hvalid; [by fold d|lia].
  - exists (Pos.iter xO m p).
    assert (Hdig : Z.pos (digits2_pos (Pos.iter xO m p)) = 53).
    { rewrite iter_xO_digits, Pos2Z.inj_add. fold d. lia. }
    split; [apply Haux; [done|lia]|].
    split; [rewrite iter_xO_value; f_equal; f_equal; lia|].
    apply Hvalid; [done|lia].
Qed.

Lemma of_Z_pos (m : positive) :
  Z.pos m < 2 ^ 53 →
  ∃ mz, Prim2SF (of_Z (Z.pos m))
        = S754_finite false mz (Z.pos (digits2_pos m) - 53)
    ∧ Z.pos mz = Z.pos m * 2 ^ (53 - Z.pos (digits2_pos m)).
Proof.
  intros Hm. destruct (binary_round_small false m Hm) as (mz & Hr & Hv & Hok).
  exists mz. split; [|done]. unfold of_Z, binary_normalize.
  rewrite Hr. by apply Prim2SF_SF2Prim.
Qed.

Lemma of_Z_neg (m : positive) :
  Z.pos m < 2 ^ 53 →
  ∃ mz, Prim2SF (of_Z (Z.neg m))
        = S754_finite true mz (Z.pos (digits2_pos m) - 53).
Proof.
  intros Hm. destruct (binary_round_small true m Hm) as (mz & Hr & Hv & Hok).
  exists mz. unfold of_Z, binary_normalize.
  rewrite Hr. by apply Prim2SF_SF2Prim.
Qed.

Lemma of_Z_finite (z : Z) : - 2 ^ 53 < z < 2 ^ 53 → finite (of_Z z) = true.
Proof.
  intros Hz. unfold finite. destruct z as [|m|m].
  - reflexivity.
  - destruct (of_Z_pos m) as (mz & -> & _); [lia|done].
  - destruct (of_Z_neg m) as (mz & ->); [lia|done].
Qed.

(** Doubles of naturals below 2^53 compare as the naturals do. *)
Lemma of_Z_compare (a b : Z) :
  0 ≤ a < 2 ^ 53 → 0 ≤ b < 2 ^ 53 →
  SFcompare (Prim2SF (of_Z a)) (Prim2SF (of_Z b)) = Some (a ?= b).
Proof.
  intros Ha Hb. destruct a as [|ma|ma]; [| |lia]; destruct b as [|mb|mb];
    try lia.
  - reflexivity.
  - destruct (of_Z_pos mb) as (mz & Hr & _); [lia|].
    rewrite Hr. reflexivity.
  - destruct (of_Z_pos ma) as (mz & Hr & _); [lia|].
    rewrite Hr. reflexivity.
  - destruct (of_Z_pos ma) as (mza & Hra & Hva); [lia|].
    destruct (of_Z_pos mb) as (mzb & Hrb & Hvb); [lia|].
    rewrite Hra, Hrb. cbn [SFcompare]. f_equal.
    pose proof (digits2_pos_bounds ma) as [Hlo_a Hhi_a].
    pose proof (digits2_pos_bounds mb) as [Hlo_b Hhi_b].
    pose proof (digits2_pos_small ma ltac:(lia)) as Hda.
    pose proof (digits2_pos_small mb ltac:(lia)) as Hdb.
    revert Hva Hvb Hlo_a Hhi_a Hlo_b Hhi_b Hda Hdb.
    generalize (Z.pos (digits2_pos ma)) as da.
    generalize (Z.pos (digits2_pos mb)) as db.
    intros db da Hva Hvb Hlo_a Hhi_a Hlo_b Hhi_b Hda Hdb.
    destruct (Z.compare_spec (da - 53) (db - 53)) as [He|He|He].
    + assert (da = db) as -> by lia.
      change (Pos.compare_cont Eq mza mzb) with (Z.pos mza ?= Z.pos mzb).
      rewrite Hva, Hvb.
      assert (Hpow : 0 < 2 ^ (53 - db)) by (apply Z.pow_pos_nonneg; lia).
      destruct (Z.compare_spec (Z.pos ma) (Z.pos mb)) as [Hc|Hc|Hc].
      * rewrite Hc. apply Z.compare_refl.
      * apply Z.compare_lt_iff. by apply Z.mul_lt_mono_pos_r.
      * apply Z.compare_gt_iff. by apply Z.mul_lt_mono_pos_r.
    + symmetry. apply Z.compare_lt_iff.
      assert (2 ^ da ≤ 2 ^ (db - 1)) by (apply Z.pow_le_mono_r; lia). lia.
    + symmetry. apply Z.compare_gt_iff.
      assert (2 ^ db ≤ 2 ^ (da - 1)) by (apply Z.pow_le_mono_r; lia). lia.
Qed.

Lemma of_Z_ltb (a b : Z) :
  0 ≤ a < 2 ^ 53 → 0 ≤ b < 2 ^ 53 →
  PrimFloat.ltb (of_Z a) (of_Z b) = (a <? b).
Proof.
  intros Ha Hb. rewrite ltb_spec. unfold SFltb.
  rewrite (of_Z_compare a b Ha Hb). unfold Z.ltb. by destruct (a ?= b).
Qed.

(** ** The radius filter in integers *)

Lemma finite_not_infinity (x : float) :
  finite x = true → PrimFloat.is_infinity x = false.
Proof.
  unfold finite, PrimFloat.is_infinity.
  rewrite FloatAxioms.eqb_spec, abs_spec.
  destruct (Prim2SF x) as [s|s| |s m e]; try discriminate; intros _;
    reflexivity.
Qed.

Lemma radius_sq_bounds (R : Z) : R ≤ 94906265 → 0 ≤ radius_sq R < 2 ^ 53.
Proof.
  intros HR. unfold radius_sq. destruct (0 <=? R) eqn:H0; [|lia].
  rewrite Z.pow_2_r. nia.
Qed.

(** An integer [max_dist] of at most 94906265 has an exact square in
    doubles, and the conversion does not raise. *)
Lemma max_dist_sq_of_int (pow : float → float → float) (R : Z) :
  R ≤ 94906265 →
  max_dist_sq_of pow (PyInt R) = Ok (of_Z (radius_sq R)).
Proof.
  intros HR. pose proof (radius_sq_bounds R HR) as Hb.
  unfold max_dist_sq_of, radius_sq in *. destruct (0 <=? R); [|done].
  by rewrite finite_not_infinity by (apply of_Z_finite; lia).
Qed.

(** On a grid of at most 32768 rows and columns no intermediate value of
    lines 729-731 wraps around, and the comparison of line 732 is that of
    the integers. *)
Lemma cell_skipped_spec (R vr vc row col : Z) :
  R ≤ 94906265 →
  0 ≤ vr < 32768 → 0 ≤ vc < 32768 → 0 ≤ row < 32768 → 0 ≤ col < 32768 →
  cell_skipped (of_Z (radius_sq R)) vr vc row col
  = (radius_sq R <? (row - vr) ^ 2 + (col - vc) ^ 2)
    || ((row =? vr) && (col =? vc)).
Proof.
  intros HR Hvr Hvc Hrow Hcol. unfold cell_skipped.
  assert (Hsq : ∀ x, -32768 < x < 32768 → 0 ≤ x ^ 2 ≤ 1073676289).
  { intros x Hx. rewrite Z.pow_2_r. nia. }
  pose proof (Hsq (row - vr) ltac:(lia)) as Hr2.
  pose proof (Hsq (col - vc) ltac:(lia)) as Hc2.
  rewrite (int32_small (row - vr)) by (unfold INT_MIN, INT_MAX; lia).
  rewrite (int32_small (col - vc)) by (unfold INT_MIN, INT_MAX; lia).
  rewrite (int64_small ((row - vr) ^ 2)) by lia.
  rewrite (int64_small ((col - vc) ^ 2)) by lia.
  rewrite int64_small by lia.
  f_equal. apply of_Z_ltb; [|lia]. by apply radius_sq_bounds.
Qed.

(** X15: For an integer [max_dist] and a grid of at most 32768 rows and
    columns, whatever [atan2] returns, the cells that a returning call
    lists are exactly the cells of the grid, other than the viewpoint,
    whose squared distance to the viewpoint, in cells, is at most
    [max_dist] squared; a negative [max_dist] stands for the square root
    of 10^9, about 31623 cells, not for an unlimited radius. *)
Theorem classifier_radius_filter (atan2 pow : float → float → float)
    (rows cols vr vc R : Z) min_angles angles max_angles (Is Js : list Z) :
  0 ≤ rows ≤ 32768 → 0 ≤ cols ≤ 32768 →
  0 ≤ vr < 32768 → 0 ≤ vc < 32768 →
  R ≤ 94906265 →
  list_extreme_cell_angles atan2 pow (rows, cols) (vr, vc) (PyInt R)
  = Ok (min_angles, angles, max_angles, Is, Js) →
  ∀ row col,
    (row, col) ∈ zip Is Js
    ↔ 0 ≤ row < rows ∧ 0 ≤ col < cols ∧ (row, col) ≠ (vr, vc)
      ∧ (row - vr) ^ 2 + (col - vc) ^ 2 ≤ radius_sq R.
Proof.
  intros Hrows Hcols Hvr Hvc HR H row col.
  apply list_extreme_cell_angles_inv in H as (q & Hq & _ & _ & H).
  rewrite (max_dist_sq_of_int pow R HR) in Hq. injection Hq as <-.
  apply fill_arrays_coords in H as [-> _].
  rewrite visited_cells_spec. split.
  - intros (Hrow & Hcol & Hskip).
    rewrite cell_skipped_spec in Hskip by lia.
    apply orb_false_elim in Hskip as [Hd Hvp].
    split; [done|]. split; [done|]. split; [|lia].
    intros [= -> ->]. by rewrite !Z.eqb_refl in Hvp.
  - intros (Hrow & Hcol & Hne & Hd).
    split; [done|]. split; [done|].
    rewrite cell_skipped_spec by lia.
    apply orb_false_intro; [lia|].
    apply andb_false_iff.
    destruct (Z.eqb_spec row vr) as [->|]; [|by left].
    destruct (Z.eqb_spec col vc) as [->|]; [done|by right].
Qed.

Lemma classifier_radius_filter_witness :
  (1, 2) ∈ zip [0; 0; 0; 1; 1; 1; 2; 2; 2; 3] [1; 2; 3; 0; 1; 2; 0; 1; 2; 0]
  ↔ 0 ≤ 1 < 8 ∧ 0 ≤ 2 < 8 ∧ (1, 2) ≠ (0, 0)
    ∧ (1 - 0) ^ 2 + (2 - 0) ^ 2 ≤ radius_sq 3.
Proof.
  exact (classifier_radius_filter sampled_atan2 (λ x _, x) 8 8 0 0 3
           corner8_min_angles corner8_center_angles corner8_max_angles
           [0; 0; 0; 1; 1; 1; 2; 2; 2; 3] [1; 2; 3; 0; 1; 2; 0; 1; 2; 0]
           ltac:(lia) ltac:(lia) ltac:(lia) ltac:(lia) ltac:(lia)
           (corner8_records (λ x _, x)) 1 2).
Defined.

(** ** Arguments that do not fit *)

(** X25: A shape entry or a viewpoint coordinate that does not fit a C [int]
    ends the call with an OverflowError, before any cell is looked at. *)
Theorem classifier_int_overflow (atan2 pow : float → float → float)
    (rows cols vr vc R : Z) :
  R ≤ 94906265 →
  ¬ (INT_MIN ≤ rows ≤ INT_MAX ∧ INT_MIN ≤ cols ≤ INT_MAX
     ∧ INT_MIN ≤ vr ≤ INT_MAX ∧ INT_MIN ≤ vc ≤ INT_MAX) →
  list_extreme_cell_angles atan2 pow (rows, cols) (vr, vc) (PyInt R)
  = Raise OverflowError.
Proof.
  intros HR Hbad. unfold list_extreme_cell_angles.
  rewrite (max_dist_sq_of_int pow R HR). cbn [fst snd mbind result_bind rbind].
  destruct (decide (INT_MIN ≤ vr ≤ INT_MAX)) as [Hvr|Hvr];
    [rewrite (to_c_int_Ok vr Hvr)|by rewrite (to_c_int_Raise vr Hvr)].
  cbn [mbind result_bind rbind].
  destruct (decide (INT_MIN ≤ vc ≤ INT_MAX)) as [Hvc|Hvc];
    [rewrite (to_c_int_Ok vc Hvc)|by rewrite (to_c_int_Raise vc Hvc)].
  cbn [mbind result_bind rbind].
  destruct (decide (INT_MIN ≤ rows ≤ INT_MAX)) as [Hrows|Hrows];
    [rewrite (to_c_int_Ok rows Hrows)|by rewrite (to_c_int_Raise rows Hrows)].
  cbn [mbind result_bind rbind].
  destruct (decide (INT_MIN ≤ cols ≤ INT_MAX)) as [Hcols|Hcols];
    [|by rewrite (to_c_int_Raise cols Hcols)].
  by destruct Hbad.
Qed.

Lemma classifier_int_overflow_witness :
  list_extreme_cell_angles sampled_atan2 (λ x _, x) (8, 8) (0, 2 ^ 32)
    (PyInt 3)
  = Raise OverflowError.
Proof.
  apply (classifier_int_overflow sampled_atan2 (λ x _, x) 8 8 0 (2 ^ 32) 3).
  - lia.
  - unfold INT_MIN, INT_MAX. lia.
Defined.

(** So does a radius whose square is beyond the doubles. *)
Example classifier_radius_overflow (atan2 pow : float → float → float) :
  list_extreme_cell_angles atan2 pow (8, 8) (0, 0) (PyInt (2 ^ 600))
  = Raise OverflowError.
Proof. vm_compute. reflexivity. Qed.

(** An offset whose square is beyond a C [int] is squared in a C [long]:
    with a radius of 100 a viewpoint 46342 columns away from the grid
    sees no cell of it. *)
Example classifier_far_viewpoint (atan2 pow : float → float → float) :
  list_extreme_cell_angles atan2 pow (1, 2) (0, 46343) (PyInt 100)
  = Ok ([], [], [], [], []).
Proof. vm_compute. reflexivity. Qed.

(** ** Degenerate lines *)

(** X13: The slot of the origin itself is 0, whatever the end point. *)
Theorem origin_has_slot_0 (O E : float * float) :
  finite O.1 = true → finite O.2 = true →
  _active_pixel_index O O E = Ok 0.
Proof.
  intros H1 H2. unfold _active_pixel_index, index_terms.
  destruct (PrimFloat.ltb _ _); cbn [Terms.Dl Terms.Ds Z.eqb];
    unfold active_pixel_index, truthy, Terms.Ds, Terms.Dl;
    by rewrite (sub_self_eqb _ H1), (sub_self_eqb _ H2).
Qed.

Lemma origin_has_slot_0_witness :
  _active_pixel_index behind_O behind_O behind_E = Ok 0.
Proof.
  apply (origin_has_slot_0 behind_O behind_E); reflexivity.
Defined.

(** X9: The first line has its long axis along the columns, whatever the
    first perimeter point: when that point lies in the column of the
    viewpoint, the slope of line 989 is a division by zero and the call
    raises a ZeroDivisionError. *)
Theorem sweep_first_point_in_viewpoint_column
    viewpoint perimeter angles add_events center_events remove_events
    arg_center coord distances offset_visibility visibility arg_min arg_max
    visibility_map (vs vl ps : Z) :
  getitem viewpoint 0 = Ok vs → getitem viewpoint 1 = Ok vl →
  perimeter_at perimeter 0 0 = Ok ps → perimeter_at perimeter 1 0 = Ok vl →
  - 2 ^ 53 < vl < 2 ^ 53 →
  sweep_through_angles viewpoint perimeter angles add_events center_events
    remove_events arg_center coord distances offset_visibility visibility
    arg_min arg_max visibility_map = Raise ZeroDivisionError.
Proof.
  intros Hvs Hvl Hps Hpl Hbound.
  unfold sweep_through_angles, sweep_prime, prime_unchecked, line_first.
  rewrite Hvs, Hvl, Hps, Hpl. cbn [mbind result_bind rbind].
  unfold checked_div.
  by rewrite (sub_self_eqb _ (of_Z_finite vl Hbound)).
Qed.

Lemma sweep_first_point_in_viewpoint_column_witness :
  sweep_through_angles [2; 2] [[0]; [2]] flat5_angles flat5_add_events
    flat5_center_events flat5_remove_events flat5_arg_center flat5_coord
    flat5_distances flat5_zeros flat5_zeros flat5_arg_min flat5_arg_max
    flat5_grid
  = Raise ZeroDivisionError.
Proof.
  apply (sweep_first_point_in_viewpoint_column [2; 2] [[0]; [2]] flat5_angles
           flat5_add_events flat5_center_events flat5_remove_events
           flat5_arg_center flat5_coord flat5_distances flat5_zeros
           flat5_zeros flat5_arg_min flat5_arg_max flat5_grid 2 2 0);
    try reflexivity.
  lia.
Defined.

(** ** Nothing to list *)

Lemma visited_cells_nil (array_rows array_cols : Z) (max_dist_sq : float)
    (viewpoint_row viewpoint_col : Z) :
  (∀ row col, 0 ≤ row < array_rows → 0 ≤ col < array_cols →
     cell_skipped max_dist_sq viewpoint_row viewpoint_col row col = true) →
  visited_cells array_rows array_cols max_dist_sq viewpoint_row viewpoint_col
  = [].
Proof.
  intros Hskip.
  destruct (visited_cells _ _ _ _ _) as [|[row col] rest] eqn:Hcells; [done|].
  assert (Hin : (row, col) ∈ visited_cells array_rows array_cols max_dist_sq
                               viewpoint_row viewpoint_col).
  { rewrite Hcells. apply list_elem_of_here. }
  apply visited_cells_spec in Hin as (Hr & Hc & Hs).
  rewrite (Hskip row col Hr Hc) in Hs. discriminate.
Qed.

Lemma square_pos (x : Z) : x ≠ 0 → 0 < x * x.
Proof.
  intros Hx. destruct (Z.lt_trichotomy x 0) as [H|[H|H]]; [|lia|].
  - by apply Z.mul_neg_neg.
  - by apply Z.mul_pos_pos.
Qed.

(** X16: The classifier returns five empty arrays, without a call of [atan2],
    for a grid without rows or without columns, whatever the viewpoint
    and the integer radius, and, on a grid of at most 32768 rows and
    columns, for the radius 0: the only cell within it is the viewpoint,
    which is never listed.  (The arguments are to fit a C [int], and the
    radius is at most 94906265.) *)
Theorem classifier_nothing_to_list (atan2 pow : float → float → float)
    (rows cols vr vc : Z) :
  (INT_MIN ≤ rows ≤ INT_MAX → INT_MIN ≤ cols ≤ INT_MAX →
   INT_MIN ≤ vr ≤ INT_MAX → INT_MIN ≤ vc ≤ INT_MAX →
   rows ≤ 0 ∨ cols ≤ 0 →
   ∀ R, R ≤ 94906265 →
     list_extreme_cell_angles atan2 pow (rows, cols) (vr, vc) (PyInt R)
     = Ok ([], [], [], [], []))
  ∧ (0 ≤ rows ≤ 32768 → 0 ≤ cols ≤ 32768 →
     0 ≤ vr < 32768 → 0 ≤ vc < 32768 →
     list_extreme_cell_angles atan2 pow (rows, cols) (vr, vc) (PyInt 0)
     = Ok ([], [], [], [], [])).
Proof.
  split.
  - intros Hrows Hcols Hvr Hvc Hempty R HR.
    assert (Hnil : visited_cells rows cols (of_Z (radius_sq R)) vr vc = []).
    { apply visited_cells_nil. intros row col Hrow Hcol. lia. }
    rewrite (list_extreme_cell_angles_run atan2 pow rows cols vr vc (PyInt R)
               (of_Z (radius_sq R)));
      [by rewrite Hnil|by apply max_dist_sq_of_int|done..|].
    rewrite Hnil. simpl. unfold INT_MAX. lia.
  - intros Hrows Hcols Hvr Hvc.
    assert (Hnil : visited_cells rows cols (of_Z (radius_sq 0)) vr vc = []).
    { apply visited_cells_nil. intros row col Hrow Hcol.
      rewrite cell_skipped_spec by lia.
      change (radius_sq 0) with 0.
      destruct (Z.eqb_spec row vr) as [->|Hr];
        [destruct (Z.eqb_spec col vc) as [->|Hc]|].
      + apply orb_true_r.
      + apply orb_true_iff. left. apply Z.ltb_lt.
        rewrite Z.sub_diag, !Z.pow_2_r.
        pose proof (square_pos (col - vc) ltac:(lia)). lia.
      + apply orb_true_iff. left. apply Z.ltb_lt. rewrite !Z.pow_2_r.
        pose proof (square_pos (row - vr) ltac:(lia)).
        pose proof (Z.square_nonneg (col - vc)). lia. }
    rewrite (list_extreme_cell_angles_run atan2 pow rows cols vr vc (PyInt 0)
               (of_Z (radius_sq 0)));
      [by rewrite Hnil|by apply max_dist_sq_of_int
      |unfold INT_MIN, INT_MAX; lia..|].
    rewrite Hnil. simpl. unfold INT_MAX. lia.
Qed.

(** ** The gap rule at the start of the line *)

Lemma getitem_last_inv {A} (arr : list A) (x : A) :
  getitem arr (-1) = Ok x → last arr = Some x.
Proof.
  intros H. apply getitem_inv in H as (k & Hk & H).
  rewrite last_lookup. unfold norm_index in Hk. simpl in Hk.
  destruct (_ && _) eqn:Hb; [|discriminate]. injection Hk as <-.
  apply andb_prop in Hb as [H1 H2].
  by replace (pred (length arr)) with (Z.to_nat (-1 + Z.of_nat (length arr)))
    by lia.
Qed.

(** Inactive slots up to the third one after the last active pixel: the
    scan stops there with nothing done. *)
Lemma scan_pixels_gap arr I J (n : nat) pixel_id st :
  0 ≤ pixel_id ≤ Scan.last_active_pixel st + 3 →
  (Z.to_nat (Scan.last_active_pixel st + 3 - pixel_id) < n)%nat →
  (Z.to_nat (Scan.last_active_pixel st + 3) < length arr)%nat →
  (∀ (k : nat) p, pixel_id ≤ Z.of_nat k ≤ Scan.last_active_pixel st + 3 →
     arr !! k = Some p → ActivePixel.is_active p = false) →
  scan_pixels arr I J n pixel_id st = Scanned st.
Proof.
  revert pixel_id. induction n as [|n IH]; intros pixel_id Hid Hn Hlen Hoff;
    [lia|].
  destruct (lookup_lt_is_Some_2 arr (Z.to_nat pixel_id)) as [p Hp]; [lia|].
  cbn [scan_pixels]. unfold ptr_read.
  destruct (_ && _) eqn:Hb; [|apply andb_false_iff in Hb as [Hb|Hb]; lia].
  rewrite Hp, (Hoff (Z.to_nat pixel_id) p ltac:(lia) Hp). cbn [negb].
  destruct (2 <? pixel_id - Scan.last_active_pixel st) eqn:Hgap; [done|].
  apply IH; [lia|lia|done|].
  intros k q Hk. apply Hoff. lia.
Qed.

(** X3: [last_active_pixel] starts at 1: when the slots 0 to 4 of the line are
    inactive, the scan stops at slot 4, and the pixels that the line
    holds further on are not evaluated.  The call counts 0, and the grid
    is as it was but for the step number [a], written to the cell that
    [I] and [J] list last. *)
Theorem leading_gap_hides_the_line arr I J pixel_count m a cnt m' :
  5 ≤ pixel_count → (5 ≤ length arr)%nat →
  (∀ (k : nat) p, (k < 5)%nat → arr !! k = Some p →
     ActivePixel.is_active p = false) →
  update_visible_pixels_fast arr I J pixel_count m a = Ok (cnt, m') →
  cnt = 0
  ∧ (m' = m
     ∨ ∃ row col, last I = Some row ∧ last J = Some col
         ∧ setitem2 m row col (of_Z a) = Ok m').
Proof.
  intros Hn Hlen Hoff H.
  assert (Hscan : scan_pixels arr I J (Z.to_nat pixel_count) 0 (scan_init m)
                  = Scanned (scan_init m)).
  { apply scan_pixels_gap; simpl; [lia|lia|lia|].
    intros k p Hk. apply Hoff. lia. }
  destruct (evaluator_cases _ _ _ _ _ _ _ _ H)
    as [(st & Hst & Hend)|(_ & e & Hst)]; [|congruence].
  rewrite Hscan in Hst. injection Hst as <-.
  destruct Hend as [[Hd ->]|[-> ->]]; [|by split; [|left]].
  split; [done|]. right. unfold debug_write in Hd. simpl in Hd.
  apply rbind_Ok_inv in Hd as (row & Hrow & Hd).
  apply rbind_Ok_inv in Hd as (col & Hcol & Hd).
  exists row, col. split; [by apply getitem_last_inv|].
  split; [by apply getitem_last_inv|done].
Qed.

(** Five free slots, then the pixel of the cell (0,0): it is not seen. *)
Lemma leading_gap_hides_the_line_witness :
  0 = 0
  ∧ ([[0%float; 7%float]] = demo_grid
     ∨ ∃ row col, last [0; 0] = Some row ∧ last [0; 1] = Some col
         ∧ setitem2 demo_grid row col (of_Z 7) = Ok [[0%float; 7%float]]).
Proof.
  apply (leading_gap_hides_the_line
           (replicate 5 inactive_pixel ++ [demo_pixel]) [0; 0] [0; 1] 6
           demo_grid 7 0 [[0%float; 7%float]]).
  - lia.
  - simpl. lia.
  - intros k p Hk Hp.
    do 5 (destruct k as [|k]; [by injection Hp as <-|]). lia.
  - vm_compute. reflexivity.
Defined.

(** ** From the classifier to the valuation *)



